(** * split_cl.py: splitting a branch into per-OWNERS changelists

    A shallow embedding of [split_cl.py] and of the parts of the Python
    standard library it calls ([str] methods, [posixpath], [re]), followed
    by the properties of the partitioning algorithm, of the description
    rewriting and of the upload workflow.

    Conventions.
    - A Python [str] is a [string]; characters are code points below 256.
    - [os.path] is [posixpath]: the separator is ["/"].
    - A [dict] is an association list in insertion order with distinct keys.
    - A [while] loop takes a fuel argument; running out of fuel stands for a
      loop that has not finished within that many iterations. *)

From Stdlib Require Import String Ascii List Bool Arith ZArith Lia Permutation.
From Stdlib Require Import DecimalString.
Import ListNotations.

Open Scope string_scope.
Open Scope list_scope.

Infix "+++" := String.append (at level 60, right associativity).

(** ** Outcomes of a Python computation *)

Inductive Exn : Type :=
| CalledProcessError (stderr : string)
| AssertionError (msg : string)
| IndexError
| TypeError.

(** [Val] is normal completion, [Return] a [return] statement executed
    inside the body of [SplitCl], [Raise] an exception that is propagating
    and [Diverges] a loop that ran out of fuel. *)
Inductive Outcome (A : Type) : Type :=
| Val (a : A)
| Return (status : Z)
| Raise (e : Exn)
| Diverges.

Arguments Val {A} a.
Arguments Return {A} status.
Arguments Raise {A} e.
Arguments Diverges {A}.

(** ** Python [str] methods *)

Module Str.

(** [sep.join(l)] *)
Fixpoint join (sep : string) (l : list string) : string :=
  match l with
  | [] => ""
  | [x] => x
  | x :: rest => x +++ sep +++ join sep rest
  end.

(** [s.split(c)] for a one-character separator [c]. *)
Fixpoint split (c : ascii) (s : string) : list string :=
  match s with
  | "" => [""]
  | String a s' =>
      if Ascii.eqb a c then "" :: split c s'
      else match split c s' with
           | h :: t => String a h :: t
           | [] => [String a ""]
           end
  end.

(** [s.startswith(p)] *)
Fixpoint startswith (s p : string) {struct p} : bool :=
  match p with
  | "" => true
  | String b p' =>
      match s with
      | "" => false
      | String a s' => Ascii.eqb a b && startswith s' p'
      end
  end.

(** [s.endswith(c)] for a one-character [c]. *)
Fixpoint endswith (s : string) (c : ascii) : bool :=
  match s with
  | "" => false
  | String a "" => Ascii.eqb a c
  | String _ s' => endswith s' c
  end.

(** [s.rfind(c)]: the index of the last [c], or [-1]. *)
Fixpoint rfind (s : string) (c : ascii) : Z :=
  match s with
  | "" => (-1)%Z
  | String a s' =>
      let r := rfind s' c in
      if (0 <=? r)%Z then (r + 1)%Z
      else if Ascii.eqb a c then 0%Z else (-1)%Z
  end.

(** [s[:i]] for [0 <= i]. *)
Definition slice_to (s : string) (i : Z) : string :=
  substring 0 (Z.to_nat i) s.

(** [s.rstrip(c)] *)
Fixpoint rstrip (s : string) (c : ascii) : string :=
  match s with
  | "" => ""
  | String a s' =>
      match rstrip s' c with
      | "" => if Ascii.eqb a c then "" else String a ""
      | r => String a r
      end
  end.

(** [s == c * len(s)] *)
Fixpoint all_char (c : ascii) (s : string) : bool :=
  match s with
  | "" => true
  | String a s' => Ascii.eqb a c && all_char c s'
  end.

(** [c * n] *)
Fixpoint repeat (c : ascii) (n : nat) : string :=
  match n with
  | O => ""
  | S k => String c (repeat c k)
  end.

(** [c in s] *)
Fixpoint has_char (c : ascii) (s : string) : bool :=
  match s with
  | "" => false
  | String a s' => Ascii.eqb a c || has_char c s'
  end.

(** [bool(s)]: a string is true when it is not empty. *)
Definition truthy (s : string) : bool :=
  match s with "" => false | _ => true end.

(** The line feed character and the string made of it. *)
Definition LF : ascii := "010"%char.
Definition CR : ascii := "013"%char.
Definition nl : string := String LF "".

(** [s.replace(old, new)] for a non-empty [old]: the occurrences of [old]
    are replaced from left to right, without overlap.  [skip] counts the
    characters of a replaced occurrence that are still to be passed. *)
Fixpoint replace_from (skip : nat) (s old new : string) : string :=
  match s with
  | "" => ""
  | String a s' =>
      match skip with
      | S k => replace_from k s' old new
      | O =>
          if startswith s old
          then new +++ replace_from (String.length old - 1) s' old new
          else String a (replace_from 0 s' old new)
      end
  end.

Definition replace (s old new : string) : string :=
  replace_from 0 s old new.

Definition code (c : ascii) : nat := nat_of_ascii c.

Definition between (lo hi : nat) (c : ascii) : bool :=
  (lo <=? code c)%nat && (code c <=? hi)%nat.

(** Whitespace, as [str.isspace], [str.strip] and the class [\s] of [re]
    have it for code points below 256. *)
Definition is_space (c : ascii) : bool :=
  between 9 13 c || between 28 32 c
  || (code c =? 133)%nat || (code c =? 160)%nat.

(** The class [[a-zA-Z]]. *)
Definition is_alpha (c : ascii) : bool :=
  between 97 122 c || between 65 90 c.

(** The class [[0-9]]. *)
Definition is_digit (c : ascii) : bool := between 48 57 c.

Fixpoint all (f : ascii -> bool) (s : string) : bool :=
  match s with
  | "" => true
  | String a s' => f a && all f s'
  end.

(** [s.isspace()] *)
Definition isspace (s : string) : bool := truthy s && all is_space s.

Fixpoint lstrip_space (s : string) : string :=
  match s with
  | "" => ""
  | String a s' => if is_space a then lstrip_space s' else s
  end.

Fixpoint rstrip_space (s : string) : string :=
  match s with
  | "" => ""
  | String a s' =>
      match rstrip_space s' with
      | "" => if is_space a then "" else String a ""
      | r => String a r
      end
  end.

(** [s.strip()] *)
Definition strip (s : string) : string := rstrip_space (lstrip_space s).

Definition lower_char (c : ascii) : ascii :=
  if between 65 90 c
     || (between 192 222 c && negb (code c =? 215)%nat)
  then ascii_of_nat (code c + 32) else c.

(** [s.lower()] *)
Fixpoint lower (s : string) : string :=
  match s with
  | "" => ""
  | String a s' => String (lower_char a) (lower s')
  end.

(** The line boundaries of [str.splitlines] below code point 256. *)
Definition is_linebreak (c : ascii) : bool :=
  between 10 13 c || between 28 30 c || (code c =? 133)%nat.

(** [s.splitlines()]; [after_cr] tells that the previous character was a
    carriage return, which a line feed completes. *)
Fixpoint splitlines_from (after_cr : bool) (s : string) : list string :=
  match s with
  | "" => []
  | String a s' =>
      if after_cr && Ascii.eqb a LF then splitlines_from false s'
      else if is_linebreak a
           then "" :: splitlines_from (Ascii.eqb a CR) s'
           else match splitlines_from false s' with
                | [] => [String a ""]
                | l :: ls => String a l :: ls
                end
  end.

Definition splitlines (s : string) : list string :=
  splitlines_from false s.

(** [str(n)] and [repr(n)] of a natural number. *)
Definition of_nat (n : nat) : string :=
  NilZero.string_of_uint (Nat.to_uint n).

(** [str(b)] of a Boolean. *)
Definition of_bool (b : bool) : string := if b then "True" else "False".

(** [x in l] for a list of strings. *)
Definition mem (x : string) (l : list string) : bool :=
  existsb (String.eqb x) l.

End Str.

(** ** [posixpath] *)

Module Path.

Definition sep : ascii := "/"%char.

(** [posixpath.dirname] *)
Definition dirname (p : string) : string :=
  let i := (Str.rfind p sep + 1)%Z in
  let head := Str.slice_to p i in
  if Str.truthy head && negb (Str.all_char sep head)
  then Str.rstrip head sep
  else head.

(** One step of the loop of [posixpath.join]. *)
Definition join_step (path b : string) : string :=
  if Str.startswith b "/" then b
  else if negb (Str.truthy path) || Str.endswith path sep then path +++ b
  else path +++ "/" +++ b.

(** [posixpath.join(a, *p)] *)
Definition join (a : string) (p : list string) : string :=
  fold_left join_step p a.

(** [posixpath.join] applied to the unpacked list [l]: with no argument
    at all the call raises [TypeError]. *)
Definition join_star (l : list string) : Outcome string :=
  match l with
  | [] => Raise TypeError
  | a :: p => Val (join a p)
  end.

(** The body of the loop of [posixpath.normpath]; [new_comps] is the
    Python list, its last element is the most recent component. *)
Definition norm_step (initial_slashes : nat) (new_comps : list string)
    (comp : string) : list string :=
  if (comp =? "") || (comp =? ".") then new_comps
  else if negb (comp =? "..")
          || ((initial_slashes =? 0)%nat && (length new_comps =? 0)%nat)
          || (negb (length new_comps =? 0)%nat
              && (last new_comps "" =? ".."))
       then new_comps ++ [comp]
       else removelast new_comps.

(** [posixpath.normpath] *)
Definition normpath (path : string) : string :=
  if path =? "" then "."
  else
    let initial_slashes :=
      if Str.startswith path "/" then
        if Str.startswith path "//" && negb (Str.startswith path "///")
        then 2%nat else 1%nat
      else 0%nat in
    let comps := Str.split sep path in
    let new_comps := fold_left (norm_step initial_slashes) comps [] in
    let path := Str.join "/" new_comps in
    let path := Str.repeat sep initial_slashes +++ path in
    if Str.truthy path then path else ".".

End Path.

(** ** [GetFilesSplitByOwners] *)

Module Owners.

(** A changed file: [(action, path)]. *)
Definition File : Type := string * string.

(** The dictionary [files_split_by_owners]. *)
Definition Groups : Type := list (string * list File).

Definition keys (m : Groups) : list string := map fst m.
Definition members (m : Groups) : list File := concat (map snd m).

(** [k in m] *)
Definition contains (m : Groups) (k : string) : bool :=
  existsb (String.eqb k) (keys m).

(** [m.setdefault(k, []).append(v)] *)
Fixpoint setdefault_append (m : Groups) (k : string) (v : File) : Groups :=
  match m with
  | [] => [(k, [v])]
  | (k', vs) :: m' =>
      if k' =? k then (k', vs ++ [v]) :: m'
      else (k', vs) :: setdefault_append m' k v
  end.

(** [l[:n]] for [1 <= n]. *)
Definition take (n : Z) (l : list string) : list string :=
  firstn (Z.to_nat n) l.

(** Lines 158-161: the directory the search for an OWNERS file starts
    from. *)
Definition start_dir (path : string) (max_depth : Z) : Outcome string :=
  let dir_with_owners := Path.normpath (Path.dirname path) in
  if (max_depth >=? 1)%Z
  then Path.join_star (take max_depth (Str.split Path.sep dir_with_owners))
  else Val dir_with_owners.

Section WithFilesystem.

(** [os.path.isfile]: which paths are regular files. *)
Variable isfile : string -> bool.

Definition has_owners (d : string) : bool :=
  isfile (Path.join d ["OWNERS"]).

(** The negation of the condition of the [while] loop. *)
Definition stops (m : Groups) (d : string) : bool :=
  contains m d || has_owners d.

(** Lines 163-165: the [while] loop. *)
Fixpoint find_owners (fuel : nat) (m : Groups) (d : string)
  : option string :=
  match fuel with
  | O => None
  | S fuel' =>
      if negb (contains m d) && negb (has_owners d)
      then find_owners fuel' m (Path.dirname d)
      else Some d
  end.

(** Lines 154-166: the [for] loop over [files]. *)
Fixpoint split_loop (fuel : nat) (files : list File) (max_depth : Z)
    (m : Groups) : Outcome Groups :=
  match files with
  | [] => Val m
  | (action, path) :: rest =>
      match start_dir path max_depth with
      | Val d0 =>
          match find_owners fuel m d0 with
          | Some d =>
              split_loop fuel rest max_depth
                (setdefault_append m d (action, path))
          | None => Diverges
          end
      | Return z => Return z
      | Raise e => Raise e
      | Diverges => Diverges
      end
  end.

Definition GetFilesSplitByOwners (fuel : nat) (files : list File)
    (max_depth : Z) : Outcome Groups :=
  split_loop fuel files max_depth [].

End WithFilesystem.

End Owners.

(** ** Descriptions and comments *)

Module Description.

(** [FormatDescriptionOrComment] *)
Definition FormatDescriptionOrComment (txt directory : string) : string :=
  Str.replace txt "$directory" ("/" +++ directory).

Definition uploaded_by_line : string :=
  "This CL was uploaded by git cl split.".

(** [l[-1]] *)
Definition last_item (l : list string) : Outcome string :=
  match l with
  | [] => Raise IndexError
  | _ :: _ => Val (last l "")
  end.

Section WithFooters.

(** [git_footers.split_footers], a function of another module of the
    repository: the lines that are not footers and the footer lines (the
    first two components of its result). *)
Variable split_footers : string -> list string * list string.

(** [AddUploadedByGitClSplitToDescription] *)
Definition AddUploadedByGitClSplitToDescription (description : string)
  : Outcome string :=
  let split_footers_result := split_footers description in
  let lines := fst split_footers_result in
  match last_item lines with
  | Val last_line =>
      let lines :=
        if Str.truthy last_line && negb (Str.isspace last_line)
        then lines ++ [""] else lines in
      let lines := lines ++ [uploaded_by_line] in
      let lines :=
        match snd split_footers_result with
        | [] => lines
        | _ :: _ => lines ++ ([""] ++ snd split_footers_result)
        end in
      Val (Str.join Str.nl lines)
  | Return z => Return z
  | Raise e => Raise e
  | Diverges => Diverges
  end.

End WithFooters.

End Description.

(** ** Regular expressions *)

Module Re.

(** The fragment of the syntax of [re] that [bug_pattern] uses. *)
Inductive re : Type :=
| Void
| Eps
| Class (f : ascii -> bool)
| Seq (r1 r2 : re)
| Alt (r1 r2 : re)
| Star (r : re).

Definition Plus (r : re) : re := Seq r (Star r).
Definition Opt (r : re) : re := Alt r Eps.

Fixpoint Lit (s : string) : re :=
  match s with
  | "" => Eps
  | String a s' => Seq (Class (Ascii.eqb a)) (Lit s')
  end.

(** The strings a pattern matches. *)
Inductive matches : re -> string -> Prop :=
| MEps : matches Eps ""
| MClass f c : f c = true -> matches (Class f) (String c "")
| MSeq r1 r2 s1 s2 :
    matches r1 s1 -> matches r2 s2 -> matches (Seq r1 r2) (s1 +++ s2)
| MAltL r1 r2 s : matches r1 s -> matches (Alt r1 r2) s
| MAltR r1 r2 s : matches r2 s -> matches (Alt r1 r2) s
| MStarNil r : matches (Star r) ""
| MStarCons r s1 s2 :
    matches r s1 -> matches (Star r) s2 -> matches (Star r) (s1 +++ s2).

Fixpoint nullable (r : re) : bool :=
  match r with
  | Void => false
  | Eps => true
  | Class _ => false
  | Seq r1 r2 => nullable r1 && nullable r2
  | Alt r1 r2 => nullable r1 || nullable r2
  | Star _ => true
  end.

(** The derivative of a pattern by a character. *)
Fixpoint deriv (c : ascii) (r : re) : re :=
  match r with
  | Void => Void
  | Eps => Void
  | Class f => if f c then Eps else Void
  | Seq r1 r2 =>
      if nullable r1
      then Alt (Seq (deriv c r1) r2) (deriv c r2)
      else Seq (deriv c r1) r2
  | Alt r1 r2 => Alt (deriv c r1) (deriv c r2)
  | Star r1 => Seq (deriv c r1) (Star r1)
  end.

(** [pattern.match(s)] succeeds: some prefix of [s] matches. *)
Fixpoint match_prefix (r : re) (s : string) : bool :=
  nullable r ||
  match s with
  | "" => false
  | String c s' => match_prefix (deriv c r) s'
  end.

(** [re.findall(pattern, s)] is not empty, for a pattern that starts
    with [^] and is compiled with [re.MULTILINE]: [r] is the pattern after
    the [^]; a match is tried at the start of the string and after each
    line feed.  [at_line_start] tells whether [s] begins a line. *)
Fixpoint search_lines (at_line_start : bool) (r : re) (s : string) : bool :=
  (at_line_start && match_prefix r s) ||
  match s with
  | "" => false
  | String c s' => search_lines (Ascii.eqb c Str.LF) r s'
  end.

Definition findall_multiline_nonempty (r : re) (s : string) : bool :=
  search_lines true r s.

End Re.

(** ** The workflow: branches, commits and uploads *)

Module Workflow.
Import Owners Description.

(** The invocations of [git.run] made by the program. *)
Inductive GitCmd : Type :=
| RevParse
| CheckoutNewBranch (upstream name : string)
| Rm (paths : list string)
| CheckoutPaths (branch : string) (paths : list string)
| Commit (message_file : string)
| ConfigGet (key : string)
| Checkout (branch : string).

(** The arguments each invocation passes to [git.run]. *)
Definition argv (c : GitCmd) : list string :=
  match c with
  | RevParse => ["rev-parse"]
  | CheckoutNewBranch upstream name =>
      ["checkout"; "-t"; upstream; "-b"; name]
  | Rm paths => ["rm"] ++ paths
  | CheckoutPaths branch paths => ["checkout"; branch; "--"] ++ paths
  | Commit message_file => ["commit"; "-F"; message_file]
  | ConfigGet key => ["config"; key]
  | Checkout branch => ["checkout"; branch]
  end.

(** What a run does to the outside world. *)
Inductive Event : Type :=
| EPrint (text : string)
| EStderr (text : string)
| EGit (c : GitCmd)
| ETempFile (name : string)
| EFileWrite (name content : string)
| ERemoveFile (name : string)
| EUpload (args : list string)
| EAddComment (text : string)
| EAsk (prompt : string).

(** The state of the repository and the events so far, the most recent
    first. *)
Record World : Type := mkWorld {
  branches : list string;
  current : option string;
  trace : list Event
}.

Definition log (e : Event) (w : World) : World :=
  mkWorld (branches w) (current w) (e :: trace w).

(** The collaborators of the program: the git client, the review client,
    the filesystem and the interactive prompt. *)
Record Env : Type := mkEnv {
  git_ok : GitCmd -> World -> bool;
  git_stdout : GitCmd -> World -> string;
  git_stderr : GitCmd -> World -> string;
  upstream_of : string -> World -> option string;
  cmd_upload_status : list string -> World -> Z;
  AskForData_answer : string -> World -> string;
  FileRead : string -> string;
  isfile : string -> bool;
  getcwd : string;
  tmp_file : string;
  split_footers : string -> list string * list string;
  CaptureStatus : string -> string -> list (string * string);
  GetCommonAncestorWithUpstream : string;
  SuggestOwners : list string -> list (option string) -> list string;
  EVERYONE : string;
  fuel : nat
}.

(** *** The monad of the program: state, exceptions and early return *)

Definition M (A : Type) : Type := World -> Outcome A * World.

Definition ret {A} (a : A) : M A := fun w => (Val a, w).

Definition bind {A B} (m : M A) (k : A -> M B) : M B :=
  fun w =>
    match m w with
    | (Val a, w') => k a w'
    | (Return z, w') => (Return z, w')
    | (Raise e, w') => (Raise e, w')
    | (Diverges, w') => (Diverges, w')
    end.

Notation "x <- m ;; k" := (bind m (fun x => k))
  (at level 61, m at next level, right associativity).
Notation "m ;; k" := (bind m (fun _ => k))
  (at level 61, right associativity).

Definition lift {A} (o : Outcome A) : M A := fun w => (o, w).
Definition raise {A} (e : Exn) : M A := lift (Raise e).
Definition return_ {A} (status : Z) : M A := lift (Return status).
Definition emit (e : Event) : M unit := fun w => (Val tt, log e w).
Definition print (text : string) : M unit := emit (EPrint text).
Definition get {A} (f : World -> A) : M A := fun w => (Val (f w), w).

(** [try: body except subprocess2.CalledProcessError as cpe: handler] *)
Definition try_except {A} (body : M A) (handler : string -> M A) : M A :=
  fun w =>
    match body w with
    | (Raise (CalledProcessError stderr), w') => handler stderr w'
    | r => r
    end.

(** The body of a function that ends with a [return]. *)
Definition function_body (body : M Z) : M Z :=
  fun w =>
    match body w with
    | (Return status, w') => (Val status, w')
    | r => r
    end.

Definition when (b : bool) (m : M unit) : M unit :=
  if b then m else ret tt.

Definition nonempty {A} (l : list A) : bool :=
  match l with [] => false | _ :: _ => true end.

Definition truthy_opt (o : option string) : bool :=
  match o with Some s => Str.truthy s | None => false end.

Section WithEnv.

Variable env : Env.

(** What a successful git command does to the branches. *)
Definition git_effect (c : GitCmd) (w : World) : World :=
  match c with
  | CheckoutNewBranch _ name =>
      mkWorld (branches w ++ [name]) (Some name) (trace w)
  | Checkout branch => mkWorld (branches w) (Some branch) (trace w)
  | _ => w
  end.

(** [git.run]: a failing command raises [CalledProcessError]. *)
Definition git_run (c : GitCmd) : M string :=
  fun w =>
    if git_ok env c w
    then (Val (git_stdout env c w), git_effect c (log (EGit c) w))
    else (Raise (CalledProcessError (git_stderr env c w)), log (EGit c) w).

(** [git.branches], [git.current_branch] and [git.upstream] read the
    repository. *)
Definition git_branches : M (list string) := get branches.
Definition git_current_branch : M (option string) := get current.
Definition git_upstream (branch : string) : M (option string) :=
  get (upstream_of env branch).

Definition cmd_upload (args : list string) : M Z :=
  fun w => (Val (cmd_upload_status env args w), log (EUpload args) w).

Definition AddComment (text : string) : M unit := emit (EAddComment text).

Definition AskForData (prompt : string) : M string :=
  fun w => (Val (AskForData_answer env prompt w), log (EAsk prompt) w).

(** [with gclient_utils.temporary_file() as tmp_file: body]: the file is
    removed when the block is left, whatever its outcome. *)
Definition temporary_file {A} (body : string -> M A) : M A :=
  fun w =>
    let (o, w') := body (tmp_file env) (log (ETempFile (tmp_file env)) w) in
    (o, log (ERemoveFile (tmp_file env)) w').

Definition FileWrite (name content : string) : M unit :=
  emit (EFileWrite name content).

(** [os.path.abspath] *)
Definition abspath (path : string) : string :=
  Path.normpath
    (if Str.startswith path "/" then path
     else Path.join (getcwd env) [path]).

(** [EnsureInGitRepository] *)
Definition EnsureInGitRepository : M unit :=
  git_run RevParse ;; ret tt.

Definition branch_name (prefix directory : string) : string :=
  prefix +++ "_" +++ directory +++ "_split".

(** [CreateBranchForDirectory] *)
Definition CreateBranchForDirectory (prefix directory upstream : string)
  : M bool :=
  existing_branches <- git_branches ;;
  let branch_name := prefix +++ "_" +++ directory +++ "_split" in
  if Str.mem branch_name existing_branches then ret false
  else git_run (CheckoutNewBranch upstream branch_name) ;; ret true.

(** Lines 98-105 of [UploadCl]: the files of the group, sorted into
    [(deleted_files, modified_files)]. *)
Definition sort_by_action (repository_root : string) (files : list File)
  : list string * list string :=
  fold_left
    (fun (acc : list string * list string) (file : File) =>
       let (deleted_files, modified_files) := acc in
       let (action, f) := file in
       let abspath := abspath (Path.join repository_root [f]) in
       if action =? "D"
       then (deleted_files ++ [abspath], modified_files)
       else (deleted_files, modified_files ++ [abspath]))
    files ([], []).

(** Lines 121-131 of [UploadCl]. *)
Definition upload_arguments (comment : option string)
    (reviewers : list string) (cq_dry_run enable_auto_submit : bool)
    (topic : option string) : list string :=
  let upload_args := ["-f"] in
  let upload_args :=
    if nonempty reviewers
    then upload_args ++ ["-r"; Str.join "," reviewers] else upload_args in
  let upload_args :=
    if cq_dry_run then upload_args ++ ["--cq-dry-run"] else upload_args in
  let upload_args :=
    if negb (truthy_opt comment)
    then upload_args ++ ["--send-mail"] else upload_args in
  let upload_args :=
    if enable_auto_submit
    then upload_args ++ ["--enable-auto-submit"] else upload_args in
  match topic with
  | Some t => if Str.truthy t then upload_args ++ ["--topic=" +++ t]
              else upload_args
  | None => upload_args
  end.

(** Lines 97-110 of [UploadCl]: check out all changes to the files. *)
Definition checkout_changes (refactor_branch : string) (files : list File)
    (repository_root : string) : M unit :=
  let (deleted_files, modified_files) :=
    sort_by_action repository_root files in
  when (nonempty deleted_files)
    (git_run (Rm deleted_files) ;; ret tt) ;;
  when (nonempty modified_files)
    (git_run (CheckoutPaths refactor_branch modified_files) ;; ret tt).

(** Lines 112-118 of [UploadCl]: commit the changes. *)
Definition commit_changes (description directory : string) : M unit :=
  temporary_file (fun tmp_file =>
    FileWrite tmp_file (FormatDescriptionOrComment description directory) ;;
    git_run (Commit tmp_file) ;; ret tt).

(** Lines 120-143 of [UploadCl]: upload a CL and comment on it. *)
Definition upload_and_comment (directory : string)
    (comment : option string) (reviewers : list string)
    (cq_dry_run enable_auto_submit : bool) (topic : option string)
  : M unit :=
  let upload_args :=
    upload_arguments comment reviewers cq_dry_run enable_auto_submit
      topic in
  print ("Uploading CL for " +++ directory +++ "...") ;;
  ret_code <- cmd_upload upload_args ;;
  when (negb (ret_code =? 0)%Z)
    (print ("Uploading failed for " +++ directory +++ ".") ;;
     print "Note: git cl split has built-in resume capabilities." ;;
     branch <- git_current_branch ;;
     match branch with
     | Some b =>
         print ("Delete " +++ b
                +++ " then run git cl split again to resume uploading.")
     | None => raise TypeError
     end) ;;
  match comment with
  | Some c =>
      when (Str.truthy c)
        (AddComment (FormatDescriptionOrComment c directory))
  | None => ret tt
  end.

(** [UploadCl] *)
Definition UploadCl (refactor_branch refactor_branch_upstream
    directory : string) (files : list File) (description : string)
    (comment : option string) (reviewers : list string)
    (cq_dry_run enable_auto_submit : bool) (topic : option string)
    (repository_root : string) : M unit :=
  created <- CreateBranchForDirectory
               refactor_branch directory refactor_branch_upstream ;;
  if negb created
  then print ("Skipping " +++ directory
              +++ " for which a branch already exists.")
  else
    checkout_changes refactor_branch files repository_root ;;
    commit_changes description directory ;;
    upload_and_comment directory comment reviewers cq_dry_run
      enable_auto_submit topic.

Definition format_topic (topic : option string) : string :=
  match topic with Some t => t | None => "None" end.

(** [PrintClInfo] *)
Definition PrintClInfo (cl_index num_cls : nat) (directory : string)
    (file_paths : list string) (description : string)
    (reviewers : list string) (enable_auto_submit : bool)
    (topic : option string) : M unit :=
  let description_lines :=
    Str.splitlines (FormatDescriptionOrComment description directory) in
  let indented_description :=
    Str.join Str.nl (map (fun l => "    " +++ l) description_lines) in
  print ("CL " +++ Str.of_nat cl_index +++ "/" +++ Str.of_nat num_cls) ;;
  print ("Path: " +++ directory) ;;
  print ("Reviewers: " +++ Str.join ", " reviewers) ;;
  print ("Auto-Submit: " +++ Str.of_bool enable_auto_submit) ;;
  print ("Topic: " +++ format_topic topic) ;;
  print (Str.nl +++ indented_description +++ Str.nl) ;;
  print (Str.join Str.nl file_paths) ;;
  print "".

(** The arguments of [SplitCl] that are not collaborators. *)
Record Args : Type := mkArgs {
  description_file : string;
  comment_file : option string;
  dry_run : bool;
  cq_dry_run : bool;
  enable_auto_submit : bool;
  max_depth : Z;
  topic : option string;
  repository_root : string
}.

Definition CL_SPLIT_FORCE_LIMIT : nat := 10.

Definition dquote : string := String "034"%char "".

Definition fan_out_warning (num_cls : nat) : string :=
  "This will generate " +++ dquote +++ Str.of_nat num_cls +++ dquote
  +++ " CLs. This many CLs can potentially generate"
  +++ " too much load on the build infrastructure. Please email"
  +++ " infra-dev@chromium.org to ensure that this won't  break anything."
  +++ " The infra team reserves the right to cancel your jobs if they are"
  +++ " overloading the CQ.".

Definition fan_out_prompt : string := "Proceed? (y/n):".

Definition bug_link_prompt : string :=
  "Description does not include a bug link. Proceed? (y/n):".

(** [bug_pattern] after its leading [^]:
    [Bug:\s*(?:[a-zA-Z]+:)?[0-9]+]. *)
Definition bug_pattern : Re.re :=
  Re.Seq (Re.Lit "Bug:")
    (Re.Seq (Re.Star (Re.Class Str.is_space))
       (Re.Seq
          (Re.Opt (Re.Seq (Re.Plus (Re.Class Str.is_alpha)) (Re.Lit ":")))
          (Re.Plus (Re.Class Str.is_digit)))).

(** [bool(re.findall(bug_pattern, description))] *)
Definition has_bug_link (description : string) : bool :=
  Re.findall_multiline_nonempty bug_pattern description.

(** What lines 223-247 of [SplitCl] compute for the rest of the run. *)
Record Setup : Type := mkSetup {
  author : option string;
  refactor_branch : string;
  refactor_branch_upstream : string;
  files_split_by_owners : Groups
}.

(** [assert value, message] for a string that may be [None]. *)
Definition assert_truthy (value : option string) (message : string)
  : M string :=
  match value with
  | Some v => if Str.truthy v then ret v else raise (AssertionError message)
  | None => raise (AssertionError message)
  end.

(** Lines 223-247 of [SplitCl]. *)
Definition SplitCl_setup (a : Args) : M Setup :=
  EnsureInGitRepository ;;
  let upstream := GetCommonAncestorWithUpstream env in
  let files :=
    map (fun af : string * string => (Str.strip (fst af), snd af))
      (CaptureStatus env (repository_root a) upstream) in
  if negb (nonempty files)
  then print "Cannot split an empty CL." ;; return_ 1
  else
    email <- git_run (ConfigGet "user.email") ;;
    let author :=
      if Str.truthy (Str.strip email) then Some (Str.strip email)
      else None in
    current_branch <- git_current_branch ;;
    refactor_branch <-
      assert_truthy current_branch "Can't run from detached branch." ;;
    upstream_branch <- git_upstream refactor_branch ;;
    refactor_branch_upstream <-
      assert_truthy upstream_branch
        ("Branch " +++ refactor_branch +++ " must have an upstream.") ;;
    files_split_by_owners <-
      lift (GetFilesSplitByOwners (isfile env) (fuel env) files
              (max_depth a)) ;;
    let num_cls := length files_split_by_owners in
    print ("Will split current branch (" +++ refactor_branch +++ ") into "
           +++ Str.of_nat num_cls +++ " CLs." +++ Str.nl) ;;
    ret (mkSetup author refactor_branch refactor_branch_upstream
           files_split_by_owners).

(** Lines 248-257 of [SplitCl]. *)
Definition fan_out_gate (cq_dry_run : bool) (num_cls : nat) : M unit :=
  if cq_dry_run && (CL_SPLIT_FORCE_LIMIT <? num_cls)%nat
  then
    print (fan_out_warning num_cls) ;;
    answer <- AskForData fan_out_prompt ;;
    if negb (Str.lower answer =? "y") then return_ 0 else ret tt
  else ret tt.

(** Lines 259-269 of [SplitCl]. *)
Definition bug_link_gate (description : string) : M unit :=
  answer <- (if negb (has_bug_link description)
             then AskForData bug_link_prompt
             else ret "y") ;;
  if negb (Str.lower answer =? "y") then return_ 0 else ret tt.

(** Lines 271-285 of [SplitCl]: the loop over the groups, numbered from
    [cl_index]. *)
Fixpoint upload_loop (a : Args) (st : Setup) (num_cls : nat)
    (description : string) (comment : option string) (cl_index : nat)
    (groups : Groups) : M unit :=
  match groups with
  | [] => ret tt
  | (directory, files) :: rest =>
      let directory := Str.replace directory (String Path.sep "") "/" in
      let file_paths := map snd files in
      let reviewers :=
        SuggestOwners env file_paths [author st; Some (EVERYONE env)] in
      (if dry_run a
       then PrintClInfo cl_index num_cls directory file_paths description
              reviewers (enable_auto_submit a) (topic a)
       else UploadCl (refactor_branch st) (refactor_branch_upstream st)
              directory files description comment reviewers (cq_dry_run a)
              (enable_auto_submit a) (topic a) (repository_root a)) ;;
      upload_loop a st num_cls description comment (S cl_index) rest
  end.

(** Lines 271-288 of [SplitCl]: the loop, then the checkout of the
    original branch. *)
Definition upload_groups (a : Args) (st : Setup) (description : string)
    (comment : option string) : M unit :=
  upload_loop a st (length (files_split_by_owners st)) description comment
    1 (files_split_by_owners st) ;;
  git_run (Checkout (refactor_branch st)) ;; ret tt.

(** Lines 222-288 of [SplitCl]: the body of the [try] statement. *)
Definition SplitCl_try (a : Args) (description : string)
    (comment : option string) : M unit :=
  st <- SplitCl_setup a ;;
  fan_out_gate (cq_dry_run a) (length (files_split_by_owners st)) ;;
  bug_link_gate description ;;
  upload_groups a st description comment.

(** [SplitCl]; the result is the exit status of the command. *)
Definition SplitCl (a : Args) : M Z :=
  function_body (
    description <-
      lift (AddUploadedByGitClSplitToDescription (split_footers env)
              (FileRead env (description_file a))) ;;
    let comment :=
      if truthy_opt (comment_file a)
      then option_map (FileRead env) (comment_file a) else None in
    try_except (SplitCl_try a description comment)
      (fun stderr => emit (EStderr stderr) ;; return_ 1) ;;
    return_ 0).

End WithEnv.

End Workflow.

(** ** A concrete run *)

Module Scenario.
Import Owners Workflow.

(** The layout of the end-to-end scenario: OWNERS files in [a/b] and in
    [a], none in [a/c]. *)
Definition scenario_isfile (p : string) : bool :=
  (p =? "a/b/OWNERS") || (p =? "a/OWNERS").

Definition scenario_files : list File :=
  [("M", "a/b/x.txt"); ("M", "a/c/y.txt"); ("D", "a/b/z.txt")].

Definition scenario_groups : Groups :=
  [("a/b", [("M", "a/b/x.txt"); ("D", "a/b/z.txt")]);
   ("a", [("M", "a/c/y.txt")])].

(** Collaborators for which every git command succeeds, every upload
    returns the status [upload_status] and every question is answered
    with [answer]. *)
Definition scenario_env (upload_status : Z) (answer : string) : Env :=
  mkEnv
    (fun _ _ => true)
    (fun c _ => match c with ConfigGet _ => "dev@example.org" | _ => "" end)
    (fun _ _ => "")
    (fun _ _ => Some "origin/main")
    (fun _ _ => upload_status)
    (fun _ _ => answer)
    (fun _ => "Fix crash")
    scenario_isfile
    "/repo"
    "/tmp/description"
    (fun _ => (["Fix crash"], []))
    (fun _ _ => [(" M", "a/b/x.txt"); (" M", "a/c/y.txt");
                 (" D", "a/b/z.txt")])
    "origin/main"
    (fun _ _ => ["owner@example.org"])
    "*"
    3.

Definition scenario_args (cq : bool) : Args :=
  mkArgs "description.txt" None false cq false 0 None "/repo".

Definition scenario_world : World :=
  mkWorld ["main"; "feature"] (Some "feature") [].

Definition scenario_setup : Setup :=
  mkSetup (Some "dev@example.org") "feature" "origin/main" scenario_groups.

Definition scenario_description : string :=
  "Fix crash" +++ Str.nl +++ Str.nl
  +++ "This CL was uploaded by git cl split.".

(** The world after the setup of [SplitCl] in the scenario. *)
Definition scenario_after_setup : World :=
  Eval vm_compute in
    snd (SplitCl_setup (scenario_env 0 "n") (scenario_args false)
           scenario_world).

(** Eleven changed files in eleven directories, each with its OWNERS
    file, and a user who declines. *)
Definition eleven_files : list (string * string) :=
  map (fun n => ("M", "d" +++ Str.of_nat n +++ "/f")) (seq 0 11).

Definition eleven_env : Env :=
  mkEnv
    (fun _ _ => true)
    (fun c _ => match c with ConfigGet _ => "dev@example.org" | _ => "" end)
    (fun _ _ => "")
    (fun _ _ => Some "origin/main")
    (fun _ _ => 0%Z)
    (fun _ _ => "n")
    (fun _ => "Fix crash")
    (fun _ => true)
    "/repo"
    "/tmp/description"
    (fun _ => (["Fix crash"], []))
    (fun _ _ => eleven_files)
    "origin/main"
    (fun _ _ => ["owner@example.org"])
    "*"
    3.

Definition eleven_setup : Setup :=
  Eval vm_compute in
    mkSetup (Some "dev@example.org") "feature" "origin/main"
      (map (fun f => (Path.dirname (snd f), [f])) eleven_files).

Definition eleven_after_setup : World :=
  Eval vm_compute in
    snd (SplitCl_setup eleven_env (scenario_args true) scenario_world).

(** Collaborators for which [git commit] fails and every other git
    command succeeds. *)
Definition commit_fails_env : Env :=
  mkEnv
    (fun c _ => match c with Commit _ => false | _ => true end)
    (fun c _ => match c with ConfigGet _ => "dev@example.org" | _ => "" end)
    (fun _ _ => "nothing to commit")
    (fun _ _ => Some "origin/main")
    (fun _ _ => 0%Z)
    (fun _ _ => "y")
    (fun _ => "Fix crash")
    scenario_isfile
    "/repo"
    "/tmp/description"
    (fun _ => (["Fix crash"], []))
    (fun _ _ => [(" M", "a/b/x.txt"); (" M", "a/c/y.txt");
                 (" D", "a/b/z.txt")])
    "origin/main"
    (fun _ _ => ["owner@example.org"])
    "*"
    3.

(** OWNERS files in [a] and, deeper than two components, in
    [a/b/c/d/e]. *)
Definition deep_isfile (p : string) : bool :=
  (p =? "a/OWNERS") || (p =? "a/b/c/d/e/OWNERS").

(** Collaborators for which every git command succeeds and the upload
    fails, with status 1, on the branch of the group [a/b] only. *)
Definition mixed_env : Env :=
  mkEnv
    (fun _ _ => true)
    (fun c _ => match c with ConfigGet _ => "dev@example.org" | _ => "" end)
    (fun _ _ => "")
    (fun _ _ => Some "origin/main")
    (fun _ w =>
       match current w with
       | Some branch => if branch =? "feature_a/b_split" then 1%Z else 0%Z
       | None => 0%Z
       end)
    (fun _ _ => "y")
    (fun _ => "Fix crash")
    scenario_isfile
    "/repo"
    "/tmp/description"
    (fun _ => (["Fix crash"], []))
    (fun _ _ => [(" M", "a/b/x.txt"); (" M", "a/c/y.txt");
                 (" D", "a/b/z.txt")])
    "origin/main"
    (fun _ _ => ["owner@example.org"])
    "*"
    3.

End Scenario.

(** * Properties *)

(** ** Strings *)

Module StrFacts.
Import Str.

Lemma append_empty_r (s : string) : s +++ "" = s.
Proof. induction s as [|a s IH]; simpl; [reflexivity | now rewrite IH]. Qed.

Lemma append_assoc (a b c : string) : (a +++ b) +++ c = a +++ b +++ c.
Proof. induction a as [|x a IH]; simpl; [reflexivity | now rewrite IH]. Qed.

Lemma split_not_nil (c : ascii) (s : string) : split c s <> [].
Proof.
  destruct s as [|a s]; simpl; [discriminate|].
  destruct (Ascii.eqb a c); [discriminate|].
  destruct (split c s); discriminate.
Qed.

Lemma join_cons_String (sep : string) (a : ascii) (h : string)
    (t : list string) :
  join sep (String a h :: t) = String a (join sep (h :: t)).
Proof. destruct t; reflexivity. Qed.

Lemma join_cons (sep x : string) (l : list string) :
  l <> [] -> join sep (x :: l) = x +++ sep +++ join sep l.
Proof. destruct l; [congruence | reflexivity]. Qed.

(** Joining the components of a split gives the string back. *)
Lemma join_split (c : ascii) (s : string) :
  join (String c "") (split c s) = s.
Proof.
  induction s as [|a s IH]; [reflexivity|]. simpl.
  destruct (Ascii.eqb a c) eqn:E.
  - apply Ascii.eqb_eq in E. subst a.
    rewrite join_cons by apply split_not_nil. simpl. now rewrite IH.
  - destruct (split c s) as [|h t] eqn:S.
    + now apply split_not_nil in S.
    + rewrite join_cons_String. now rewrite IH.
Qed.

Lemma split_no_sep (c : ascii) (x : string) :
  has_char c x = false -> split c x = [x].
Proof.
  induction x as [|a x IH]; simpl; [reflexivity|].
  intros H. apply orb_false_iff in H. destruct H as [H1 H2].
  rewrite H1, (IH H2). reflexivity.
Qed.

Lemma split_app_sep (c : ascii) (x rest : string) :
  has_char c x = false ->
  split c (x +++ String c rest) = x :: split c rest.
Proof.
  induction x as [|a x IH]; simpl; intros H.
  - now rewrite Ascii.eqb_refl.
  - apply orb_false_iff in H. destruct H as [H1 H2].
    rewrite H1, (IH H2). reflexivity.
Qed.

(** Splitting a join of separator-free components gives them back. *)
Lemma split_join (c : ascii) (l : list string) :
  l <> [] ->
  Forall (fun x => has_char c x = false) l ->
  split c (join (String c "") l) = l.
Proof.
  induction l as [|x l IH]; [congruence|]. intros _ H.
  inversion H as [|? ? Hx Hl]; subst.
  destruct l as [|y l].
  - simpl. now apply split_no_sep.
  - rewrite join_cons by discriminate. cbn [append].
    rewrite split_app_sep by assumption.
    rewrite IH; [reflexivity | discriminate | assumption].
Qed.

Lemma split_has_no_sep (c : ascii) (s : string) :
  Forall (fun x => has_char c x = false) (split c s).
Proof.
  induction s as [|a s IH]; simpl.
  - constructor; [reflexivity | constructor].
  - destruct (Ascii.eqb a c) eqn:E.
    + constructor; [reflexivity | assumption].
    + destruct (split c s) as [|h t]; inversion IH; subst;
        constructor; simpl; try rewrite E; auto.
Qed.

Lemma endswith_app (a b : string) (c : ascii) :
  b <> "" -> endswith (a +++ b) c = endswith b c.
Proof.
  intros Hb. induction a as [|x a IH]; [reflexivity|].
  simpl. destruct (a +++ b) eqn:E; [|exact IH].
  destruct a; simpl in E; [congruence | discriminate].
Qed.

Lemma endswith_has_char (s : string) (c : ascii) :
  endswith s c = true -> has_char c s = true.
Proof.
  induction s as [|a s IH]; simpl; [discriminate|].
  destruct s as [|b s].
  - intros ->. reflexivity.
  - intros H. rewrite (IH H). apply orb_true_r.
Qed.

Lemma startswith_refl (s : string) : startswith s s = true.
Proof.
  induction s as [|a s IH]; simpl; [reflexivity|].
  now rewrite Ascii.eqb_refl.
Qed.

Lemma startswith_append (s t : string) : startswith (s +++ t) s = true.
Proof.
  induction s as [|a s IH]; simpl; [reflexivity|].
  now rewrite Ascii.eqb_refl.
Qed.

Lemma startswith_append_mono (s t u : string) :
  startswith u t = true -> startswith (s +++ u) (s +++ t) = true.
Proof.
  intros H. induction s as [|a s IH]; simpl; [assumption|].
  now rewrite Ascii.eqb_refl.
Qed.

Lemma startswith_trans (s t u : string) :
  startswith s t = true -> startswith t u = true -> startswith s u = true.
Proof.
  revert s t. induction u as [|c u IH]; intros s t Hst Htu; [reflexivity|].
  destruct t as [|b t]; [discriminate|].
  destruct s as [|a s]; [discriminate|].
  simpl in *. apply andb_true_iff in Hst, Htu.
  destruct Hst as [E1 H1], Htu as [E2 H2].
  apply Ascii.eqb_eq in E1, E2. subst.
  rewrite Ascii.eqb_refl. simpl. eauto.
Qed.

End StrFacts.

(** ** Paths *)

Module PathFacts.
Import Str StrFacts Path.

(** A path component: not empty and without a separator. *)
Definition comp_ok (x : string) : Prop :=
  x <> "" /\ has_char sep x = false.

Lemma Forall_removelast {A} (P : A -> Prop) (l : list A) :
  Forall P l -> Forall P (removelast l).
Proof.
  induction 1 as [|x l Hx Hl IH]; simpl; [constructor|].
  destruct l; [constructor | now constructor].
Qed.

Lemma norm_step_ok (n : nat) (acc : list string) (comp : string) :
  Forall comp_ok acc -> has_char sep comp = false ->
  Forall comp_ok (norm_step n acc comp).
Proof.
  intros Hacc Hc. unfold norm_step.
  destruct (comp =? "") eqn:E; simpl; [assumption|].
  destruct (comp =? "."); simpl; [assumption|].
  apply String.eqb_neq in E.
  match goal with |- Forall _ (if ?b then _ else _) => destruct b end.
  - apply Forall_app. split; [assumption|].
    constructor; [split; assumption | constructor].
  - now apply Forall_removelast.
Qed.

Lemma fold_norm_step_ok (n : nat) (comps acc : list string) :
  Forall (fun x => has_char sep x = false) comps ->
  Forall comp_ok acc ->
  Forall comp_ok (fold_left (norm_step n) comps acc).
Proof.
  intros H. revert acc.
  induction H as [|c comps Hc Hcs IH]; intros acc Hacc; simpl.
  - assumption.
  - apply IH. now apply norm_step_ok.
Qed.

Definition relative (p : string) : Prop := startswith p "/" = false.

(** The normal form of a relative path is a join of components. *)
Lemma normpath_relative (p : string) :
  relative p ->
  exists cs, cs <> [] /\ Forall comp_ok cs /\
             normpath p = Str.join "/" cs.
Proof.
  intros Hrel. unfold normpath.
  assert (Hdot : exists cs, cs <> [] /\ Forall comp_ok cs /\
                            "." = Str.join "/" cs).
  { exists ["."]. repeat split; try discriminate.
    constructor; [|constructor]. split; [discriminate | reflexivity]. }
  destruct (p =? ""); [exact Hdot|].
  unfold relative in Hrel. rewrite Hrel. cbn [Str.repeat append].
  set (cs := fold_left (norm_step 0) (split sep p) []).
  assert (Hcs : Forall comp_ok cs).
  { apply fold_norm_step_ok; [apply split_has_no_sep | constructor]. }
  destruct (truthy (Str.join "/" cs)) eqn:T; [|exact Hdot].
  exists cs. repeat split; try assumption.
  intros ->. discriminate.
Qed.

Lemma comp_ok_not_abs (b : string) : comp_ok b -> startswith b "/" = false.
Proof.
  intros [Hne Hs]. destruct b as [|a b]; [reflexivity|].
  simpl in *. apply orb_false_iff in Hs. destruct Hs as [Ha _].
  unfold sep in Ha. now rewrite Ha.
Qed.

Lemma comp_ok_endswith (b : string) : comp_ok b -> endswith b sep = false.
Proof.
  intros [_ Hs]. destruct (endswith b sep) eqn:E; [|reflexivity].
  apply endswith_has_char in E. congruence.
Qed.

Lemma join_components_gen (a : string) (p : list string) :
  a <> "" -> endswith a sep = false -> Forall comp_ok p ->
  Path.join a p = Str.join "/" (a :: p).
Proof.
  intros Ha He Hp. revert a Ha He.
  induction Hp as [|b p Hb Hp IH]; intros a Ha He; [reflexivity|].
  unfold Path.join in *. simpl fold_left.
  assert (Hstep : join_step a b = a +++ "/" +++ b).
  { unfold join_step. rewrite (comp_ok_not_abs b Hb), He.
    destruct a; [congruence | reflexivity]. }
  rewrite Hstep, IH.
  - rewrite (join_cons "/" a (b :: p)) by discriminate.
    destruct p as [|c p]; [reflexivity|].
    rewrite !(join_cons "/" _ (c :: p)) by discriminate.
    now rewrite !append_assoc.
  - destruct a; [congruence | discriminate].
  - destruct Hb as [Hne Hs].
    rewrite endswith_app by discriminate.
    change ("/" +++ b) with (String sep b).
    destruct b as [|x b]; [congruence|].
    exact (comp_ok_endswith _ (conj Hne Hs)).
Qed.

(** [posixpath.join] of components is their join with ["/"]. *)
Lemma join_components (a : string) (p : list string) :
  Forall comp_ok (a :: p) -> Path.join a p = Str.join "/" (a :: p).
Proof.
  intros H. inversion H as [|? ? Ha Hp]; subst.
  apply join_components_gen;
    [apply Ha | now apply comp_ok_endswith | assumption].
Qed.

Lemma join_ok_relative (cs : list string) :
  Forall comp_ok cs -> relative (Str.join "/" cs).
Proof.
  intros H. destruct H as [|a cs Ha Hcs]; [reflexivity|].
  destruct cs as [|b cs]; [now apply comp_ok_not_abs|].
  rewrite join_cons by discriminate.
  pose proof (comp_ok_not_abs a Ha) as Hr. destruct Ha as [Hne _].
  destruct a as [|x a]; [congruence|]. exact Hr.
Qed.

Lemma Forall_comp_ok_no_sep (cs : list string) :
  Forall comp_ok cs -> Forall (fun x => has_char sep x = false) cs.
Proof. apply Forall_impl. now intros x [_ H]. Qed.

Lemma join_firstn_prefix (k : nat) (cs : list string) :
  startswith (Str.join "/" cs) (Str.join "/" (firstn k cs)) = true.
Proof.
  revert k. induction cs as [|a cs IH]; intros k.
  - rewrite firstn_nil. reflexivity.
  - destruct k as [|k]; [now destruct (Str.join "/" (a :: cs))|].
    cbn [firstn]. destruct cs as [|b cs].
    + rewrite firstn_nil. apply startswith_refl.
    + rewrite (join_cons "/" a (b :: cs)) by discriminate.
      destruct k as [|k].
      * cbn [firstn Str.join]. apply startswith_append.
      * rewrite (join_cons "/" a (firstn (S k) (b :: cs)))
          by (cbn [firstn]; discriminate).
        apply startswith_append_mono, startswith_append_mono, IH.
Qed.

(** *** [dirname] *)

Lemma substring_0_0 (s : string) : substring 0 0 s = "".
Proof. now destruct s. Qed.

Lemma slice_to_prefix (p : string) (i : Z) :
  startswith p (slice_to p i) = true.
Proof.
  unfold slice_to. generalize (Z.to_nat i) as n. clear i.
  induction p as [|a p IH]; intros [|n]; simpl; try reflexivity.
  now rewrite Ascii.eqb_refl, IH.
Qed.

Lemma slice_to_length (p : string) (i : Z) :
  String.length (slice_to p i) <= String.length p.
Proof.
  unfold slice_to. generalize (Z.to_nat i) as n. clear i.
  induction p as [|a p IH]; intros [|n]; simpl; try lia.
  specialize (IH n). lia.
Qed.

Lemma rstrip_prefix (s : string) (c : ascii) :
  startswith s (rstrip s c) = true.
Proof.
  induction s as [|a s IH]; [reflexivity|]. simpl.
  destruct (rstrip s c) as [|b r].
  - destruct (Ascii.eqb a c); simpl; [reflexivity|].
    now rewrite Ascii.eqb_refl.
  - simpl. simpl in IH. now rewrite Ascii.eqb_refl, IH.
Qed.

Lemma rstrip_length (s : string) (c : ascii) :
  String.length (rstrip s c) <= String.length s.
Proof.
  induction s as [|a s IH]; simpl; [lia|].
  destruct (rstrip s c); [destruct (Ascii.eqb a c)|]; simpl in *; lia.
Qed.

Lemma rstrip_shorter (s : string) (c : ascii) :
  endswith s c = true -> String.length (rstrip s c) < String.length s.
Proof.
  induction s as [|a s IH]; [discriminate|]. intros H.
  simpl in H. destruct s as [|b s].
  - simpl. rewrite H. simpl. lia.
  - specialize (IH H). remember (String b s) as t.
    simpl. destruct (rstrip t c); [destruct (Ascii.eqb a c)|];
      simpl in *; lia.
Qed.

Lemma rfind_lower (p : string) (c : ascii) : (-1 <= rfind p c)%Z.
Proof.
  induction p as [|a p IH]; simpl; [lia|].
  destruct (0 <=? rfind p c)%Z eqn:E; [lia|].
  destruct (Ascii.eqb a c); lia.
Qed.

(** The slice up to the last separator ends with it. *)
Lemma slice_to_rfind_endswith (p : string) (c : ascii) :
  (0 <= rfind p c)%Z ->
  endswith (slice_to p (rfind p c + 1)) c = true.
Proof.
  induction p as [|a p IH]; simpl; [lia|].
  destruct (0 <=? rfind p c)%Z eqn:E.
  - intros _. apply Z.leb_le in E. specialize (IH E).
    unfold slice_to in *.
    replace (Z.to_nat (rfind p c + 1 + 1))
      with (S (Z.to_nat (rfind p c + 1))) by lia.
    simpl. destruct (substring 0 (Z.to_nat (rfind p c + 1)) p);
      [discriminate | exact IH].
  - destruct (Ascii.eqb a c) eqn:A; [|lia]. intros _.
    unfold slice_to. simpl. now rewrite substring_0_0.
Qed.

Lemma dirname_prefix (p : string) : startswith p (dirname p) = true.
Proof.
  unfold dirname.
  match goal with |- context [if ?b then _ else _] => destruct b end.
  - eapply startswith_trans; [apply slice_to_prefix | apply rstrip_prefix].
  - apply slice_to_prefix.
Qed.

Lemma dirname_relative (p : string) : relative p -> relative (dirname p).
Proof.
  unfold relative. intros H.
  destruct (startswith (dirname p) "/") eqn:E; [|reflexivity].
  rewrite <- H. symmetry.
  eapply startswith_trans; [apply dirname_prefix | exact E].
Qed.

Lemma all_char_startswith (s : string) (c : ascii) :
  s <> "" -> all_char c s = true -> startswith s (String c "") = true.
Proof.
  destruct s as [|a s]; [congruence|]. simpl. intros _ H.
  apply andb_true_iff in H. destruct H as [-> _]. reflexivity.
Qed.

(** On a relative path [dirname] strictly shortens the path, until the
    empty path is reached. *)
Lemma dirname_shorter (p : string) :
  relative p -> p <> "" ->
  String.length (dirname p) < String.length p.
Proof.
  intros Hrel Hne. unfold dirname.
  destruct (Z_lt_le_dec (rfind p sep) 0) as [Hneg|Hpos].
  - pose proof (rfind_lower p sep).
    replace (rfind p sep + 1)%Z with 0%Z by lia.
    unfold slice_to. simpl Z.to_nat. rewrite substring_0_0. simpl.
    destruct p; [congruence | simpl; lia].
  - pose proof (slice_to_rfind_endswith p sep Hpos) as He.
    set (head := slice_to p (rfind p sep + 1)) in *.
    assert (Hhead : head <> "") by (intros E; rewrite E in He; discriminate).
    assert (Hall : all_char sep head = false).
    { destruct (all_char sep head) eqn:A; [|reflexivity].
      pose proof (all_char_startswith head sep Hhead A) as Hs.
      unfold relative in Hrel. rewrite <- Hrel. symmetry.
      eapply startswith_trans; [apply slice_to_prefix | exact Hs]. }
    rewrite Hall. replace (truthy head) with true by (now destruct head).
    simpl. pose proof (rstrip_shorter head sep He).
    pose proof (slice_to_length p (rfind p sep + 1)). fold head in H0. lia.
Qed.

(** [ancestor n d] is [d] after [n] applications of [dirname]. *)
Definition ancestor (n : nat) (d : string) : string :=
  Nat.iter n dirname d.

Lemma ancestor_S (n : nat) (d : string) :
  ancestor (S n) d = ancestor n (dirname d).
Proof. unfold ancestor. now rewrite Nat.iter_succ_r. Qed.

Lemma dirname_empty : dirname "" = "".
Proof. reflexivity. Qed.

(** The chain of ancestors of a relative path reaches the empty path,
    which is its own [dirname]. *)
Lemma ancestor_reaches_root (n : nat) (d : string) :
  relative d -> String.length d <= n -> ancestor n d = "".
Proof.
  revert d. induction n as [|n IH]; intros d Hrel Hlen.
  - destruct d; [reflexivity | simpl in Hlen; lia].
  - rewrite ancestor_S. destruct (string_dec d "") as [->|Hne].
    + rewrite dirname_empty. apply IH; [reflexivity | simpl; lia].
    + apply IH; [now apply dirname_relative|].
      pose proof (dirname_shorter d Hrel Hne). lia.
Qed.

End PathFacts.

(** ** The partition computed by [GetFilesSplitByOwners] *)

Module OwnersFacts.
Import Str StrFacts Path PathFacts Owners Scenario.

Lemma contains_In (m : Groups) (k : string) :
  contains m k = true <-> In k (keys m).
Proof.
  unfold contains. rewrite existsb_exists. split.
  - intros [x [Hx E]]. apply String.eqb_eq in E. now subst.
  - intros H. exists k. split; [assumption | apply String.eqb_refl].
Qed.

Lemma keys_setdefault_append (m : Groups) (k : string) (v : File) :
  keys (setdefault_append m k v) =
  if contains m k then keys m else keys m ++ [k].
Proof.
  induction m as [|[k' vs] m IH]; [reflexivity|].
  unfold contains in *. simpl.
  rewrite (String.eqb_sym k k').
  destruct (k' =? k); simpl; [reflexivity|].
  rewrite IH. now destruct (existsb (String.eqb k) (keys m)).
Qed.

Lemma members_setdefault_append (m : Groups) (k : string) (v : File) :
  Permutation (members (setdefault_append m k v)) (members m ++ [v]).
Proof.
  unfold members. induction m as [|[k' vs] m IH]; [reflexivity|].
  simpl. destruct (k' =? k); simpl.
  - rewrite <- !app_assoc. apply Permutation_app_head, Permutation_app_comm.
  - rewrite <- app_assoc. now apply Permutation_app_head.
Qed.

Lemma in_setdefault_append (m : Groups) (d : string) (v : File)
    (k : string) (vs : list File) :
  In (k, vs) (setdefault_append m d v) ->
  In (k, vs) m \/
  (k = d /\ ((exists vs0, In (k, vs0) m /\ vs = vs0 ++ [v]) \/ vs = [v])).
Proof.
  induction m as [|[k' vs'] m IH]; simpl.
  - intros [E|[]]. inversion E; subst. right. split; [reflexivity | now right].
  - destruct (k' =? d) eqn:E.
    + apply String.eqb_eq in E. subst k'. intros [H|H].
      * inversion H; subst. right. split; [reflexivity|]. left.
        exists vs'. split; [now left | reflexivity].
      * left. now right.
    + intros [H|H]; [left; now left|].
      destruct (IH H) as [H1|[-> [[vs0 [H1 ->]]| ->]]].
      * left. now right.
      * right. split; [reflexivity|]. left. exists vs0.
        split; [now right | reflexivity].
      * right. split; [reflexivity | now right].
Qed.

Section WithFilesystem.

Variable isfile : string -> bool.

(** [r] is the closest ancestor of [d], [d] included, at which the loop
    stops. *)
Definition closest_stop (m : Groups) (d r : string) : Prop :=
  exists n, r = ancestor n d /\ stops isfile m r = true /\
            forall j, j < n -> stops isfile m (ancestor j d) = false.

Lemma loop_condition (m : Groups) (d : string) :
  negb (contains m d) && negb (has_owners isfile d) =
  negb (stops isfile m d).
Proof. unfold stops. now rewrite negb_orb. Qed.

Lemma find_owners_sound (fuel : nat) (m : Groups) (d r : string) :
  find_owners isfile fuel m d = Some r -> closest_stop m d r.
Proof.
  revert d. induction fuel as [|fuel IH]; intros d; [discriminate|].
  simpl. rewrite loop_condition.
  destruct (stops isfile m d) eqn:Hst; simpl.
  - intros E. inversion E; subst. exists 0.
    repeat split; [assumption | intros j Hj; lia].
  - intros H. destruct (IH _ H) as [n [-> [Hs Hj]]].
    exists (S n). rewrite ancestor_S. repeat split; [assumption|].
    intros [|j] Hlt; [exact Hst|]. rewrite ancestor_S. apply Hj. lia.
Qed.

Lemma find_owners_complete (fuel : nat) (m : Groups) (d : string)
    (n : nat) :
  n < fuel ->
  stops isfile m (ancestor n d) = true ->
  (forall j, j < n -> stops isfile m (ancestor j d) = false) ->
  find_owners isfile fuel m d = Some (ancestor n d).
Proof.
  revert d n. induction fuel as [|fuel IH]; intros d n Hlt Hs Hj; [lia|].
  simpl. rewrite loop_condition. destruct n as [|n].
  - change (ancestor 0 d) with d in Hs. now rewrite Hs.
  - pose proof (Hj 0 ltac:(lia)) as H0.
    change (ancestor 0 d) with d in H0. rewrite H0. cbn [negb].
    rewrite ancestor_S in *.
    apply IH; [lia | assumption |].
    intros j Hjn. rewrite <- ancestor_S. apply Hj. lia.
Qed.

(** If some ancestor stops the loop, the loop ends once it has enough
    fuel. *)
Lemma find_owners_total (fuel : nat) (m : Groups) (d : string) (n : nat) :
  n < fuel -> stops isfile m (ancestor n d) = true ->
  exists r, find_owners isfile fuel m d = Some r.
Proof.
  revert d n. induction fuel as [|fuel IH]; intros d n Hlt Hs; [lia|].
  simpl. rewrite loop_condition.
  destruct (stops isfile m d) eqn:Hst; simpl; [now exists d|].
  destruct n as [|n]; [change (ancestor 0 d) with d in Hs; congruence|].
  rewrite ancestor_S in Hs. apply (IH _ n); [lia | assumption].
Qed.

(** [k] is the closest ancestor of the start directory of [path] that
    contains an OWNERS file. *)
Definition owner_of (max_depth : Z) (path k : string) : Prop :=
  exists d0 n,
    start_dir path max_depth = Val d0 /\ k = ancestor n d0 /\
    has_owners isfile k = true /\
    forall j, j < n -> has_owners isfile (ancestor j d0) = false.

Lemma owner_of_unique (max_depth : Z) (path k1 k2 : string) :
  owner_of max_depth path k1 -> owner_of max_depth path k2 -> k1 = k2.
Proof.
  intros [d1 [n1 [S1 [-> [H1 L1]]]]] [d2 [n2 [S2 [-> [H2 L2]]]]].
  rewrite S1 in S2. inversion S2; subst d2.
  destruct (Nat.lt_trichotomy n1 n2) as [Hlt|[->|Hlt]];
    [ rewrite (L2 _ Hlt) in H1; discriminate
    | reflexivity
    | rewrite (L1 _ Hlt) in H2; discriminate ].
Qed.

(** The invariant of the [for] loop. *)
Definition Inv (max_depth : Z) (m : Groups) : Prop :=
  NoDup (keys m) /\
  (forall k, In k (keys m) -> has_owners isfile k = true) /\
  (forall k vs f, In (k, vs) m -> In f vs -> owner_of max_depth (snd f) k).

Lemma Inv_empty (max_depth : Z) : Inv max_depth [].
Proof.
  repeat split; [constructor | intros k [] | intros k vs f []].
Qed.

Lemma Inv_step (fuel : nat) (max_depth : Z) (m : Groups)
    (action path d0 d : string) :
  Inv max_depth m ->
  start_dir path max_depth = Val d0 ->
  find_owners isfile fuel m d0 = Some d ->
  Inv max_depth (setdefault_append m d (action, path)).
Proof.
  intros [Hnd [Hown Hmem]] Hstart Hfind.
  destruct (find_owners_sound _ _ _ _ Hfind) as [n [Hd [Hs Hj]]].
  assert (Hd_own : has_owners isfile d = true).
  { unfold stops in Hs. apply orb_true_iff in Hs.
    destruct Hs as [Hc|Ho]; [|exact Ho].
    apply Hown. now apply contains_In. }
  assert (Howner : owner_of max_depth path d).
  { exists d0, n. repeat split; try assumption.
    intros j Hlt. specialize (Hj j Hlt). unfold stops in Hj.
    now apply orb_false_iff in Hj. }
  repeat split.
  - rewrite keys_setdefault_append.
    destruct (contains m d) eqn:C; [assumption|].
    apply NoDup_app; [assumption | repeat constructor; intros [] |].
    intros x Hx [<-|[]].
    apply contains_In in Hx. congruence.
  - intros k. rewrite keys_setdefault_append.
    destruct (contains m d); [apply Hown|].
    rewrite in_app_iff. intros [H|[<-|[]]]; [now apply Hown | assumption].
  - intros k vs f Hin Hf.
    destruct (in_setdefault_append _ _ _ _ _ Hin)
      as [H|[-> [[vs0 [H ->]]| ->]]].
    + eapply Hmem; eassumption.
    + apply in_app_iff in Hf. destruct Hf as [Hf|[<-|[]]].
      * eapply Hmem; eassumption.
      * exact Howner.
    + destruct Hf as [<-|[]]. exact Howner.
Qed.

Lemma split_loop_inv (fuel : nat) (max_depth : Z) (files : list File) :
  forall m m',
    Inv max_depth m ->
    split_loop isfile fuel files max_depth m = Val m' ->
    Inv max_depth m' /\ Permutation (members m') (members m ++ files).
Proof.
  induction files as [|[action path] files IH]; intros m m' HI; simpl.
  - intros E. inversion E; subst. now rewrite app_nil_r.
  - destruct (start_dir path max_depth) as [d0| | |] eqn:Hst;
      try discriminate.
    destruct (find_owners isfile fuel m d0) as [d|] eqn:F;
      try discriminate.
    intros H. apply IH in H; [|eapply Inv_step; eassumption].
    destruct H as [HI' HP]. split; [assumption|].
    rewrite HP, members_setdefault_append, <- app_assoc. reflexivity.
Qed.

End WithFilesystem.

(** *** The start directory *)

Lemma Forall_firstn {A} (P : A -> Prop) (n : nat) (l : list A) :
  Forall P l -> Forall P (firstn n l).
Proof.
  intros H. rewrite <- (firstn_skipn n l) in H.
  now apply Forall_app in H.
Qed.

Lemma start_dir_unlimited (path : string) (max_depth : Z) :
  (max_depth < 1)%Z ->
  start_dir path max_depth = Val (normpath (dirname path)).
Proof.
  intros H. unfold start_dir.
  destruct (max_depth >=? 1)%Z eqn:E; [lia | reflexivity].
Qed.

Lemma start_dir_limited (path : string) (max_depth : Z) :
  relative path -> (1 <= max_depth)%Z ->
  exists cs,
    cs <> [] /\ Forall comp_ok cs /\
    normpath (dirname path) = Str.join "/" cs /\
    split sep (normpath (dirname path)) = cs /\
    start_dir path max_depth =
      Val (Str.join "/" (firstn (Z.to_nat max_depth) cs)).
Proof.
  intros Hrel Hmd.
  destruct (normpath_relative (dirname path) (dirname_relative _ Hrel))
    as [cs [Hne [Hok Hd]]].
  assert (Hsplit : split sep (normpath (dirname path)) = cs).
  { rewrite Hd. apply (split_join sep cs Hne).
    now apply Forall_comp_ok_no_sep. }
  exists cs. repeat split; try assumption.
  unfold start_dir. destruct (max_depth >=? 1)%Z eqn:E; [|lia].
  rewrite Hsplit. unfold take.
  destruct (Z.to_nat max_depth) as [|k] eqn:K; [lia|].
  destruct cs as [|c cs]; [congruence|].
  cbn [firstn join_star]. f_equal. apply join_components.
  apply (Forall_firstn comp_ok (S k) (c :: cs) Hok).
Qed.

Lemma start_dir_relative (path : string) (max_depth : Z) :
  relative path ->
  exists d0, start_dir path max_depth = Val d0 /\ relative d0.
Proof.
  intros Hrel. destruct (Z_lt_le_dec max_depth 1) as [H|H].
  - exists (normpath (dirname path)).
    split; [now apply start_dir_unlimited|].
    destruct (normpath_relative (dirname path) (dirname_relative _ Hrel))
      as [cs [_ [Hok ->]]].
    now apply join_ok_relative.
  - destruct (start_dir_limited path max_depth Hrel H)
      as [cs [_ [Hok [_ [_ Hs]]]]].
    eexists. split; [exact Hs|].
    apply join_ok_relative. now apply Forall_firstn.
Qed.

(** The directory the search starts from.  With [max_depth >= 1] the
    search for the OWNERS file of a repository-relative path starts from
    the directory made of the first
    [max_depth] components of the file's normalized directory: it has at
    most [max_depth] components, it is a string prefix of that directory,
    and it is another path than the full directory exactly when the
    directory has more than [max_depth] components.  With
    [max_depth < 1] it starts from the normalized directory itself. *)
Lemma start_dir_max_depth (path : string) (max_depth : Z) :
  relative path ->
  ((max_depth < 1)%Z ->
   start_dir path max_depth = Val (normpath (dirname path))) /\
  ((1 <= max_depth)%Z ->
   exists s,
     start_dir path max_depth = Val s /\
     split sep s =
       firstn (Z.to_nat max_depth) (split sep (normpath (dirname path))) /\
     length (split sep s) <= Z.to_nat max_depth /\
     startswith (normpath (dirname path)) s = true /\
     (s <> normpath (dirname path) <->
      Z.to_nat max_depth < length (split sep (normpath (dirname path))))).
Proof.
  intros Hrel. split; [apply start_dir_unlimited|].
  intros Hmd.
  destruct (start_dir_limited path max_depth Hrel Hmd)
    as [cs [Hne [Hok [Hd [Hsplit Hs]]]]].
  set (k := Z.to_nat max_depth) in *.
  assert (Hk : split sep (Str.join "/" (firstn k cs)) = firstn k cs).
  { apply (split_join sep).
    - destruct cs; [congruence|]. subst k.
      destruct (Z.to_nat max_depth) eqn:K; [lia | discriminate].
    - apply Forall_comp_ok_no_sep. now apply Forall_firstn. }
  exists (Str.join "/" (firstn k cs)). rewrite Hsplit.
  split; [assumption|]. split; [assumption|].
  split; [rewrite Hk, length_firstn; lia|].
  split; [rewrite Hd; apply join_firstn_prefix|].
  split.
  - intros Hne'. destruct (le_lt_dec (length cs) k) as [Hle|Hlt];
      [|exact Hlt].
    exfalso. apply Hne'. rewrite Hd. now rewrite firstn_all2.
  - intros Hlt E. rewrite <- E in Hsplit. rewrite Hk in Hsplit.
    apply (f_equal (@length string)) in Hsplit.
    rewrite length_firstn in Hsplit. lia.
Qed.

(** The example of the specification: depth 5, [max_depth = 2]. *)
Example start_dir_depth_5 :
  start_dir "a/b/c/d/e/f.txt" 2 = Val "a/b" /\
  start_dir "a/b/c/d/e/f.txt" 0 = Val "a/b/c/d/e".
Proof. split; reflexivity. Qed.

(** *** The ancestor walk *)

(** C2, as the code has it. The walk from [d] ends with [r] exactly when
    [r] is the closest ancestor of [d] ([d] included, [dirname] iterated)
    that is a key of the dictionary or contains an OWNERS file.  When no
    ancestor is one, no amount of fuel ends the loop: there is no
    fallback to the root. *)
Theorem find_owners_terminates_iff (isfile : string -> bool) (m : Groups)
    (d r : string) :
  (exists fuel, find_owners isfile fuel m d = Some r) <->
  closest_stop isfile m d r.
Proof.
  split.
  - intros [fuel H]. eapply find_owners_sound; eassumption.
  - intros [n [-> [Hs Hj]]]. exists (S n).
    apply find_owners_complete; [lia | assumption | assumption].
Qed.

(** Without any OWNERS file the walk for [a/b/x.txt] visits [a/b], [a]
    and then the empty path for ever: the function does not return. *)
Lemma find_owners_no_root_fallback :
  (forall n, stops (fun _ => false) [] (ancestor n "a/b") = false) /\
  ancestor 2 "a/b" = "" /\ dirname "" = "" /\
  ~ (exists fuel r, find_owners (fun _ => false) fuel [] "a/b" = Some r) /\
  (forall fuel,
     GetFilesSplitByOwners (fun _ => false) fuel [("M", "a/b/x.txt")] 0
     = Diverges).
Proof.
  assert (H : forall fuel d, find_owners (fun _ => false) fuel [] d = None).
  { induction fuel as [|fuel IH]; intros d; [reflexivity | apply IH]. }
  repeat split; try reflexivity.
  - intros [fuel [r Hr]]. rewrite H in Hr. discriminate.
  - intros fuel. unfold GetFilesSplitByOwners. cbn [split_loop].
    change (start_dir "a/b/x.txt" 0) with (@Val string "a/b").
    cbv beta iota. now rewrite H.
Qed.

(** With an OWNERS file in the root directory the walk from a relative
    directory ends. *)
Lemma find_owners_with_root_owners (isfile : string -> bool) (m : Groups)
    (d : string) (fuel : nat) :
  isfile "OWNERS" = true -> relative d -> String.length d < fuel ->
  exists r, find_owners isfile fuel m d = Some r.
Proof.
  intros Hroot Hrel Hlen.
  apply (find_owners_total isfile fuel m d (String.length d) Hlen).
  rewrite (ancestor_reaches_root _ d Hrel (le_n _)).
  unfold stops. apply orb_true_iff. right. exact Hroot.
Qed.

(** *** The partition *)

Lemma NoDup_keys_functional (m : Groups) (k : string)
    (vs1 vs2 : list File) :
  NoDup (keys m) -> In (k, vs1) m -> In (k, vs2) m -> vs1 = vs2.
Proof.
  unfold keys. induction m as [|[k' vs] m IH]; simpl; [intros _ []|].
  intros Hnd H1 H2. inversion Hnd as [|? ? Hnotin Hnd']; subst.
  assert (Hk : forall v, In (k', v) m -> False).
  { intros v Hv. apply Hnotin. now apply (in_map fst) in Hv. }
  destruct H1 as [E1|H1], H2 as [E2|H2].
  - congruence.
  - inversion E1; subst. now apply Hk in H2.
  - inversion E2; subst. now apply Hk in H1.
  - now apply IH.
Qed.

Lemma in_members (m : Groups) (f : File) :
  In f (members m) -> exists k vs, In (k, vs) m /\ In f vs.
Proof.
  unfold members. rewrite in_concat. intros [vs [Hvs Hf]].
  apply in_map_iff in Hvs. destruct Hvs as [[k vs'] [E Hin]].
  simpl in E. subst vs'. now exists k, vs.
Qed.

(** Every member of a group was filed under the closest ancestor of its
    start directory that contains an OWNERS file. *)
Lemma GetFilesSplitByOwners_keys (isfile : string -> bool) (fuel : nat)
    (files : list File) (max_depth : Z) (m : Groups) :
  GetFilesSplitByOwners isfile fuel files max_depth = Val m ->
  forall k vs f, In (k, vs) m -> In f vs ->
                 owner_of isfile max_depth (snd f) k.
Proof.
  intros H. apply split_loop_inv in H; [|apply Inv_empty].
  destruct H as [[_ [_ Hmem]] _]. exact Hmem.
Qed.

(** C1. The dictionary returned by [GetFilesSplitByOwners] is a partition
    of the input list: its keys are distinct, the member lists put
    together are a permutation of the input (no file omitted, none
    duplicated), and a file found in two member lists is found under one
    key, in one group. *)
Theorem GetFilesSplitByOwners_partition (isfile : string -> bool)
    (fuel : nat) (files : list File) (max_depth : Z) (m : Groups) :
  GetFilesSplitByOwners isfile fuel files max_depth = Val m ->
  NoDup (keys m) /\
  Permutation (members m) files /\
  (forall f, In f files -> exists k vs, In (k, vs) m /\ In f vs) /\
  (forall k1 vs1 k2 vs2 f,
     In (k1, vs1) m -> In (k2, vs2) m -> In f vs1 -> In f vs2 ->
     k1 = k2 /\ vs1 = vs2).
Proof.
  intros H. pose proof (GetFilesSplitByOwners_keys _ _ _ _ _ H) as Hkeys.
  apply split_loop_inv in H; [|apply Inv_empty].
  destruct H as [[Hnd _] Hperm]. simpl in Hperm.
  repeat split; try assumption.
  - intros f Hf. apply in_members.
    eapply Permutation_in; [symmetry; exact Hperm | exact Hf].
  - eapply owner_of_unique; eapply Hkeys; eassumption.
  - assert (k1 = k2)
      by (eapply owner_of_unique; eapply Hkeys; eassumption).
    subst k2. eapply NoDup_keys_functional; eassumption.
Qed.

Lemma GetFilesSplitByOwners_partition_witness :
  GetFilesSplitByOwners scenario_isfile 3 scenario_files 0
    = Val scenario_groups /\
  NoDup (keys scenario_groups) /\
  Permutation (members scenario_groups) scenario_files /\
  (forall f, In f scenario_files ->
             exists k vs, In (k, vs) scenario_groups /\ In f vs) /\
  (forall k1 vs1 k2 vs2 f,
     In (k1, vs1) scenario_groups -> In (k2, vs2) scenario_groups ->
     In f vs1 -> In f vs2 -> k1 = k2 /\ vs1 = vs2).
Proof.
  split; [reflexivity|].
  apply (GetFilesSplitByOwners_partition scenario_isfile 3 scenario_files 0).
  reflexivity.
Defined.

(** *** Termination with an OWNERS file in the root *)

Definition start_length (max_depth : Z) (f : File) : nat :=
  match start_dir (snd f) max_depth with
  | Val d => String.length d
  | _ => 0
  end.

Lemma split_loop_total (isfile : string -> bool) (fuel : nat)
    (max_depth : Z) (files : list File) :
  isfile "OWNERS" = true ->
  Forall (fun f => relative (snd f)) files ->
  Forall (fun f => start_length max_depth f < fuel) files ->
  forall m, exists m', split_loop isfile fuel files max_depth m = Val m'.
Proof.
  intros Hroot Hrel. induction Hrel as [|[action path] files Hf Hfs IH];
    intros Hlen m; simpl.
  - now exists m.
  - inversion Hlen as [|? ? Hl Hls]; subst.
    destruct (start_dir_relative path max_depth Hf) as [d0 [Hd0 Hr0]].
    unfold start_length in Hl. simpl in Hl. rewrite Hd0 in *.
    destruct (find_owners_with_root_owners isfile m d0 fuel Hroot Hr0 Hl)
      as [r ->].
    now apply IH.
Qed.

(** When the root directory contains an OWNERS file and the paths are
    relative to it, [GetFilesSplitByOwners] returns. *)
Lemma GetFilesSplitByOwners_total (isfile : string -> bool)
    (files : list File) (max_depth : Z) :
  isfile "OWNERS" = true ->
  Forall (fun f => relative (snd f)) files ->
  exists fuel m, GetFilesSplitByOwners isfile fuel files max_depth = Val m.
Proof.
  intros Hroot Hrel.
  exists (S (list_max (map (start_length max_depth) files))).
  apply split_loop_total; try assumption.
  apply Forall_forall. intros f Hf.
  assert (H : start_length max_depth f
              <= list_max (map (start_length max_depth) files)).
  { pose proof (list_max_le (map (start_length max_depth) files)
                  (list_max (map (start_length max_depth) files))) as [H _].
    specialize (H (le_n _)). rewrite Forall_forall in H.
    apply H. now apply in_map. }
  lia.
Qed.

End OwnersFacts.

(** ** Descriptions *)

Module DescriptionFacts.
Import Str StrFacts Description.

Lemma startswith_split (s p : string) :
  startswith s p = true -> exists t, s = p +++ t.
Proof.
  revert s. induction p as [|b p IH]; intros s H.
  - now exists s.
  - destruct s as [|a s]; [discriminate|]. simpl in H.
    apply andb_true_iff in H. destruct H as [E H].
    apply Ascii.eqb_eq in E. subst b.
    destruct (IH _ H) as [t ->]. now exists t.
Qed.

Lemma append_length (a b : string) :
  String.length (a +++ b) = String.length a + String.length b.
Proof. induction a as [|x a IH]; simpl; [reflexivity | now rewrite IH]. Qed.

Section Replace.

(** The pattern [old] starts with the character [c0]. *)
Variables (c0 : ascii) (old' new : string).

Let old : string := String c0 old'.

Lemma replace_from_skip (w t : string) :
  replace_from (String.length w) (w +++ t) old new = replace_from 0 t old new.
Proof. induction w as [|a w IH]; simpl; [now destruct t | exact IH]. Qed.

Lemma replace_match (t : string) :
  replace (old +++ t) old new = new +++ replace t old new.
Proof.
  unfold replace, old. cbn [append replace_from].
  change (String c0 (old' +++ t)) with (String c0 old' +++ t).
  rewrite startswith_append.
  replace (String.length (String c0 old') - 1) with (String.length old')
    by (cbn [String.length]; lia).
  now rewrite replace_from_skip.
Qed.

Lemma replace_nomatch (a : ascii) (s : string) :
  startswith (String a s) old = false ->
  replace (String a s) old new = String a (replace s old new).
Proof. unfold replace. cbn [replace_from]. now intros ->. Qed.

(** A string without [c0] is copied. *)
Lemma replace_copy (x u : string) :
  has_char c0 x = false ->
  replace (x +++ u) old new = x +++ replace u old new.
Proof.
  induction x as [|a x IH]; intros H; [reflexivity|].
  simpl in H. apply orb_false_iff in H. destruct H as [Ha Hx].
  cbn [append]. rewrite replace_nomatch; [now rewrite IH|].
  unfold old. cbn [startswith]. now rewrite Ha.
Qed.

(** The replacement starts with [r0], which [old'] does not contain, and
    does not contain [c0]. *)
Variables (r0 : ascii) (new' : string).
Hypothesis new_eq : new = String r0 new'.
Hypothesis new_without_c0 : has_char c0 new = false.
Hypothesis old_without_r0 : has_char r0 old' = false.

Lemma startswith_replace (w s : string) :
  has_char r0 w = false ->
  startswith (replace s old new) w = true -> startswith s w = true.
Proof.
  revert s. induction w as [|a w IH]; intros s Hw H; [reflexivity|].
  simpl in Hw. apply orb_false_iff in Hw. destruct Hw as [Ha Hw].
  destruct s as [|c s]; [discriminate|].
  destruct (startswith (String c s) old) eqn:E.
  - destruct (startswith_split _ _ E) as [t Ht].
    rewrite Ht, replace_match, new_eq in H. cbn [append startswith] in H.
    rewrite Ascii.eqb_sym, Ha in H. discriminate.
  - rewrite (replace_nomatch _ _ E) in H. cbn [startswith] in *.
    apply andb_true_iff in H. destruct H as [-> H]. simpl. now apply IH.
Qed.

Lemma replace_idempotent_bounded (n : nat) (t : string) :
  String.length t <= n ->
  replace (replace t old new) old new = replace t old new.
Proof.
  revert t. induction n as [|n IH]; intros t Hlen.
  - destruct t; [reflexivity | simpl in Hlen; lia].
  - destruct t as [|c s]; [reflexivity|].
    destruct (startswith (String c s) old) eqn:E.
    + destruct (startswith_split _ _ E) as [t' Ht].
      rewrite Ht, replace_match, (replace_copy _ _ new_without_c0).
      rewrite IH; [reflexivity|].
      rewrite Ht, append_length in Hlen. unfold old in Hlen.
      simpl in Hlen. lia.
    + rewrite (replace_nomatch _ _ E). rewrite replace_nomatch.
      * rewrite IH; [reflexivity | simpl in Hlen; lia].
      * unfold old in *. cbn [startswith] in *.
        destruct (Ascii.eqb c c0); [|reflexivity]. simpl in *.
        destruct (startswith (replace s (String c0 old') new) old') eqn:F;
          [|reflexivity].
        apply (startswith_replace _ _ old_without_r0) in F. congruence.
Qed.

Lemma replace_idempotent (t : string) :
  replace (replace t old new) old new = replace t old new.
Proof. apply (replace_idempotent_bounded (String.length t)), le_n. Qed.

End Replace.

(** C8, as the code has it. Substituting a directory that does not
    contain the character [$] is idempotent: applied to its own output,
    [FormatDescriptionOrComment] leaves it as it is. *)
Theorem FormatDescriptionOrComment_idempotent (txt directory : string) :
  has_char "$" directory = false ->
  FormatDescriptionOrComment (FormatDescriptionOrComment txt directory)
    directory
  = FormatDescriptionOrComment txt directory.
Proof.
  intros H. unfold FormatDescriptionOrComment.
  apply (replace_idempotent "$"%char "directory" ("/" +++ directory)
           "/"%char directory); [reflexivity | exact H | reflexivity].
Qed.

Lemma FormatDescriptionOrComment_idempotent_witness :
  has_char "$" "chrome/browser" = false /\
  FormatDescriptionOrComment
    (FormatDescriptionOrComment "Refactor $directory." "chrome/browser")
    "chrome/browser"
  = FormatDescriptionOrComment "Refactor $directory." "chrome/browser".
Proof.
  split; [reflexivity|].
  apply (FormatDescriptionOrComment_idempotent
           "Refactor $directory." "chrome/browser").
  reflexivity.
Defined.

(** A directory may itself be named [$directory]: the second substitution
    then changes the text again. *)
Lemma FormatDescriptionOrComment_not_idempotent :
  FormatDescriptionOrComment "in $directory" "$directory"
    = "in /$directory" /\
  FormatDescriptionOrComment
    (FormatDescriptionOrComment "in $directory" "$directory") "$directory"
    = "in //$directory" /\
  FormatDescriptionOrComment
    (FormatDescriptionOrComment "in $directory" "$directory") "$directory"
  <> FormatDescriptionOrComment "in $directory" "$directory".
Proof. repeat split. discriminate. Qed.

(** *** The line added to the description *)

Definition count (line : string) (lines : list string) : nat :=
  count_occ string_dec lines line.

(** The lines that follow the added line. *)
Definition footer_block (footers : list string) : list string :=
  match footers with
  | [] => []
  | _ :: _ => "" :: footers
  end.

Lemma count_footer_block (footers : list string) :
  count uploaded_by_line (footer_block footers)
  = count uploaded_by_line footers.
Proof. now destruct footers. Qed.

(** A line that separates paragraphs: it is empty or made of white
    space. *)
Definition blank (line : string) : Prop :=
  line = "" \/ isspace line = true.

Lemma blank_dec (line : string) :
  blank line <-> truthy line && negb (isspace line) = false.
Proof.
  unfold blank. destruct line as [|c line]; [cbn; tauto|].
  cbn [truthy andb]. rewrite negb_false_iff. split.
  - intros [H|H]; [discriminate | exact H].
  - now right.
Qed.

Lemma app_one_neq {A} (l : list A) (x : A) : l ++ [x] <> l.
Proof.
  intros H. apply (f_equal (@length A)) in H.
  rewrite length_app in H. simpl in H. lia.
Qed.

(** C7, as the code has it. When the part of the description that is not
    footers has at least one line, the rewritten description is made of
    that part, followed by an empty line exactly when its last line is
    not blank, then the line [This CL was uploaded by git cl split.],
    then, when there are footers, an empty line and the footers: the line
    is the last one without footers, it comes before the footer block
    otherwise, and the text has one more occurrence of it than the
    input. *)
Theorem AddUploadedByGitClSplitToDescription_line
    (split_footers : string -> list string * list string)
    (description : string) :
  fst (split_footers description) <> [] ->
  exists pre,
    (blank (last (fst (split_footers description)) "") ->
     pre = fst (split_footers description)) /\
    (~ blank (last (fst (split_footers description)) "") ->
     pre = fst (split_footers description) ++ [""]) /\
    AddUploadedByGitClSplitToDescription split_footers description
    = Val (Str.join nl
             (pre ++ [uploaded_by_line]
                  ++ footer_block (snd (split_footers description)))) /\
    count uploaded_by_line
      (pre ++ [uploaded_by_line]
           ++ footer_block (snd (split_footers description)))
    = S (count uploaded_by_line
           (fst (split_footers description)
              ++ snd (split_footers description))).
Proof.
  intros Hne. unfold AddUploadedByGitClSplitToDescription.
  destruct (split_footers description) as [body footers]. simpl in *.
  destruct body as [|l body]; [congruence|]. cbn [last_item].
  set (lines := l :: body) in *.
  assert (Hcount : forall pre,
             pre = lines \/ pre = lines ++ [""] ->
             count uploaded_by_line
               (pre ++ [uploaded_by_line] ++ footer_block footers)
             = S (count uploaded_by_line (lines ++ footers))).
  { intros pre Hpre. unfold count.
    rewrite !count_occ_app.
    fold (count uploaded_by_line (footer_block footers)).
    rewrite count_footer_block. unfold count.
    destruct Hpre as [->| ->]; [|rewrite count_occ_app]; simpl;
      destruct (string_dec uploaded_by_line uploaded_by_line); try congruence;
      lia. }
  destruct (truthy (last lines "") && negb (isspace (last lines "")))
    eqn:B.
  - exists (lines ++ [""]).
    split; [intros Hb; apply blank_dec in Hb; congruence|].
    split; [reflexivity|].
    split; [|apply Hcount; now right].
    f_equal. destruct footers; [reflexivity|].
    now rewrite <- !app_assoc.
  - exists lines. split; [reflexivity|].
    split; [intros Hb; exfalso; apply Hb; now apply blank_dec|].
    split; [|apply Hcount; now left].
    f_equal. destruct footers; [reflexivity|].
    now rewrite <- !app_assoc.
Qed.

Lemma AddUploadedByGitClSplitToDescription_line_witness :
  fst (["Fix crash"], ["Bug: 123"]) <> [] /\
  exists pre,
    (blank (last ["Fix crash"] "") -> pre = ["Fix crash"]) /\
    (~ blank (last ["Fix crash"] "") -> pre = ["Fix crash"] ++ [""]) /\
    AddUploadedByGitClSplitToDescription
      (fun _ => (["Fix crash"], ["Bug: 123"]))
      ("Fix crash" +++ nl +++ nl +++ "Bug: 123")
    = Val (Str.join nl
             (pre ++ [uploaded_by_line] ++ footer_block ["Bug: 123"])) /\
    count uploaded_by_line
      (pre ++ [uploaded_by_line] ++ footer_block ["Bug: 123"])
    = S (count uploaded_by_line (["Fix crash"] ++ ["Bug: 123"])).
Proof.
  split; [discriminate|].
  apply (AddUploadedByGitClSplitToDescription_line
           (fun _ => (["Fix crash"], ["Bug: 123"]))
           ("Fix crash" +++ nl +++ nl +++ "Bug: 123")).
  discriminate.
Defined.

(** The empty line is there when it is needed and only then: after
    [Fix crash] one is added, after a line of white space none is. *)
Example AddUploadedByGitClSplitToDescription_separator :
  AddUploadedByGitClSplitToDescription
    (fun _ => (["Fix crash"], ["Bug: 123"])) ""
  = Val (Str.join nl
           ["Fix crash"; ""; uploaded_by_line; ""; "Bug: 123"]) /\
  AddUploadedByGitClSplitToDescription
    (fun _ => (["Fix crash"; "  "], ["Bug: 123"])) ""
  = Val (Str.join nl
           ["Fix crash"; "  "; uploaded_by_line; ""; "Bug: 123"]) /\
  AddUploadedByGitClSplitToDescription
    (fun _ => (["Fix crash"; ""], [])) ""
  = Val (Str.join nl ["Fix crash"; ""; uploaded_by_line]).
Proof. repeat split. Qed.

(** The text of the added line is the one of the docstring, and a
    description without any line outside the footers raises
    [IndexError]. *)
Lemma AddUploadedByGitClSplitToDescription_text :
  AddUploadedByGitClSplitToDescription (fun _ => (["Fix crash"], []))
    "Fix crash"
  = Val ("Fix crash" +++ nl +++ nl
         +++ "This CL was uploaded by git cl split.") /\
  ~ In "This CL was uploaded by split tooling"
       (split LF ("Fix crash" +++ nl +++ nl
                  +++ "This CL was uploaded by git cl split.")) /\
  AddUploadedByGitClSplitToDescription (fun _ => ([], [])) ""
  = Raise IndexError.
Proof.
  repeat split. simpl. intros [H|[H|[H|[]]]]; discriminate.
Qed.

End DescriptionFacts.

(** ** Regular expressions: the matcher against the language *)

Module ReFacts.
Import Str StrFacts Re.

Lemma append_nil_inv (a b : string) : a +++ b = "" -> a = "" /\ b = "".
Proof. destruct a; simpl; [auto | discriminate]. Qed.

Lemma nullable_matches (r : re) : nullable r = true -> matches r "".
Proof.
  induction r; simpl; intros H; try discriminate.
  - constructor.
  - apply andb_true_iff in H. destruct H as [H1 H2].
    change "" with ("" +++ ""). constructor; auto.
  - apply orb_true_iff in H. destruct H as [H|H];
      [apply MAltL | apply MAltR]; auto.
  - constructor.
Qed.

Lemma matches_nullable (r : re) (s : string) :
  matches r s -> s = "" -> nullable r = true.
Proof.
  induction 1; intros E; simpl; try reflexivity; try discriminate.
  - apply append_nil_inv in E. destruct E as [E1 E2].
    now rewrite IHmatches1, IHmatches2.
  - now rewrite IHmatches.
  - rewrite IHmatches by assumption. apply orb_true_r.
Qed.

Lemma nullable_spec (r : re) : nullable r = true <-> matches r "".
Proof.
  split; [apply nullable_matches|].
  intros H. now apply (matches_nullable r "").
Qed.

Lemma matches_seq (r1 r2 : re) (s : string) :
  matches (Seq r1 r2) s <->
  exists s1 s2, s = s1 +++ s2 /\ matches r1 s1 /\ matches r2 s2.
Proof.
  split.
  - intros H. inversion H; subst. eauto.
  - intros [s1 [s2 [-> [H1 H2]]]]. now constructor.
Qed.

Lemma matches_alt (r1 r2 : re) (s : string) :
  matches (Alt r1 r2) s <-> matches r1 s \/ matches r2 s.
Proof.
  split.
  - intros H. inversion H; subst; auto.
  - intros [H|H]; [apply MAltL | apply MAltR]; assumption.
Qed.

Lemma matches_class (f : ascii -> bool) (s : string) :
  matches (Class f) s <-> exists c, s = String c "" /\ f c = true.
Proof.
  split.
  - intros H. inversion H; subst. eauto.
  - intros [c [-> H]]. now constructor.
Qed.

(** A non-empty match of a star starts with a non-empty match of its
    body. *)
Lemma matches_star_cons (r : re) (c : ascii) (s : string) :
  matches (Star r) (String c s) ->
  exists s1 s2,
    s = s1 +++ s2 /\ matches r (String c s1) /\ matches (Star r) s2.
Proof.
  intros H. remember (Star r) as r' eqn:Er.
  remember (String c s) as x eqn:Ex. revert Er Ex.
  induction H; intros Er Ex; try discriminate.
  inversion Er; subst. destruct s1 as [|a s1].
  - simpl in Ex. now apply IHmatches2.
  - simpl in Ex. inversion Ex; subst. eauto.
Qed.

Lemma deriv_spec (r : re) : forall (c : ascii) (s : string),
  matches (deriv c r) s <-> matches r (String c s).
Proof.
  induction r as [| |f|r1 IH1 r2 IH2|r1 IH1 r2 IH2|r IH]; intros c s; simpl.
  - split; intros H; inversion H.
  - split; intros H; inversion H.
  - destruct (f c) eqn:F; split; intros H; inversion H; subst.
    + now constructor.
    + constructor.
    + congruence.
  - assert (Hcons : matches (Seq (deriv c r1) r2) s ->
                    matches (Seq r1 r2) (String c s)).
    { intros H. apply matches_seq in H.
      destruct H as [s1 [s2 [-> [H1 H2]]]]. apply IH1 in H1.
      change (String c (s1 +++ s2)) with (String c s1 +++ s2).
      now constructor. }
    assert (Hinv : matches (Seq r1 r2) (String c s) ->
                   matches (Seq (deriv c r1) r2) s \/
                   (nullable r1 = true /\ matches (deriv c r2) s)).
    { intros H. apply matches_seq in H.
      destruct H as [s1 [s2 [E [H1 H2]]]]. destruct s1 as [|a s1].
      - simpl in E. subst s2. right. split.
        + now apply nullable_spec.
        + now apply IH2.
      - simpl in E. inversion E; subst. left.
        apply matches_seq. exists s1, s2. repeat split; [|assumption].
        now apply IH1. }
    destruct (nullable r1) eqn:N.
    + rewrite matches_alt. split.
      * intros [H|H]; [now apply Hcons|].
        apply IH2 in H. change (String c s) with ("" +++ String c s).
        constructor; [now apply nullable_spec | assumption].
      * intros H. destruct (Hinv H) as [H'|[_ H']]; auto.
    + split; [apply Hcons|].
      intros H. destruct (Hinv H) as [H'|[H' _]]; [assumption | discriminate].
  - rewrite !matches_alt, IH1, IH2. reflexivity.
  - split.
    + intros H. apply matches_seq in H.
      destruct H as [s1 [s2 [-> [H1 H2]]]]. apply IH in H1.
      change (String c (s1 +++ s2)) with (String c s1 +++ s2).
      now constructor.
    + intros H. apply matches_star_cons in H.
      destruct H as [s1 [s2 [-> [H1 H2]]]].
      apply matches_seq. exists s1, s2. repeat split; [|assumption].
      now apply IH.
Qed.

(** [match_prefix] decides whether a prefix of the string matches. *)
Lemma match_prefix_spec (s : string) : forall (r : re),
  match_prefix r s = true <-> exists p t, s = p +++ t /\ matches r p.
Proof.
  induction s as [|c s IH]; intros r; simpl.
  - rewrite orb_false_r, nullable_spec. split.
    + intros H. now exists "", "".
    + intros [p [t [E H]]]. symmetry in E.
      apply append_nil_inv in E. destruct E as [-> _]. assumption.
  - rewrite orb_true_iff, nullable_spec, IH. split.
    + intros [H|[p [t [-> H]]]].
      * now exists "", (String c s).
      * exists (String c p), t. split; [reflexivity | now apply deriv_spec].
    + intros [p [t [E H]]]. destruct p as [|a p].
      * now left.
      * simpl in E. inversion E; subst. right. exists p, t.
        split; [reflexivity | now apply deriv_spec].
Qed.

(** [search_lines] tries the pattern at the start of the string, when it
    begins a line, and after every line feed. *)
Lemma search_lines_spec (r : re) (s : string) : forall (b : bool),
  search_lines b r s = true <->
  (b = true /\ match_prefix r s = true) \/
  (exists pre suf, s = pre +++ nl +++ suf /\ match_prefix r suf = true).
Proof.
  induction s as [|c s IH]; intros b.
  - cbn [search_lines]. rewrite orb_false_r, andb_true_iff. split.
    + intros H. now left.
    + intros [H|[pre [suf [E _]]]]; [assumption|].
      destruct pre; discriminate.
  - cbn [search_lines]. rewrite orb_true_iff, andb_true_iff, IH. split.
    + intros [H|[[E H]|[pre [suf [-> H]]]]].
      * now left.
      * apply Ascii.eqb_eq in E. subst c. right. now exists "", s.
      * right. now exists (String c pre), suf.
    + intros [H|[pre [suf [E H]]]]; [now left|]. right.
      destruct pre as [|a pre]; simpl in E; inversion E; subst.
      * left. split; [apply Ascii.eqb_refl | assumption].
      * right. now exists pre, suf.
Qed.

Lemma matches_lit (w s : string) : matches (Lit w) s <-> s = w.
Proof.
  revert s. induction w as [|a w IH]; intros s; simpl.
  - split; [intros H; now inversion H | intros ->; constructor].
  - rewrite matches_seq. split.
    + intros [s1 [s2 [-> [H1 H2]]]]. apply matches_class in H1.
      destruct H1 as [c [-> E]]. apply Ascii.eqb_eq in E. subst c.
      apply IH in H2. now subst.
    + intros ->. exists (String a ""), w. repeat split.
      * constructor. apply Ascii.eqb_refl.
      * now apply IH.
Qed.

Lemma matches_star_class (f : ascii -> bool) (s : string) :
  matches (Star (Class f)) s <-> all f s = true.
Proof.
  split.
  - induction s as [|c s IH]; intros H; [reflexivity|].
    apply matches_star_cons in H. destruct H as [s1 [s2 [-> [H1 H2]]]].
    apply matches_class in H1. destruct H1 as [c' [E F]].
    inversion E; subst. simpl. rewrite F. now apply IH.
  - induction s as [|c s IH]; intros H; [constructor|].
    simpl in H. apply andb_true_iff in H. destruct H as [F H].
    change (String c s) with (String c "" +++ s).
    constructor; [now constructor | now apply IH].
Qed.

Lemma matches_plus_class (f : ascii -> bool) (s : string) :
  matches (Plus (Class f)) s <-> s <> "" /\ all f s = true.
Proof.
  unfold Plus. rewrite matches_seq. split.
  - intros [s1 [s2 [-> [H1 H2]]]]. apply matches_class in H1.
    destruct H1 as [c [-> F]]. apply matches_star_class in H2.
    split; [discriminate | simpl; now rewrite F].
  - intros [Hne H]. destruct s as [|c s]; [congruence|].
    simpl in H. apply andb_true_iff in H. destruct H as [F H].
    exists (String c ""), s. repeat split.
    + now constructor.
    + now apply matches_star_class.
Qed.

End ReFacts.

(** ** The workflow *)

Module WorkflowFacts.
Import Str StrFacts Owners Description Workflow Scenario.

(** [extend evs w] is [w] after the events [evs], the most recent first. *)
Definition extend (evs : list Event) (w : World) : World :=
  mkWorld (branches w) (current w) (evs ++ trace w).

Lemma extend_nil (w : World) : extend [] w = w.
Proof. now destruct w. Qed.

Lemma mem_In (x : string) (l : list string) : mem x l = true <-> In x l.
Proof.
  unfold mem. rewrite existsb_exists. split.
  - intros [y [Hy E]]. apply String.eqb_eq in E. now subst.
  - intros H. exists x. split; [assumption | apply String.eqb_refl].
Qed.

Lemma bind_val {A B} (m : M A) (k : A -> M B) (w w' : World) (a : A) :
  m w = (Val a, w') -> bind m k w = k a w'.
Proof. unfold bind. now intros ->. Qed.

(** *** What a computation may do: events and branches *)

(** Every event of [m] satisfies [P], and [m] deletes no branch. *)
Definition steps {A} (P : Event -> Prop) (m : M A) : Prop :=
  forall w o w',
    m w = (o, w') ->
    incl (branches w) (branches w') /\
    exists evs, trace w' = evs ++ trace w /\ Forall P evs.

Lemma steps_here (P : Event -> Prop) (w : World) :
  incl (branches w) (branches w) /\
  exists evs, trace w = evs ++ trace w /\ Forall P evs.
Proof. split; [apply incl_refl | now exists []]. Qed.

Lemma steps_lift {A} (P : Event -> Prop) (o : Outcome A) : steps P (lift o).
Proof. intros w o' w' H. inversion H; subst. now apply steps_here. Qed.

Lemma steps_ret {A} (P : Event -> Prop) (a : A) : steps P (ret a).
Proof. intros w o' w' H. inversion H; subst. now apply steps_here. Qed.

Lemma steps_get {A} (P : Event -> Prop) (f : World -> A) : steps P (get f).
Proof. intros w o' w' H. inversion H; subst. now apply steps_here. Qed.

Lemma steps_log (P : Event -> Prop) (e : Event) (w : World) :
  P e ->
  incl (branches w) (branches (log e w)) /\
  exists evs, trace (log e w) = evs ++ trace w /\ Forall P evs.
Proof.
  intros He. split; [apply incl_refl|].
  exists [e]. split; [reflexivity | now repeat constructor].
Qed.

Lemma steps_emit (P : Event -> Prop) (e : Event) : P e -> steps P (emit e).
Proof. intros He w o w' H. inversion H; subst. now apply steps_log. Qed.

Lemma steps_bind {A B} (P : Event -> Prop) (m : M A) (k : A -> M B) :
  steps P m -> (forall a, steps P (k a)) -> steps P (bind m k).
Proof.
  intros Hm Hk w o w' H. unfold bind in H.
  destruct (m w) as [[a|z|e|] w1] eqn:E;
    destruct (Hm _ _ _ E) as [Hi [evs [Ht Hf]]];
    try (inversion H; subst; split; [assumption | now exists evs]).
  destruct (Hk a _ _ _ H) as [Hi2 [evs2 [Ht2 Hf2]]]. split.
  - eapply incl_tran; eassumption.
  - exists (evs2 ++ evs). rewrite Ht2, Ht, app_assoc.
    split; [reflexivity | now apply Forall_app].
Qed.

Lemma steps_weaken {A} (P Q : Event -> Prop) (m : M A) :
  (forall e, P e -> Q e) -> steps P m -> steps Q m.
Proof.
  intros HPQ Hm w o w' H. destruct (Hm _ _ _ H) as [Hi [evs [Ht Hf]]].
  split; [assumption|]. exists evs. split; [assumption|].
  eapply Forall_impl; eassumption.
Qed.

Lemma steps_when (P : Event -> Prop) (b : bool) (m : M unit) :
  steps P m -> steps P (when b m).
Proof. destruct b; [auto | intros _; apply steps_ret]. Qed.

Lemma steps_try_except {A} (P : Event -> Prop) (body : M A)
    (handler : string -> M A) :
  steps P body -> (forall s, steps P (handler s)) ->
  steps P (try_except body handler).
Proof.
  intros Hb Hh w o w' H. unfold try_except in H.
  destruct (body w) as [[a|z|e|] w1] eqn:E;
    destruct (Hb _ _ _ E) as [Hi [evs [Ht Hf]]];
    try (inversion H; subst; split; [assumption | now exists evs]).
  destruct e as [stderr| | |];
    try (inversion H; subst; split; [assumption | now exists evs]).
  destruct (Hh stderr _ _ _ H) as [Hi2 [evs2 [Ht2 Hf2]]]. split.
  - eapply incl_tran; eassumption.
  - exists (evs2 ++ evs). rewrite Ht2, Ht, app_assoc.
    split; [reflexivity | now apply Forall_app].
Qed.

Lemma steps_function_body (P : Event -> Prop) (body : M Z) :
  steps P body -> steps P (function_body body).
Proof.
  intros Hb w o w' H. unfold function_body in H.
  destruct (body w) as [[a|z|e|] w1] eqn:E;
    destruct (Hb _ _ _ E) as [Hi [evs [Ht Hf]]];
    inversion H; subst; split; try assumption; now exists evs.
Qed.

Section WithEnv.

Variable env : Env.

Lemma git_effect_branches (c : GitCmd) (w : World) :
  incl (branches w) (branches (git_effect c w)).
Proof. destruct c; simpl; try apply incl_refl. apply incl_appl, incl_refl. Qed.

Lemma git_effect_trace (c : GitCmd) (w : World) :
  trace (git_effect c w) = trace w.
Proof. now destruct c. Qed.

Lemma steps_git_run (P : Event -> Prop) (c : GitCmd) :
  P (EGit c) -> steps P (git_run env c).
Proof.
  intros He w o w' H. unfold git_run in H.
  destruct (git_ok env c w); inversion H; subst; [|now apply steps_log].
  split.
  - apply (git_effect_branches c (log (EGit c) w)).
  - rewrite git_effect_trace. exists [EGit c].
    split; [reflexivity | now repeat constructor].
Qed.

Lemma steps_cmd_upload (P : Event -> Prop) (args : list string) :
  P (EUpload args) -> steps P (cmd_upload env args).
Proof. intros He w o w' H. inversion H; subst. now apply steps_log. Qed.

Lemma steps_AskForData (P : Event -> Prop) (prompt : string) :
  P (EAsk prompt) -> steps P (AskForData env prompt).
Proof. intros He w o w' H. inversion H; subst. now apply steps_log. Qed.

Lemma steps_temporary_file {A} (P : Event -> Prop) (body : string -> M A) :
  P (ETempFile (tmp_file env)) -> P (ERemoveFile (tmp_file env)) ->
  (forall name, steps P (body name)) ->
  steps P (temporary_file env body).
Proof.
  intros H1 H2 Hb w o w' H. unfold temporary_file in H.
  destruct (body (tmp_file env) (log (ETempFile (tmp_file env)) w))
    as [o1 w1] eqn:E.
  inversion H; subst.
  destruct (Hb _ _ _ _ E) as [Hi [evs [Ht Hf]]]. split; [exact Hi|].
  exists (ERemoveFile (tmp_file env) :: evs ++ [ETempFile (tmp_file env)]).
  split.
  - simpl. rewrite Ht. simpl. now rewrite <- app_assoc.
  - constructor; [assumption|]. apply Forall_app. split; [assumption|].
    now repeat constructor.
Qed.

(** No event of the upload of a group is a question to the user. *)
Definition quiet (e : Event) : Prop :=
  match e with EAsk _ => False | _ => True end.

Ltac steps_auto :=
  repeat first
    [ apply steps_ret | apply steps_lift | apply steps_get
    | apply steps_emit | apply steps_git_run | apply steps_cmd_upload
    | apply steps_when
    | apply steps_temporary_file; [| |intros ?]
    | apply steps_bind; [|intros ?]
    | match goal with
      | |- steps _ (if ?b then _ else _) => destruct b
      | |- steps _ (match ?x with _ => _ end) => destruct x
      end
    | exact I ].

Lemma steps_CreateBranchForDirectory (prefix directory upstream : string) :
  steps quiet (CreateBranchForDirectory env prefix directory upstream).
Proof. unfold CreateBranchForDirectory, git_branches. steps_auto. Qed.

Lemma steps_checkout_changes (refactor_branch : string) (files : list File)
    (repository_root : string) :
  steps quiet (checkout_changes env refactor_branch files repository_root).
Proof. unfold checkout_changes. steps_auto. Qed.

Lemma steps_commit_changes (description directory : string) :
  steps quiet (commit_changes env description directory).
Proof. unfold commit_changes, FileWrite. steps_auto. Qed.

Lemma steps_upload_and_comment (directory : string)
    (comment : option string) (reviewers : list string)
    (cq_dry_run enable_auto_submit : bool) (topic : option string) :
  steps quiet (upload_and_comment env directory comment reviewers
                 cq_dry_run enable_auto_submit topic).
Proof.
  unfold upload_and_comment, print, AddComment, git_current_branch, raise.
  steps_auto.
Qed.

Lemma steps_UploadCl (refactor_branch refactor_branch_upstream
    directory : string) (files : list File) (description : string)
    (comment : option string) (reviewers : list string)
    (cq_dry_run enable_auto_submit : bool) (topic : option string)
    (repository_root : string) :
  steps quiet (UploadCl env refactor_branch refactor_branch_upstream
                 directory files description comment reviewers cq_dry_run
                 enable_auto_submit topic repository_root).
Proof.
  unfold UploadCl. apply steps_bind; [apply steps_CreateBranchForDirectory|].
  intros created. destruct (negb created); [apply steps_emit; exact I|].
  apply steps_bind; [apply steps_checkout_changes | intros _].
  apply steps_bind; [apply steps_commit_changes | intros _].
  apply steps_upload_and_comment.
Qed.

Lemma steps_PrintClInfo (cl_index num_cls : nat) (directory : string)
    (file_paths : list string) (description : string)
    (reviewers : list string) (enable_auto_submit : bool)
    (topic : option string) :
  steps quiet (PrintClInfo cl_index num_cls directory file_paths description
                 reviewers enable_auto_submit topic).
Proof. unfold PrintClInfo, print. steps_auto. Qed.

Lemma steps_upload_loop (a : Args) (st : Setup) (num_cls : nat)
    (description : string) (comment : option string) (groups : Groups) :
  forall cl_index,
    steps quiet (upload_loop env a st num_cls description comment cl_index
                   groups).
Proof.
  induction groups as [|[directory files] groups IH]; intros cl_index; simpl.
  - apply steps_ret.
  - apply steps_bind; [|intros _; apply IH].
    destruct (dry_run a); [apply steps_PrintClInfo | apply steps_UploadCl].
Qed.

Lemma steps_upload_groups (a : Args) (st : Setup) (description : string)
    (comment : option string) :
  steps quiet (upload_groups env a st description comment).
Proof.
  unfold upload_groups. apply steps_bind; [apply steps_upload_loop|].
  intros _. steps_auto.
Qed.

(** *** Creating the branch of a group *)

Lemma CreateBranchForDirectory_existing (prefix directory upstream : string)
    (w : World) :
  mem (branch_name prefix directory) (branches w) = true ->
  CreateBranchForDirectory env prefix directory upstream w = (Val false, w).
Proof.
  unfold CreateBranchForDirectory, bind, git_branches, get, branch_name.
  now intros ->.
Qed.

Lemma CreateBranchForDirectory_new (prefix directory upstream : string)
    (w : World) :
  mem (branch_name prefix directory) (branches w) = false ->
  git_ok env (CheckoutNewBranch upstream (branch_name prefix directory)) w
    = true ->
  CreateBranchForDirectory env prefix directory upstream w
  = (Val true,
     mkWorld (branches w ++ [branch_name prefix directory])
       (Some (branch_name prefix directory))
       (EGit (CheckoutNewBranch upstream (branch_name prefix directory))
          :: trace w)).
Proof.
  unfold CreateBranchForDirectory, bind, git_branches, get, branch_name,
    git_run.
  now intros -> ->.
Qed.

Lemma UploadCl_existing (refactor_branch refactor_branch_upstream
    directory : string) (files : list File) (description : string)
    (comment : option string) (reviewers : list string)
    (cq_dry_run enable_auto_submit : bool) (topic : option string)
    (repository_root : string) (w : World) :
  mem (branch_name refactor_branch directory) (branches w) = true ->
  UploadCl env refactor_branch refactor_branch_upstream directory files
    description comment reviewers cq_dry_run enable_auto_submit topic
    repository_root w
  = (Val tt,
     log (EPrint ("Skipping " +++ directory
                  +++ " for which a branch already exists.")) w).
Proof.
  intros H. unfold UploadCl.
  rewrite (bind_val _ _ _ _ _
             (CreateBranchForDirectory_existing _ _ _ _ H)).
  reflexivity.
Qed.

(** A run of [UploadCl] that creates the branch leaves it in place,
    whatever happens afterwards. *)
Lemma UploadCl_leaves_branch (refactor_branch refactor_branch_upstream
    directory : string) (files : list File) (description : string)
    (comment : option string) (reviewers : list string)
    (cq_dry_run enable_auto_submit : bool) (topic : option string)
    (repository_root : string) (w w' : World) (o : Outcome unit) :
  git_ok env
    (CheckoutNewBranch refactor_branch_upstream
       (branch_name refactor_branch directory)) w = true ->
  UploadCl env refactor_branch refactor_branch_upstream directory files
    description comment reviewers cq_dry_run enable_auto_submit topic
    repository_root w = (o, w') ->
  In (branch_name refactor_branch directory) (branches w').
Proof.
  intros Hgit Hrun.
  destruct (mem (branch_name refactor_branch directory) (branches w)) eqn:E.
  - rewrite (UploadCl_existing _ _ _ _ _ _ _ _ _ _ _ _ E) in Hrun.
    inversion Hrun; subst. simpl. now apply mem_In.
  - unfold UploadCl in Hrun.
    rewrite (bind_val _ _ _ _ _
               (CreateBranchForDirectory_new _ _ _ _ E Hgit)) in Hrun.
    cbn [negb] in Hrun.
    assert (Hs : steps quiet
                   (checkout_changes env refactor_branch files
                      repository_root ;;
                    commit_changes env description directory ;;
                    upload_and_comment env directory comment reviewers
                      cq_dry_run enable_auto_submit topic)).
    { apply steps_bind; [apply steps_checkout_changes | intros _].
      apply steps_bind; [apply steps_commit_changes | intros _].
      apply steps_upload_and_comment. }
    destruct (Hs _ _ _ Hrun) as [Hincl _]. apply Hincl. simpl.
    apply in_app_iff. right. now left.
Qed.

(** *** Materializing the changes of a group *)

Definition is_deleted (f : File) : bool := fst f =? "D".

(** The path [UploadCl] passes to git for a member of the group. *)
Definition member_path (repository_root : string) (f : File) : string :=
  abspath env (Path.join repository_root [snd f]).

Lemma sort_by_action_spec (repository_root : string) (files : list File) :
  sort_by_action env repository_root files
  = (map (member_path repository_root) (filter is_deleted files),
     map (member_path repository_root)
       (filter (fun f => negb (is_deleted f)) files)).
Proof.
  unfold sort_by_action.
  assert (H : forall acc_d acc_m,
             fold_left
               (fun (acc : list string * list string) (file : File) =>
                  let (deleted_files, modified_files) := acc in
                  let (action, f) := file in
                  let abspath :=
                    abspath env (Path.join repository_root [f]) in
                  if action =? "D"
                  then (deleted_files ++ [abspath], modified_files)
                  else (deleted_files, modified_files ++ [abspath]))
               files (acc_d, acc_m)
             = (acc_d ++ map (member_path repository_root)
                           (filter is_deleted files),
                acc_m ++ map (member_path repository_root)
                           (filter (fun f => negb (is_deleted f)) files))).
  { induction files as [|[action f] files IH]; intros acc_d acc_m.
    - simpl. now rewrite !app_nil_r.
    - cbn [fold_left filter]. unfold is_deleted. cbn [fst].
      destruct (action =? "D"); rewrite IH; cbn [negb map];
        now rewrite <- app_assoc. }
  apply (H [] []).
Qed.

(** C10. With git commands that succeed, the files passed to [git rm] are
    the members of the group whose action is exactly [D], those passed to
    [git checkout refactor_branch --] are all the other members, whatever
    their action, and no other file is touched. *)
Theorem checkout_changes_by_action (refactor_branch : string)
    (files : list File) (repository_root : string) (w : World) :
  (forall c w0, git_ok env c w0 = true) ->
  checkout_changes env refactor_branch files repository_root w
  = (Val tt,
     extend
       ((if nonempty (filter (fun f => negb (is_deleted f)) files)
         then [EGit (CheckoutPaths refactor_branch
                       (map (member_path repository_root)
                          (filter (fun f => negb (is_deleted f)) files)))]
         else [])
        ++ (if nonempty (filter is_deleted files)
            then [EGit (Rm (map (member_path repository_root)
                              (filter is_deleted files)))]
            else [])) w) /\
  (forall action f,
     In (action, f) files ->
     (In (action, f) (filter is_deleted files) <-> action = "D") /\
     (In (action, f) (filter (fun f => negb (is_deleted f)) files)
      <-> action <> "D")).
Proof.
  intros Hgit. split.
  - unfold checkout_changes. rewrite sort_by_action_spec.
    set (deleted := filter is_deleted files).
    set (modified := filter (fun f => negb (is_deleted f)) files).
    destruct w as [bs cur tr]. unfold when, bind, git_run, ret, extend.
    destruct deleted as [|d ds], modified as [|m ms]; cbn [map nonempty];
      rewrite ?Hgit; reflexivity.
  - intros action f Hin. rewrite !filter_In. unfold is_deleted. cbn [fst].
    split; split.
    + intros [_ E]. now apply String.eqb_eq in E.
    + intros ->. now split.
    + intros [_ E] ->. discriminate.
    + intros Hne. split; [assumption|].
      apply negb_true_iff. now apply String.eqb_neq.
Qed.

End WithEnv.

(** *** Resuming: the branch of a group is created at most once *)

(** The branch of the group [directory] of [refactor_branch] has been
    started in [w]: it is among the branches, or [w] was left by a call of
    [UploadCl] for that group whose [git checkout -b] succeeded, or [w] was
    reached from such a world by a computation that deletes no branch. *)
Inductive branch_started (refactor_branch directory : string)
  : World -> Prop :=
| started_exists w :
    In (branch_name refactor_branch directory) (branches w) ->
    branch_started refactor_branch directory w
| started_by_UploadCl env upstream files description comment reviewers
    cq_dry_run enable_auto_submit topic repository_root w0 o w :
    git_ok env
      (CheckoutNewBranch upstream (branch_name refactor_branch directory))
      w0 = true ->
    UploadCl env refactor_branch upstream directory files description
      comment reviewers cq_dry_run enable_auto_submit topic repository_root
      w0 = (o, w) ->
    branch_started refactor_branch directory w
| started_before (A : Type) (m : M A) w0 o w :
    steps (fun _ => True) m ->
    m w0 = (o, w) ->
    branch_started refactor_branch directory w0 ->
    branch_started refactor_branch directory w.

Lemma branch_started_In (refactor_branch directory : string) (w : World) :
  branch_started refactor_branch directory w ->
  In (branch_name refactor_branch directory) (branches w).
Proof.
  induction 1 as [w H|env up fs d c r cq au t root w0 o w Hgit Hrun
                  |A m w0 o w Hm Hrun Hst IH].
  - exact H.
  - eapply UploadCl_leaves_branch; eassumption.
  - destruct (Hm _ _ _ Hrun) as [Hincl _]. now apply Hincl.
Qed.

(** C3. When the branch [refactor_branch_directory_split] exists, or has
    been created by an earlier call for the same prefix and directory,
    [UploadCl] reports the group as skipped and returns: the world is left
    as it was but for the message, with no git command, no file written,
    no upload and no comment. *)
Theorem UploadCl_skips_started_branch (env : Env)
    (refactor_branch refactor_branch_upstream directory : string)
    (files : list File) (description : string) (comment : option string)
    (reviewers : list string) (cq_dry_run enable_auto_submit : bool)
    (topic : option string) (repository_root : string) (w : World) :
  branch_started refactor_branch directory w ->
  UploadCl env refactor_branch refactor_branch_upstream directory files
    description comment reviewers cq_dry_run enable_auto_submit topic
    repository_root w
  = (Val tt,
     mkWorld (branches w) (current w)
       (EPrint ("Skipping " +++ directory
                +++ " for which a branch already exists.") :: trace w)).
Proof.
  intros H. apply branch_started_In, mem_In in H.
  now rewrite (UploadCl_existing env _ _ _ _ _ _ _ _ _ _ _ _ H).
Qed.

(** The world after a first upload of the group [a/b], which fails with
    status 1. *)
Definition after_first_upload : World :=
  snd (UploadCl (scenario_env 1 "y") "feature" "origin/main" "a/b"
         [("M", "a/b/x.txt"); ("D", "a/b/z.txt")] "Fix crash" None
         ["owner@example.org"] false false None "/repo" scenario_world).

Lemma UploadCl_skips_started_branch_witness :
  branch_started "feature" "a/b" after_first_upload /\
  UploadCl (scenario_env 0 "y") "feature" "origin/main" "a/b"
    [("M", "a/b/x.txt"); ("D", "a/b/z.txt")] "Fix crash" None
    ["owner@example.org"] false false None "/repo" after_first_upload
  = (Val tt,
     mkWorld (branches after_first_upload) (current after_first_upload)
       (EPrint ("Skipping " +++ "a/b"
                +++ " for which a branch already exists.")
          :: trace after_first_upload)).
Proof.
  assert (H : branch_started "feature" "a/b" after_first_upload).
  { apply (started_by_UploadCl "feature" "a/b" (scenario_env 1 "y")
             "origin/main" [("M", "a/b/x.txt"); ("D", "a/b/z.txt")]
             "Fix crash" None ["owner@example.org"] false false None "/repo"
             scenario_world (Val tt) after_first_upload);
      reflexivity. }
  split; [exact H|].
  apply (UploadCl_skips_started_branch (scenario_env 0 "y") "feature"
           "origin/main" "a/b" [("M", "a/b/x.txt"); ("D", "a/b/z.txt")]
           "Fix crash" None ["owner@example.org"] false false None "/repo"
           after_first_upload H).
Defined.

(** The first upload of the scenario: the branch is created, [z.txt] is
    removed, [x.txt] is checked out, the failure of the upload is
    reported. *)
Example first_upload_trace :
  branches after_first_upload = ["main"; "feature"; "feature_a/b_split"] /\
  rev (trace after_first_upload)
  = [EGit (CheckoutNewBranch "origin/main" "feature_a/b_split");
     EGit (Rm ["/repo/a/b/z.txt"]);
     EGit (CheckoutPaths "feature" ["/repo/a/b/x.txt"]);
     ETempFile "/tmp/description";
     EFileWrite "/tmp/description" "Fix crash";
     EGit (Commit "/tmp/description");
     ERemoveFile "/tmp/description";
     EPrint "Uploading CL for a/b...";
     EUpload ["-f"; "-r"; "owner@example.org"; "--send-mail"];
     EPrint "Uploading failed for a/b.";
     EPrint "Note: git cl split has built-in resume capabilities.";
     EPrint
       "Delete feature_a/b_split then run git cl split again to resume uploading."].
Proof. split; reflexivity. Qed.

Lemma checkout_changes_by_action_witness :
  (forall c w0, git_ok (scenario_env 0 "y") c w0 = true) /\
  checkout_changes (scenario_env 0 "y") "feature"
    [("M", "a/x"); ("D", "a/y"); ("R", "a/z"); ("d", "a/u")] "/repo"
    scenario_world
  = (Val tt,
     extend
       [EGit (CheckoutPaths "feature" ["/repo/a/x"; "/repo/a/z"; "/repo/a/u"]);
        EGit (Rm ["/repo/a/y"])] scenario_world) /\
  (forall action f,
     In (action, f) [("M", "a/x"); ("D", "a/y"); ("R", "a/z"); ("d", "a/u")] ->
     (In (action, f)
         (filter is_deleted
            [("M", "a/x"); ("D", "a/y"); ("R", "a/z"); ("d", "a/u")])
      <-> action = "D") /\
     (In (action, f)
         (filter (fun f => negb (is_deleted f))
            [("M", "a/x"); ("D", "a/y"); ("R", "a/z"); ("d", "a/u")])
      <-> action <> "D")).
Proof.
  split; [intros c w0; reflexivity|].
  apply (checkout_changes_by_action (scenario_env 0 "y") "feature"
           [("M", "a/x"); ("D", "a/y"); ("R", "a/z"); ("d", "a/u")] "/repo"
           scenario_world).
  intros c w0. reflexivity.
Defined.

(** *** The bug link *)

(** The description has a line that starts with [Bug:], followed by
    optional whitespace, an optional alphabetic prefix ending in [:], and
    one or more digits. *)
Definition bug_line (description : string) : Prop :=
  exists before ws pfx ds after,
    description = before +++ "Bug:" +++ ws +++ pfx +++ ds +++ after /\
    (before = "" \/ exists b, before = b +++ nl) /\
    all is_space ws = true /\
    (pfx = "" \/
     exists al, al <> "" /\ all is_alpha al = true /\ pfx = al +++ ":") /\
    ds <> "" /\ all is_digit ds = true.

Lemma matches_bug_pattern (p : string) :
  Re.matches bug_pattern p <->
  exists ws pfx ds,
    p = "Bug:" +++ ws +++ pfx +++ ds /\
    all is_space ws = true /\
    (pfx = "" \/
     exists al, al <> "" /\ all is_alpha al = true /\ pfx = al +++ ":") /\
    ds <> "" /\ all is_digit ds = true.
Proof.
  unfold bug_pattern. split.
  - intros H. apply ReFacts.matches_seq in H.
    destruct H as [s1 [s2 [-> [H1 H2]]]].
    apply ReFacts.matches_lit in H1. subst s1.
    apply ReFacts.matches_seq in H2. destruct H2 as [ws [s3 [-> [Hws H3]]]].
    apply ReFacts.matches_star_class in Hws.
    apply ReFacts.matches_seq in H3. destruct H3 as [pfx [ds [-> [Hp Hd]]]].
    apply ReFacts.matches_plus_class in Hd. destruct Hd as [Hd1 Hd2].
    exists ws, pfx, ds. repeat split; try assumption.
    unfold Re.Opt in Hp. apply ReFacts.matches_alt in Hp.
    destruct Hp as [Hp|Hp].
    + right. apply ReFacts.matches_seq in Hp.
      destruct Hp as [al [c [-> [Ha Hc]]]].
      apply ReFacts.matches_plus_class in Ha. destruct Ha as [Ha1 Ha2].
      apply ReFacts.matches_lit in Hc. subst c. now exists al.
    + left. now inversion Hp.
  - intros [ws [pfx [ds [-> [Hws [Hp [Hd1 Hd2]]]]]]].
    apply Re.MSeq; [now apply ReFacts.matches_lit|].
    apply Re.MSeq; [now apply ReFacts.matches_star_class|].
    apply Re.MSeq; [|now apply ReFacts.matches_plus_class].
    unfold Re.Opt. destruct Hp as [->|[al [Ha1 [Ha2 ->]]]].
    + apply Re.MAltR. constructor.
    + apply Re.MAltL. apply Re.MSeq.
      * now apply ReFacts.matches_plus_class.
      * now apply ReFacts.matches_lit.
Qed.

(** The check of [SplitCl] finds a bug link exactly in the descriptions
    that have such a line. *)
Lemma has_bug_link_iff (description : string) :
  has_bug_link description = true <-> bug_line description.
Proof.
  unfold has_bug_link, Re.findall_multiline_nonempty.
  rewrite ReFacts.search_lines_spec. split.
  - intros [[_ H]|[pre [suf [-> H]]]];
      apply ReFacts.match_prefix_spec in H;
      destruct H as [p [t [-> H]]];
      apply matches_bug_pattern in H;
      destruct H as [ws [pfx [ds [-> [Hws [Hp [Hd1 Hd2]]]]]]].
    + exists "", ws, pfx, ds, t. repeat split; try assumption; [|now left].
      now rewrite !append_assoc.
    + exists (pre +++ nl), ws, pfx, ds, t.
      repeat split; try assumption; [|right; now exists pre].
      now rewrite !append_assoc.
  - intros [before [ws [pfx [ds [after [-> [Hb [Hws [Hp [Hd1 Hd2]]]]]]]]]].
    assert (Hm : Re.match_prefix bug_pattern
                   ("Bug:" +++ ws +++ pfx +++ ds +++ after) = true).
    { apply ReFacts.match_prefix_spec.
      exists ("Bug:" +++ ws +++ pfx +++ ds), after. split.
      - now rewrite !append_assoc.
      - apply matches_bug_pattern. now exists ws, pfx, ds. }
    destruct Hb as [->|[b ->]].
    + left. now split.
    + right. exists b, ("Bug:" +++ ws +++ pfx +++ ds +++ after).
      split; [now rewrite !append_assoc | exact Hm].
Qed.

(** *** [SplitCl] after its setup *)

(** What [SplitCl] makes of the outcome of the body of its [try]
    statement. *)
Definition finish (r : Outcome unit * World) : Outcome Z * World :=
  match r with
  | (Val _, w) => (Val 0%Z, w)
  | (Return status, w) => (Val status, w)
  | (Raise (CalledProcessError stderr), w) => (Val 1%Z, log (EStderr stderr) w)
  | (Raise e, w) => (Raise e, w)
  | (Diverges, w) => (Diverges, w)
  end.

Definition comment_of (env : Env) (a : Args) : option string :=
  if truthy_opt (comment_file a)
  then option_map (FileRead env) (comment_file a) else None.

Lemma SplitCl_finish (env : Env) (a : Args) (w : World)
    (description : string) :
  AddUploadedByGitClSplitToDescription (split_footers env)
    (FileRead env (description_file a)) = Val description ->
  SplitCl env a w
  = finish (SplitCl_try env a description (comment_of env a) w).
Proof.
  intros Hd. unfold SplitCl, function_body, bind, lift, try_except.
  rewrite Hd. fold (comment_of env a).
  destruct (SplitCl_try env a description (comment_of env a) w)
    as [[[]|z|[]|] w']; reflexivity.
Qed.

Lemma finish_trace (o : Outcome unit) (w : World) :
  trace (snd (finish (o, w))) = trace w \/
  exists stderr, trace (snd (finish (o, w))) = EStderr stderr :: trace w.
Proof. destruct o as [[]|z|[]|]; simpl; eauto. Qed.

Lemma fan_out_gate_eq (env : Env) (cq : bool) (n : nat) (w : World) :
  fan_out_gate env cq n w
  = if cq && (10 <? n)%nat
    then ((if negb (lower (AskForData_answer env fan_out_prompt
                             (log (EPrint (fan_out_warning n)) w)) =? "y")
           then Return 0%Z else Val tt),
          log (EAsk fan_out_prompt) (log (EPrint (fan_out_warning n)) w))
    else (Val tt, w).
Proof.
  unfold fan_out_gate, CL_SPLIT_FORCE_LIMIT.
  destruct (cq && (10 <? n)%nat); [|reflexivity].
  unfold bind, print, emit, AskForData.
  now destruct (negb (lower _ =? "y")).
Qed.

Lemma bug_link_gate_eq (env : Env) (description : string) (w : World) :
  bug_link_gate env description w
  = if has_bug_link description then (Val tt, w)
    else ((if negb (lower (AskForData_answer env bug_link_prompt w) =? "y")
           then Return 0%Z else Val tt),
          log (EAsk bug_link_prompt) w).
Proof.
  unfold bug_link_gate, bind.
  destruct (has_bug_link description); [reflexivity|].
  unfold AskForData. cbn [negb].
  now destruct (negb (lower _ =? "y")).
Qed.

Lemma steps_bug_link_gate (env : Env) (description : string)
    (P : Event -> Prop) :
  P (EAsk bug_link_prompt) -> steps P (bug_link_gate env description).
Proof.
  intros HP. unfold bug_link_gate.
  apply steps_bind.
  - destruct (negb (has_bug_link description));
      [now apply steps_AskForData | apply steps_ret].
  - intros answer. destruct (negb (lower answer =? "y"));
      [apply steps_lift | apply steps_ret].
Qed.

(** The events of [SplitCl] after a world [w2] reached inside the [try]
    statement, when the rest of its body is [m]. *)
Lemma finish_steps (P : Event -> Prop) (m : M unit) (w2 : World) :
  steps P m ->
  exists evs,
    trace (snd (finish (m w2))) = evs ++ trace w2 /\
    Forall (fun e => P e \/ exists stderr, e = EStderr stderr) evs.
Proof.
  intros Hm. destruct (m w2) as [o w'] eqn:E.
  destruct (Hm _ _ _ E) as [_ [evs [Ht Hf]]].
  assert (Hf' : Forall (fun e => P e \/ exists stderr, e = EStderr stderr)
                  evs).
  { eapply Forall_impl; [|exact Hf]. intros e He. now left. }
  destruct (finish_trace o w') as [H|[stderr H]]; rewrite H, Ht.
  - now exists evs.
  - exists (EStderr stderr :: evs). split; [reflexivity|].
    constructor; [right; now exists stderr | assumption].
Qed.

Lemma quiet_not_ask (prompt : string) (e : Event) :
  quiet e -> e <> EAsk prompt.
Proof. intros H ->. exact H. Qed.

(** C6. In a run of [SplitCl] whose setup succeeds, the question
    [Proceed? (y/n):] is asked exactly when [cq_dry_run] is set and there
    are more than 10 groups; when the answer, lowered, is not [y], the run
    ends with status 0 right after the question: nothing is done for any
    group. *)
Theorem SplitCl_fan_out_confirmation (env : Env) (a : Args) (w : World)
    (description : string) (st : Setup) (w1 : World) :
  AddUploadedByGitClSplitToDescription (split_footers env)
    (FileRead env (description_file a)) = Val description ->
  SplitCl_setup env a w = (Val st, w1) ->
  (exists evs,
     trace (snd (SplitCl env a w)) = evs ++ trace w1 /\
     (In (EAsk fan_out_prompt) evs <->
      cq_dry_run a = true /\ 10 < length (files_split_by_owners st))) /\
  (cq_dry_run a = true ->
   10 < length (files_split_by_owners st) ->
   lower (AskForData_answer env fan_out_prompt
            (log (EPrint (fan_out_warning
                            (length (files_split_by_owners st)))) w1))
   <> "y" ->
   SplitCl env a w
   = (Val 0%Z,
      log (EAsk fan_out_prompt)
        (log (EPrint (fan_out_warning
                        (length (files_split_by_owners st)))) w1))).
Proof.
  intros Hdesc Hsetup. rewrite (SplitCl_finish env a w description Hdesc).
  unfold SplitCl_try. rewrite (bind_val _ _ _ _ _ Hsetup).
  set (n := length (files_split_by_owners st)).
  set (rest := bug_link_gate env description ;;
               upload_groups env a st description (comment_of env a)).
  assert (Hrest : steps (fun e => e <> EAsk fan_out_prompt) rest).
  { apply steps_bind.
    - apply steps_bug_link_gate. discriminate.
    - intros _. eapply steps_weaken; [|apply steps_upload_groups].
      apply quiet_not_ask. }
  assert (Hcond : cq_dry_run a && (10 <? n)%nat = true <->
                  cq_dry_run a = true /\ 10 < n).
  { now rewrite andb_true_iff, Nat.ltb_lt. }
  assert (Hno : forall evs,
             Forall (fun e => e <> EAsk fan_out_prompt \/
                              exists stderr, e = EStderr stderr) evs ->
             ~ In (EAsk fan_out_prompt) evs).
  { intros evs Hf Hin. rewrite Forall_forall in Hf.
    destruct (Hf _ Hin) as [H|[stderr H]]; [congruence | discriminate]. }
  set (asked := log (EAsk fan_out_prompt)
                  (log (EPrint (fan_out_warning n)) w1)).
  assert (Hrun : (fan_out_gate env (cq_dry_run a) n ;; rest) w1
                 = if cq_dry_run a && (10 <? n)%nat
                   then if negb (lower (AskForData_answer env fan_out_prompt
                                          (log (EPrint (fan_out_warning n))
                                             w1)) =? "y")
                        then (Return 0%Z, asked) else rest asked
                   else rest w1).
  { unfold bind at 1. rewrite fan_out_gate_eq.
    destruct (cq_dry_run a && (10 <? n)%nat); [|reflexivity].
    now destruct (negb (lower _ =? "y")). }
  rewrite Hrun. clear Hrun.
  destruct (cq_dry_run a && (10 <? n)%nat) eqn:B.
  - destruct (negb (lower (AskForData_answer env fan_out_prompt
                             (log (EPrint (fan_out_warning n)) w1)) =? "y"))
      eqn:Ans.
    + split; [|reflexivity].
      exists [EAsk fan_out_prompt; EPrint (fan_out_warning n)].
      split; [reflexivity|]. split; [intros _; now apply Hcond|].
      intros _. now left.
    + split.
      * destruct (finish_steps _ rest asked Hrest) as [evs [Ht _]].
        exists (evs ++ [EAsk fan_out_prompt; EPrint (fan_out_warning n)]).
        split; [rewrite Ht; now rewrite <- app_assoc|].
        split; [intros _; now apply Hcond|].
        intros _. apply in_app_iff. right. now left.
      * intros _ _ Hans. apply negb_false_iff, String.eqb_eq in Ans.
        congruence.
  - split.
    + destruct (finish_steps _ rest w1 Hrest) as [evs [Ht Hf]].
      exists evs. split; [exact Ht|]. split.
      * intros Hin. now apply Hno in Hin.
      * intros H. apply Hcond in H. discriminate.
    + intros Hcq Hn. assert (H : false = true) by (apply Hcond; now split).
      discriminate.
Qed.

Lemma SplitCl_fan_out_confirmation_witness :
  AddUploadedByGitClSplitToDescription (split_footers eleven_env)
    (FileRead eleven_env (description_file (scenario_args true)))
  = Val scenario_description /\
  SplitCl_setup eleven_env (scenario_args true) scenario_world
  = (Val eleven_setup, eleven_after_setup) /\
  (exists evs,
     trace (snd (SplitCl eleven_env (scenario_args true) scenario_world))
     = evs ++ trace eleven_after_setup /\
     (In (EAsk fan_out_prompt) evs <->
      cq_dry_run (scenario_args true) = true /\
      10 < length (files_split_by_owners eleven_setup))) /\
  (cq_dry_run (scenario_args true) = true ->
   10 < length (files_split_by_owners eleven_setup) ->
   lower (AskForData_answer eleven_env fan_out_prompt
            (log (EPrint (fan_out_warning
                            (length (files_split_by_owners eleven_setup))))
               eleven_after_setup))
   <> "y" ->
   SplitCl eleven_env (scenario_args true) scenario_world
   = (Val 0%Z,
      log (EAsk fan_out_prompt)
        (log (EPrint (fan_out_warning
                        (length (files_split_by_owners eleven_setup))))
           eleven_after_setup))).
Proof.
  split; [reflexivity|]. split; [vm_compute; reflexivity|].
  apply (SplitCl_fan_out_confirmation eleven_env (scenario_args true)
           scenario_world scenario_description eleven_setup
           eleven_after_setup).
  - reflexivity.
  - vm_compute. reflexivity.
Defined.

(** Eleven groups with [cq_dry_run] are asked about; ten groups, or
    eleven without [cq_dry_run], are not. *)
Example fan_out_gate_threshold :
  snd (fan_out_gate eleven_env true 11 scenario_world)
  = extend [EAsk fan_out_prompt; EPrint (fan_out_warning 11)] scenario_world /\
  fan_out_gate eleven_env true 10 scenario_world = (Val tt, scenario_world) /\
  fan_out_gate eleven_env false 11 scenario_world = (Val tt, scenario_world).
Proof. repeat split. Qed.

(** C5. The check finds a bug link exactly in the descriptions with a
    line that starts with [Bug:], then optional whitespace, an optional
    alphabetic prefix ending in [:], and digits; it finds one in the first
    example and none in [Fix crash].  In a run of [SplitCl] that gets past
    the fan-out confirmation, the description as rewritten by
    [AddUploadedByGitClSplitToDescription], before any substitution of
    the directory, is checked: the question about the missing bug link is
    asked, first, exactly when the check finds nothing, and an answer other
    than [y] ends the run with status 0. *)
Theorem SplitCl_bug_link_check (env : Env) (a : Args) (w : World)
    (description : string) (st : Setup) (w1 w2 : World) :
  AddUploadedByGitClSplitToDescription (split_footers env)
    (FileRead env (description_file a)) = Val description ->
  SplitCl_setup env a w = (Val st, w1) ->
  fan_out_gate env (cq_dry_run a) (length (files_split_by_owners st)) w1
  = (Val tt, w2) ->
  (forall d, has_bug_link d = true <-> bug_line d) /\
  has_bug_link ("Fix crash" +++ nl +++ nl +++ "Bug: chromium:123") = true /\
  has_bug_link "Fix crash" = false /\
  (exists evs,
     trace (snd (SplitCl env a w)) = evs ++ trace w2 /\
     (In (EAsk bug_link_prompt) evs <-> has_bug_link description = false) /\
     (has_bug_link description = false ->
      exists evs', evs = evs' ++ [EAsk bug_link_prompt])) /\
  (has_bug_link description = false ->
   lower (AskForData_answer env bug_link_prompt w2) <> "y" ->
   SplitCl env a w = (Val 0%Z, log (EAsk bug_link_prompt) w2)).
Proof.
  intros Hdesc Hsetup Hgate.
  split; [exact has_bug_link_iff|].
  split; [reflexivity|]. split; [reflexivity|].
  rewrite (SplitCl_finish env a w description Hdesc).
  unfold SplitCl_try. rewrite (bind_val _ _ _ _ _ Hsetup).
  rewrite (bind_val _ _ _ _ _ Hgate).
  set (upload := upload_groups env a st description (comment_of env a)).
  assert (Hup : steps quiet upload) by apply steps_upload_groups.
  assert (Hno : forall evs,
             Forall (fun e => quiet e \/ exists stderr, e = EStderr stderr)
               evs ->
             ~ In (EAsk bug_link_prompt) evs).
  { intros evs Hf Hin. rewrite Forall_forall in Hf.
    destruct (Hf _ Hin) as [H|[stderr H]]; [exact H | discriminate]. }
  assert (Hrun : (bug_link_gate env description ;; upload) w2
                 = if has_bug_link description then upload w2
                   else if negb (lower (AskForData_answer env
                                          bug_link_prompt w2) =? "y")
                        then (Return 0%Z, log (EAsk bug_link_prompt) w2)
                        else upload (log (EAsk bug_link_prompt) w2)).
  { unfold bind at 1. rewrite bug_link_gate_eq.
    destruct (has_bug_link description); [reflexivity|].
    now destruct (negb (lower _ =? "y")). }
  rewrite Hrun. clear Hrun.
  destruct (has_bug_link description) eqn:B.
  - split; [|discriminate].
    destruct (finish_steps _ upload w2 Hup) as [evs [Ht Hf]].
    exists evs. split; [exact Ht|]. split; [|discriminate].
    split; [|discriminate]. intros Hin. now apply Hno in Hin.
  - destruct (negb (lower (AskForData_answer env bug_link_prompt w2) =? "y"))
      eqn:Ans.
    + split; [|reflexivity].
      exists [EAsk bug_link_prompt]. split; [reflexivity|].
      split; [split; [reflexivity | intros _; now left]|].
      intros _. now exists [].
    + split.
      * destruct (finish_steps _ upload (log (EAsk bug_link_prompt) w2) Hup)
          as [evs [Ht _]].
        exists (evs ++ [EAsk bug_link_prompt]).
        split; [rewrite Ht; now rewrite <- app_assoc|].
        split; [|intros _; now exists evs].
        split; [reflexivity|]. intros _. apply in_app_iff. right. now left.
      * intros _ Hans. apply negb_false_iff, String.eqb_eq in Ans.
        congruence.
Qed.

Lemma SplitCl_bug_link_check_witness :
  AddUploadedByGitClSplitToDescription (split_footers (scenario_env 0 "n"))
    (FileRead (scenario_env 0 "n") (description_file (scenario_args false)))
  = Val scenario_description /\
  SplitCl_setup (scenario_env 0 "n") (scenario_args false) scenario_world
  = (Val scenario_setup, scenario_after_setup) /\
  fan_out_gate (scenario_env 0 "n") (cq_dry_run (scenario_args false))
    (length (files_split_by_owners scenario_setup)) scenario_after_setup
  = (Val tt, scenario_after_setup) /\
  (forall d, has_bug_link d = true <-> bug_line d) /\
  has_bug_link ("Fix crash" +++ nl +++ nl +++ "Bug: chromium:123") = true /\
  has_bug_link "Fix crash" = false /\
  (exists evs,
     trace (snd (SplitCl (scenario_env 0 "n") (scenario_args false)
                   scenario_world))
     = evs ++ trace scenario_after_setup /\
     (In (EAsk bug_link_prompt) evs <->
      has_bug_link scenario_description = false) /\
     (has_bug_link scenario_description = false ->
      exists evs', evs = evs' ++ [EAsk bug_link_prompt])) /\
  (has_bug_link scenario_description = false ->
   lower (AskForData_answer (scenario_env 0 "n") bug_link_prompt
            scenario_after_setup) <> "y" ->
   SplitCl (scenario_env 0 "n") (scenario_args false) scenario_world
   = (Val 0%Z, log (EAsk bug_link_prompt) scenario_after_setup)).
Proof.
  split; [reflexivity|]. split; [vm_compute; reflexivity|].
  split; [reflexivity|].
  apply (SplitCl_bug_link_check (scenario_env 0 "n") (scenario_args false)
           scenario_world scenario_description scenario_setup
           scenario_after_setup scenario_after_setup).
  - reflexivity.
  - vm_compute. reflexivity.
  - reflexivity.
Defined.

(** *** Uploading every group, then going back to the original branch *)

Lemma replace_sep_id (d : string) :
  Str.replace d (String Path.sep "") "/" = d.
Proof.
  unfold Str.replace. induction d as [|c d IH]; [reflexivity|].
  cbn [replace_from startswith]. rewrite andb_true_r.
  destruct (Ascii.eqb c Path.sep) eqn:E.
  - apply Ascii.eqb_eq in E. subst c. cbn. now rewrite IH.
  - now rewrite IH.
Qed.

Lemma extend_extend (e2 e1 : list Event) (w : World) :
  extend e2 (extend e1 w) = extend (e2 ++ e1) w.
Proof. unfold extend. simpl. now rewrite app_assoc. Qed.

Section GitSucceeds.

Variable env : Env.
Hypothesis git_succeeds : forall c w, git_ok env c w = true.

Definition checkout_events (refactor_branch repository_root : string)
    (files : list File) : list Event :=
  (if nonempty (filter (fun f => negb (is_deleted f)) files)
   then [EGit (CheckoutPaths refactor_branch
                 (map (member_path env repository_root)
                    (filter (fun f => negb (is_deleted f)) files)))]
   else [])
  ++ (if nonempty (filter is_deleted files)
      then [EGit (Rm (map (member_path env repository_root)
                        (filter is_deleted files)))]
      else []).

Definition commit_events (description directory : string) : list Event :=
  [ERemoveFile (tmp_file env); EGit (Commit (tmp_file env));
   EFileWrite (tmp_file env)
     (FormatDescriptionOrComment description directory);
   ETempFile (tmp_file env)].

Definition upload_events (directory : string) (comment : option string)
    (reviewers : list string) (cq_dry_run enable_auto_submit : bool)
    (topic : option string) (w : World) (branch : string) : list Event :=
  let upload_args :=
    upload_arguments comment reviewers cq_dry_run enable_auto_submit
      topic in
  let ret_code :=
    cmd_upload_status env upload_args
      (log (EPrint ("Uploading CL for " +++ directory +++ "...")) w) in
  (match comment with
   | Some c =>
       if Str.truthy c
       then [EAddComment (FormatDescriptionOrComment c directory)] else []
   | None => []
   end)
  ++ (if negb (ret_code =? 0)%Z
      then [EPrint ("Delete " +++ branch
                    +++ " then run git cl split again to resume uploading.");
            EPrint "Note: git cl split has built-in resume capabilities.";
            EPrint ("Uploading failed for " +++ directory +++ ".")]
      else [])
  ++ [EUpload upload_args;
      EPrint ("Uploading CL for " +++ directory +++ "...")].

Lemma checkout_changes_events (refactor_branch : string)
    (files : list File) (repository_root : string) (w : World) :
  checkout_changes env refactor_branch files repository_root w
  = (Val tt, extend (checkout_events refactor_branch repository_root files) w).
Proof.
  unfold checkout_changes, checkout_events. rewrite sort_by_action_spec.
  set (deleted := filter is_deleted files).
  set (modified := filter (fun f => negb (is_deleted f)) files).
  destruct w as [bs cur tr]. unfold when, bind, git_run, ret, extend.
  destruct deleted as [|d ds], modified as [|m ms]; cbn [map nonempty];
    rewrite ?git_succeeds; reflexivity.
Qed.

Lemma commit_changes_events (description directory : string) (w : World) :
  commit_changes env description directory w
  = (Val tt, extend (commit_events description directory) w).
Proof.
  destruct w as [bs cur tr].
  unfold commit_changes, temporary_file, bind, FileWrite, emit, git_run.
  now rewrite git_succeeds.
Qed.

Lemma upload_and_comment_events (directory : string)
    (comment : option string) (reviewers : list string)
    (cq_dry_run enable_auto_submit : bool) (topic : option string)
    (w : World) (branch : string) :
  current w = Some branch ->
  upload_and_comment env directory comment reviewers cq_dry_run
    enable_auto_submit topic w
  = (Val tt,
     extend (upload_events directory comment reviewers cq_dry_run
               enable_auto_submit topic w branch) w).
Proof.
  destruct w as [bs cur tr]. simpl. intros ->.
  unfold upload_and_comment, upload_events, bind, print, emit, cmd_upload,
    when, git_current_branch, get, AddComment, ret, extend, log.
  cbn [branches current trace].
  destruct (negb (cmd_upload_status env _ _ =? 0)%Z);
    destruct comment as [c|]; try destruct (truthy c); reflexivity.
Qed.

(** What a call of [UploadCl] does when git succeeds: it returns, and has
    either skipped the group or uploaded it, reporting a failed upload. *)
Lemma UploadCl_completes (refactor_branch refactor_branch_upstream
    directory : string) (files : list File) (description : string)
    (comment : option string) (reviewers : list string)
    (cq_dry_run enable_auto_submit : bool) (topic : option string)
    (repository_root : string) (w : World) :
  exists w' evs,
    UploadCl env refactor_branch refactor_branch_upstream directory files
      description comment reviewers cq_dry_run enable_auto_submit topic
      repository_root w = (Val tt, w') /\
    trace w' = evs ++ trace w /\
    (In (EPrint ("Skipping " +++ directory
                 +++ " for which a branch already exists.")) evs \/
     (In (EPrint ("Uploading CL for " +++ directory +++ "...")) evs /\
      ((forall args w0, cmd_upload_status env args w0 <> 0%Z) ->
       In (EPrint ("Uploading failed for " +++ directory +++ ".")) evs))).
Proof.
  destruct (mem (branch_name refactor_branch directory) (branches w)) eqn:E.
  - rewrite (UploadCl_existing env _ _ _ _ _ _ _ _ _ _ _ _ E).
    eexists. exists [EPrint ("Skipping " +++ directory
                             +++ " for which a branch already exists.")].
    split; [reflexivity|]. split; [reflexivity|]. left. now left.
  - unfold UploadCl.
    rewrite (bind_val _ _ _ _ _
               (CreateBranchForDirectory_new env _ _ _ _ E
                  (git_succeeds _ _))).
    cbn [negb].
    set (w1 := mkWorld _ _ _).
    rewrite (bind_val _ _ _ _ _ (checkout_changes_events _ _ _ w1)).
    rewrite (bind_val _ _ _ _ _ (commit_changes_events _ _ _)).
    rewrite (upload_and_comment_events _ _ _ _ _ _
               (extend (commit_events description directory)
                  (extend (checkout_events refactor_branch repository_root
                             files) w1))
               (branch_name refactor_branch directory) eq_refl).
    rewrite !extend_extend.
    set (up := upload_events _ _ _ _ _ _ _ _).
    eexists.
    exists (up ++ commit_events description directory
               ++ checkout_events refactor_branch repository_root files
               ++ [EGit (CheckoutNewBranch refactor_branch_upstream
                           (branch_name refactor_branch directory))]).
    split; [reflexivity|]. split.
    + subst w1. unfold extend. cbn [trace]. now rewrite <- !app_assoc.
    + right. split.
      * apply in_app_iff. left. subst up. unfold upload_events.
        rewrite !in_app_iff. right. right. right. now left.
      * intros Hfail. apply in_app_iff. left. subst up.
        unfold upload_events. rewrite !in_app_iff. right. left.
        match goal with
        | |- In _ (if negb (?c =? 0)%Z then _ else _) =>
            destruct (c =? 0)%Z eqn:Z0
        end.
        -- apply Z.eqb_eq in Z0. now apply Hfail in Z0.
        -- simpl. auto.
Qed.

Lemma PrintClInfo_completes (cl_index num_cls : nat) (directory : string)
    (file_paths : list string) (description : string)
    (reviewers : list string) (enable_auto_submit : bool)
    (topic : option string) (w : World) :
  exists w' evs,
    PrintClInfo cl_index num_cls directory file_paths description reviewers
      enable_auto_submit topic w = (Val tt, w') /\
    trace w' = evs ++ trace w.
Proof.
  eexists. eexists (_ :: _ :: _ :: _ :: _ :: _ :: _ :: [_]).
  split; reflexivity.
Qed.

Lemma upload_loop_completes (a : Args) (st : Setup) (num_cls : nat)
    (description : string) (comment : option string) (groups : Groups) :
  forall cl_index w,
  exists w' evs,
    upload_loop env a st num_cls description comment cl_index groups w
    = (Val tt, w') /\
    trace w' = evs ++ trace w /\
    (dry_run a = false ->
     forall directory files,
       In (directory, files) groups ->
       In (EPrint ("Skipping " +++ directory
                   +++ " for which a branch already exists.")) evs \/
       (In (EPrint ("Uploading CL for " +++ directory +++ "...")) evs /\
        ((forall args w0, cmd_upload_status env args w0 <> 0%Z) ->
         In (EPrint ("Uploading failed for " +++ directory +++ "."))
            evs))).
Proof.
  induction groups as [|[directory files] groups IH]; intros cl_index w.
  - exists w, []. repeat split. intros _ d fs [].
  - cbn [upload_loop]. rewrite replace_sep_id.
    destruct (dry_run a) eqn:D.
    + destruct (PrintClInfo_completes cl_index num_cls directory
                  (map snd files) description
                  (SuggestOwners env (map snd files)
                     [author st; Some (EVERYONE env)])
                  (enable_auto_submit a) (topic a) w)
        as [w1 [e1 [H1 T1]]].
      rewrite (bind_val _ _ _ _ _ H1).
      destruct (IH (S cl_index) w1) as [w2 [e2 [H2 [T2 _]]]].
      exists w2, (e2 ++ e1). split; [exact H2|].
      split; [rewrite T2, T1; now rewrite app_assoc | discriminate].
    + destruct (UploadCl_completes (refactor_branch st)
                  (refactor_branch_upstream st) directory files description
                  comment
                  (SuggestOwners env (map snd files)
                     [author st; Some (EVERYONE env)])
                  (cq_dry_run a) (enable_auto_submit a) (topic a)
                  (repository_root a) w)
        as [w1 [e1 [H1 [T1 G1]]]].
      rewrite (bind_val _ _ _ _ _ H1).
      destruct (IH (S cl_index) w1) as [w2 [e2 [H2 [T2 G2]]]].
      exists w2, (e2 ++ e1). split; [exact H2|].
      split; [rewrite T2, T1; now rewrite app_assoc|].
      intros _ d fs [Heq|Hin].
      * inversion Heq; subst d fs.
        destruct G1 as [G|[G G']]; [left | right; split];
          try (intros Hf; specialize (G' Hf));
          apply in_app_iff; now right.
      * destruct (G2 eq_refl d fs Hin) as [G|[G G']]; [left | right; split];
          try (intros Hf; specialize (G' Hf));
          apply in_app_iff; now left.
Qed.

(** *** What the loop does with each group *)

(** A group whose branch exists: only a line about it is printed. *)
Definition group_skipped (directory : string) (w w1 : World) : Prop :=
  w1 = log (EPrint ("Skipping " +++ directory
                    +++ " for which a branch already exists.")) w.

(** A group that is uploaded, [before] being the events from the creation
    of its branch to its commit: the upload command is run once, on the
    new branch, and what follows it reports a failure exactly when the
    status it returned is not 0. *)
Definition group_uploaded (name directory : string)
    (upload_args : list string) (before : list Event) (w w1 : World)
  : Prop :=
  let w_u :=
    mkWorld (branches w ++ [name]) (Some name)
      (EPrint ("Uploading CL for " +++ directory +++ "...")
         :: before ++ trace w) in
  exists after,
    w1 = extend (after ++ [EUpload upload_args]) w_u /\
    (In (EPrint ("Uploading failed for " +++ directory +++ ".")) after <->
     cmd_upload_status env upload_args w_u <> 0%Z) /\
    (forall args, ~ In (EUpload args) after).

(** A group of a dry run: it is printed. *)
Definition group_printed (w w1 : World) : Prop :=
  exists evs,
    w1 = extend evs w /\ forall e, In e evs -> exists text, e = EPrint text.

(** The events from the creation of the branch of a group to its
    commit. *)
Definition branch_events (a : Args) (st : Setup) (description : string)
    (g : string * list File) : list Event :=
  commit_events description (fst g)
  ++ checkout_events (refactor_branch st) (repository_root a) (snd g)
  ++ [EGit (CheckoutNewBranch (refactor_branch_upstream st)
              (branch_name (refactor_branch st) (fst g)))].

(** What one iteration of the loop of [SplitCl] does with the group [g],
    from the world [w] to the world [w1]. *)
Definition group_processed (a : Args) (st : Setup)
    (description : string) (comment : option string)
    (g : string * list File) (w w1 : World) : Prop :=
  let name := branch_name (refactor_branch st) (fst g) in
  if dry_run a then group_printed w w1
  else
    (In name (branches w) /\ group_skipped (fst g) w w1) \/
    (~ In name (branches w) /\
     group_uploaded name (fst g)
       (upload_arguments comment
          (SuggestOwners env (map snd (snd g))
             [author st; Some (EVERYONE env)])
          (cq_dry_run a) (enable_auto_submit a) (topic a))
       (branch_events a st description g) w w1).

(** The groups are processed one after the other, none is left out. *)
Inductive processed (step : string * list File -> World -> World -> Prop)
  : Groups -> World -> World -> Prop :=
| processed_nil w : processed step [] w w
| processed_cons g groups w w1 w2 :
    step g w w1 -> processed step groups w1 w2 ->
    processed step (g :: groups) w w2.

Lemma UploadCl_new (refactor_branch refactor_branch_upstream
    directory : string) (files : list File) (description : string)
    (comment : option string) (reviewers : list string)
    (cq_dry_run enable_auto_submit : bool) (topic : option string)
    (repository_root : string) (w : World) :
  mem (branch_name refactor_branch directory) (branches w) = false ->
  exists w1,
    UploadCl env refactor_branch refactor_branch_upstream directory files
      description comment reviewers cq_dry_run enable_auto_submit topic
      repository_root w = (Val tt, w1) /\
    group_uploaded (branch_name refactor_branch directory) directory
      (upload_arguments comment reviewers cq_dry_run enable_auto_submit
         topic)
      (commit_events description directory
       ++ checkout_events refactor_branch repository_root files
       ++ [EGit (CheckoutNewBranch refactor_branch_upstream
                   (branch_name refactor_branch directory))])
      w w1.
Proof.
  intros E. unfold UploadCl.
  rewrite (bind_val _ _ _ _ _
             (CreateBranchForDirectory_new env _ _ _ _ E
                (git_succeeds _ _))).
  cbn [negb].
  set (name := branch_name refactor_branch directory).
  set (w0 := mkWorld _ _ _).
  rewrite (bind_val _ _ _ _ _
             (checkout_changes_events _ _ _ w0)).
  rewrite (bind_val _ _ _ _ _ (commit_changes_events _ _ _)).
  set (w_c := extend (commit_events description directory)
                (extend (checkout_events refactor_branch
                           repository_root files) w0)).
  rewrite (upload_and_comment_events _ _ _ _ _ _ w_c name
             eq_refl).
  eexists. split; [reflexivity|].
  unfold group_uploaded, upload_events.
  set (args := upload_arguments comment reviewers cq_dry_run
                 enable_auto_submit topic).
  set (started := EPrint ("Uploading CL for " +++ directory +++ "...")).
  assert (Hw : log started w_c
               = mkWorld (branches w ++ [name]) (Some name)
                   (started
                      :: (commit_events description directory
                          ++ checkout_events refactor_branch
                               repository_root files
                          ++ [EGit (CheckoutNewBranch
                                      refactor_branch_upstream name)])
                      ++ trace w)).
  { subst w_c w0. unfold log, extend. cbn [branches current trace].
    f_equal. f_equal. now rewrite <- !app_assoc. }
  rewrite <- Hw.
  set (status := cmd_upload_status env args (log started w_c)).
  set (commented := match comment with
                    | Some c =>
                        if truthy c
                        then [EAddComment
                                (FormatDescriptionOrComment c directory)]
                        else []
                    | None => []
                    end).
  assert (Hc : forall e, In e commented -> exists text, e = EAddComment text).
  { intros e He. subst commented. destruct comment as [c|]; [|destruct He].
    destruct (truthy c); [|destruct He].
    destruct He as [<-|[]]. eexists. reflexivity. }
  exists (commented
          ++ if negb (status =? 0)%Z
             then [EPrint ("Delete " +++ name
                           +++ " then run git cl split again to resume uploading.");
                   EPrint "Note: git cl split has built-in resume capabilities.";
                   EPrint ("Uploading failed for " +++ directory +++ ".")]
             else []).
  split; [|split].
  - unfold extend, log. cbn [branches current trace]. f_equal.
    rewrite <- !app_assoc. reflexivity.
  - rewrite in_app_iff. destruct (status =? 0)%Z eqn:Z0; cbn [negb].
    + apply Z.eqb_eq in Z0. split; [|congruence].
      intros [H|[]]. apply Hc in H. destruct H as [text H]. discriminate.
    + apply Z.eqb_neq in Z0. split; [intros _; exact Z0|].
      intros _. right. simpl. auto.
  - intros a0 H. apply in_app_iff in H. destruct H as [H|H].
    + apply Hc in H. destruct H as [text H]. discriminate.
    + destruct (negb (status =? 0)%Z); simpl in H;
        repeat (destruct H as [H|H]; [discriminate|]); exact H.
Qed.

Lemma PrintClInfo_printed (cl_index num_cls : nat) (directory : string)
    (file_paths : list string) (description : string)
    (reviewers : list string) (enable_auto_submit : bool)
    (topic : option string) (w : World) :
  exists w1,
    PrintClInfo cl_index num_cls directory file_paths description reviewers
      enable_auto_submit topic w = (Val tt, w1) /\
    group_printed w w1.
Proof.
  eexists. split; [reflexivity|].
  eexists (_ :: _ :: _ :: _ :: _ :: _ :: _ :: [_]).
  split; [destruct w; reflexivity|].
  intros e H. simpl in H.
  repeat (destruct H as [H|H]; [subst e; eexists; reflexivity|]).
  destruct H.
Qed.

Lemma upload_loop_processes (a : Args) (st : Setup) (num_cls : nat)
    (description : string) (comment : option string) (groups : Groups) :
  forall cl_index w,
  exists w1,
    upload_loop env a st num_cls description comment cl_index groups w
    = (Val tt, w1) /\
    processed (group_processed a st description comment) groups w w1.
Proof.
  induction groups as [|[directory files] groups IH]; intros cl_index w.
  - exists w. split; [reflexivity | constructor].
  - cbn [upload_loop]. rewrite replace_sep_id.
    assert (Hstep : exists w1,
               (if dry_run a
                then PrintClInfo cl_index num_cls directory (map snd files)
                       description
                       (SuggestOwners env (map snd files)
                          [author st; Some (EVERYONE env)])
                       (enable_auto_submit a) (topic a)
                else UploadCl env (refactor_branch st)
                       (refactor_branch_upstream st) directory files
                       description comment
                       (SuggestOwners env (map snd files)
                          [author st; Some (EVERYONE env)])
                       (cq_dry_run a) (enable_auto_submit a) (topic a)
                       (repository_root a)) w = (Val tt, w1) /\
               group_processed a st description comment (directory, files)
                 w w1).
    { unfold group_processed. cbn [fst snd].
      destruct (dry_run a); [apply PrintClInfo_printed|].
      destruct (mem (branch_name (refactor_branch st) directory)
                  (branches w)) eqn:E.
      - eexists. split; [now apply UploadCl_existing|].
        left. split; [now apply mem_In | reflexivity].
      - destruct (UploadCl_new (refactor_branch st)
                    (refactor_branch_upstream st) directory files
                    description comment
                    (SuggestOwners env (map snd files)
                       [author st; Some (EVERYONE env)])
                    (cq_dry_run a) (enable_auto_submit a) (topic a)
                    (repository_root a) w E) as [w1 [H1 G1]].
        exists w1. split; [exact H1|]. right. split; [|exact G1].
        intros Hin. apply mem_In in Hin. congruence. }
    destruct Hstep as [w1 [H1 G1]].
    rewrite (bind_val _ _ _ _ _ H1).
    destruct (IH (S cl_index) w1) as [w2 [H2 G2]].
    exists w2. split; [exact H2|]. econstructor; eassumption.
Qed.

(** C9. When the git commands succeed, whatever the uploads return, the
    loop over the groups runs to its end, one group after the other and
    none left out, and the run then checks out the original branch: that
    checkout is the last event and the original branch is the current
    one.  A group whose branch exists is skipped; every other group is
    uploaded once, on its new branch, and its failure is reported exactly
    when the status of its upload is not 0, whatever happened to the
    groups before it. *)
Theorem upload_groups_restores_branch (a : Args) (st : Setup)
    (description : string) (comment : option string) (w : World) :
  exists w1,
    processed (group_processed a st description comment)
      (files_split_by_owners st) w w1 /\
    upload_groups env a st description comment w
    = (Val tt,
       mkWorld (branches w1) (Some (refactor_branch st))
         (EGit (Checkout (refactor_branch st)) :: trace w1)).
Proof.
  unfold upload_groups.
  destruct (upload_loop_processes a st
              (length (files_split_by_owners st)) description comment
              (files_split_by_owners st) 1 w) as [w1 [H1 G1]].
  exists w1. split; [exact G1|].
  rewrite (bind_val _ _ _ _ _ H1).
  unfold bind, git_run. now rewrite git_succeeds.
Qed.

End GitSucceeds.

Lemma upload_groups_restores_branch_witness :
  (forall c w, git_ok mixed_env c w = true) /\
  exists w1,
    processed
      (group_processed mixed_env (scenario_args false) scenario_setup
         scenario_description None)
      (files_split_by_owners scenario_setup) scenario_after_setup w1 /\
    upload_groups mixed_env (scenario_args false) scenario_setup
      scenario_description None scenario_after_setup
    = (Val tt,
       mkWorld (branches w1) (Some (refactor_branch scenario_setup))
         (EGit (Checkout (refactor_branch scenario_setup)) :: trace w1)).
Proof.
  split; [intros c w; reflexivity|].
  apply (upload_groups_restores_branch mixed_env (fun c w => eq_refl)
           (scenario_args false) scenario_setup scenario_description None
           scenario_after_setup).
Defined.

(** A run in which the upload of the first group fails and the one of
    the second succeeds: the failure of [a/b] is reported, [a] is uploaded
    all the same and has no failure reported, and the original branch is
    checked out at the end. *)
Example upload_groups_with_one_failing_upload :
  let r := upload_groups mixed_env (scenario_args false) scenario_setup
             scenario_description None scenario_after_setup in
  fst r = Val tt /\
  current (snd r) = Some "feature" /\
  hd_error (trace (snd r)) = Some (EGit (Checkout "feature")) /\
  filter (fun e => match e with
                   | EUpload _ | EPrint _ => true
                   | _ => false
                   end)
    (firstn 17 (trace (snd r)))
  = [EUpload ["-f"; "-r"; "owner@example.org"; "--send-mail"];
     EPrint "Uploading CL for a...";
     EPrint ("Delete feature_a/b_split then run git cl split again"
             +++ " to resume uploading.");
     EPrint "Note: git cl split has built-in resume capabilities.";
     EPrint "Uploading failed for a/b.";
     EUpload ["-f"; "-r"; "owner@example.org"; "--send-mail"];
     EPrint "Uploading CL for a/b..."].
Proof. vm_compute. repeat split. Qed.

(** The whole run of the scenario, with uploads that fail: both groups are
    uploaded, both failures are reported, the original branch is checked
    out at the end and the exit status is 0. *)
Example SplitCl_with_failing_uploads :
  let r := SplitCl (scenario_env 1 "y") (scenario_args false)
             scenario_world in
  fst r = Val 0%Z /\
  current (snd r) = Some "feature" /\
  hd_error (trace (snd r)) = Some (EGit (Checkout "feature")) /\
  branches (snd r)
  = ["main"; "feature"; "feature_a/b_split"; "feature_a_split"] /\
  filter (fun e => match e with EUpload _ => true | _ => false end)
    (trace (snd r))
  = [EUpload ["-f"; "-r"; "owner@example.org"; "--send-mail"];
     EUpload ["-f"; "-r"; "owner@example.org"; "--send-mail"]].
Proof. vm_compute. repeat split. Qed.

(** A git command that fails inside a group is not a failed upload: the
    exception leaves the loop, the handler of [SplitCl] prints the error
    and returns 1, and the original branch is not checked out. *)
Example SplitCl_with_failing_commit :
  let r := SplitCl commit_fails_env (scenario_args false) scenario_world in
  fst r = Val 1%Z /\
  current (snd r) = Some "feature_a/b_split" /\
  hd_error (trace (snd r)) = Some (EStderr "nothing to commit") /\
  ~ In (EGit (Checkout "feature")) (trace (snd r)).
Proof.
  vm_compute. repeat split.
  intros H. repeat (destruct H as [H|H]; [discriminate|]). exact H.
Qed.

End WorkflowFacts.


(** * Further properties *)

(** ** The groups of [GetFilesSplitByOwners] *)

Module OwnersExtra.
Import Str StrFacts Path PathFacts Owners OwnersFacts Scenario.

(** The directory a file is filed under when no directory is a key yet. *)
Definition owner_dir (isfile : string -> bool) (fuel : nat) (max_depth : Z)
    (path : string) : option string :=
  match start_dir path max_depth with
  | Val d0 => find_owners isfile fuel [] d0
  | _ => None
  end.

Definition owner_key (isfile : string -> bool) (fuel : nat) (max_depth : Z)
    (f : File) : string :=
  match owner_dir isfile fuel max_depth (snd f) with
  | Some k => k
  | None => ""
  end.

Definition filed_under (isfile : string -> bool) (fuel : nat)
    (max_depth : Z) (k : string) (f : File) : bool :=
  owner_key isfile fuel max_depth f =? k.

(** The elements of a list without repetition, in the order of their
    first occurrences. *)
Definition first_occurrences (l : list string) : list string :=
  rev (nodup string_dec (rev l)).

Lemma first_occurrences_In (l : list string) (x : string) :
  In x (first_occurrences l) <-> In x l.
Proof.
  unfold first_occurrences. now rewrite <- in_rev, nodup_In, <- in_rev.
Qed.

Lemma first_occurrences_snoc (l : list string) (x : string) :
  first_occurrences (l ++ [x])
  = if in_dec string_dec x l then first_occurrences l
    else first_occurrences l ++ [x].
Proof.
  unfold first_occurrences. rewrite rev_app_distr. cbn [rev app nodup].
  destruct (in_dec string_dec x (rev l)) as [H|H];
    destruct (in_dec string_dec x l) as [H'|H']; try reflexivity.
  - exfalso. apply H'. now apply in_rev.
  - exfalso. apply H. now apply in_rev in H'.
Qed.

Lemma filter_nil_iff {A} (f : A -> bool) (l : list A) :
  (forall x, In x l -> f x = false) -> filter f l = [].
Proof.
  induction l as [|a l IH]; intros H; [reflexivity|]. simpl.
  rewrite (H a (or_introl eq_refl)). apply IH. intros x Hx. apply H.
  now right.
Qed.

(** Where an entry of the dictionary comes from after an insertion. *)
Lemma in_setdefault_append_inv (m : Groups) (d : string) (v : File)
    (k : string) (vs : list File) :
  NoDup (keys m) ->
  In (k, vs) (setdefault_append m d v) ->
  (k <> d /\ In (k, vs) m) \/
  (k = d /\ ((exists vs0, In (d, vs0) m /\ vs = vs0 ++ [v]) \/
             (~ In d (keys m) /\ vs = [v]))).
Proof.
  unfold keys. induction m as [|[k' vs'] m IH]; simpl; intros Hnd.
  - intros [E|[]]. inversion E; subst. right. split; [reflexivity|].
    right. split; [tauto | reflexivity].
  - inversion Hnd as [|? ? Hnotin Hnd']; subst.
    destruct (k' =? d) eqn:E.
    + apply String.eqb_eq in E. subst k'. intros [H|H].
      * inversion H; subst. right. split; [reflexivity|]. left.
        exists vs'. split; [now left | reflexivity].
      * left. split; [|now right]. intros ->. apply Hnotin.
        now apply (in_map fst) in H.
    + apply String.eqb_neq in E. intros [H|H].
      * inversion H; subst. left. split; [assumption | now left].
      * destruct (IH Hnd' H) as [[Hk Hin]|[-> [[vs0 [Hin ->]]|[Hn ->]]]].
        -- left. split; [assumption | now right].
        -- right. split; [reflexivity|]. left. exists vs0.
           split; [now right | reflexivity].
        -- right. split; [reflexivity|]. right. split; [|reflexivity].
           intros [Hd|Hd]; [now apply E | now apply Hn].
Qed.

Section WithFilesystem.

Variable isfile : string -> bool.

(** Once every key contains an OWNERS file, the keys do not change where
    the walk stops. *)
Lemma find_owners_keys_irrelevant (fuel : nat) (m : Groups) (d : string) :
  (forall k, In k (keys m) -> has_owners isfile k = true) ->
  find_owners isfile fuel m d = find_owners isfile fuel [] d.
Proof.
  intros Hown. revert d. induction fuel as [|fuel IH]; intros d;
    [reflexivity|].
  cbn [find_owners]. rewrite IH.
  destruct (contains m d) eqn:C; [|reflexivity].
  apply contains_In, Hown in C. now rewrite C.
Qed.

(** The invariant of the [for] loop after the files [done]. *)
Definition grouped (fuel : nat) (max_depth : Z) (done : list File)
    (m : Groups) : Prop :=
  Inv isfile max_depth m /\
  keys m = first_occurrences (map (owner_key isfile fuel max_depth) done) /\
  forall k vs, In (k, vs) m ->
               vs = filter (filed_under isfile fuel max_depth k) done.

Lemma grouped_step (fuel : nat) (max_depth : Z) (done : list File)
    (m : Groups) (action path d0 d : string) :
  grouped fuel max_depth done m ->
  start_dir path max_depth = Val d0 ->
  find_owners isfile fuel m d0 = Some d ->
  grouped fuel max_depth (done ++ [(action, path)])
    (setdefault_append m d (action, path)).
Proof.
  intros [HI [Hkeys Hmem]] Hstart Hfind.
  pose proof HI as [Hnd [Hown _]].
  assert (Hkey : owner_key isfile fuel max_depth (action, path) = d).
  { unfold owner_key, owner_dir. cbn [snd]. rewrite Hstart.
    rewrite <- (find_owners_keys_irrelevant fuel m d0 Hown). now rewrite Hfind. }
  split; [eapply Inv_step; eassumption|]. split.
  - rewrite keys_setdefault_append, map_app. cbn [map].
    rewrite first_occurrences_snoc, Hkey, <- Hkeys.
    destruct (contains m d) eqn:C;
      destruct (in_dec string_dec d
                  (map (owner_key isfile fuel max_depth) done)) as [H|H];
      try reflexivity.
    + exfalso. apply H. apply first_occurrences_In. rewrite <- Hkeys.
      now apply contains_In.
    + exfalso. apply first_occurrences_In in H. rewrite <- Hkeys in H.
      apply contains_In in H. congruence.
  - intros k vs Hin. rewrite filter_app. cbn [filter].
    unfold filed_under at 2. rewrite Hkey.
    destruct (in_setdefault_append_inv _ _ _ _ _ Hnd Hin)
      as [[Hk Hin']|[-> [[vs0 [Hin' ->]]|[Hn ->]]]].
    + assert (E : (d =? k) = false) by (apply String.eqb_neq; congruence).
      rewrite E, app_nil_r. now apply Hmem.
    + rewrite String.eqb_refl. f_equal. now apply Hmem.
    + rewrite String.eqb_refl. rewrite filter_nil_iff; [reflexivity|].
      intros f Hf. unfold filed_under. apply String.eqb_neq. intros E.
      apply Hn. rewrite Hkeys. apply first_occurrences_In.
      rewrite <- E. now apply in_map.
Qed.

Lemma split_loop_grouped (fuel : nat) (max_depth : Z) (files : list File) :
  forall done m m',
    grouped fuel max_depth done m ->
    split_loop isfile fuel files max_depth m = Val m' ->
    grouped fuel max_depth (done ++ files) m'.
Proof.
  induction files as [|[action path] files IH]; intros done m m' HG; simpl.
  - intros E. inversion E; subst. now rewrite app_nil_r.
  - destruct (start_dir path max_depth) as [d0| | |] eqn:Hst;
      try discriminate.
    destruct (find_owners isfile fuel m d0) as [d|] eqn:F; try discriminate.
    intros H. apply (IH (done ++ [(action, path)])) in H.
    + now rewrite <- app_assoc in H.
    + eapply grouped_step; eassumption.
Qed.

End WithFilesystem.

(** X1. Every key of the returned dictionary is a directory that contains
    an OWNERS file, and every file is filed under the closest ancestor of
    its start directory that contains one. *)
Theorem GetFilesSplitByOwners_keys_contain_owners
    (isfile : string -> bool) (fuel : nat) (files : list File)
    (max_depth : Z) (m : Groups) :
  GetFilesSplitByOwners isfile fuel files max_depth = Val m ->
  (forall k, In k (keys m) -> isfile (Path.join k ["OWNERS"]) = true) /\
  (forall k vs f, In (k, vs) m -> In f vs ->
                  owner_of isfile max_depth (snd f) k).
Proof.
  intros H. apply split_loop_inv in H; [|apply Inv_empty].
  destruct H as [[_ [Hown Hmem]] _]. split; assumption.
Qed.

Lemma GetFilesSplitByOwners_keys_contain_owners_witness :
  GetFilesSplitByOwners scenario_isfile 3 scenario_files 0
    = Val scenario_groups /\
  (forall k, In k (keys scenario_groups) ->
             scenario_isfile (Path.join k ["OWNERS"]) = true) /\
  (forall k vs f, In (k, vs) scenario_groups -> In f vs ->
                  owner_of scenario_isfile 0 (snd f) k).
Proof.
  split; [reflexivity|].
  apply (GetFilesSplitByOwners_keys_contain_owners scenario_isfile 3
           scenario_files 0 scenario_groups).
  reflexivity.
Defined.

(** X2. The returned dictionary is the input grouped by owner directory:
    the keys are the owner directories of the files in the order of their
    first occurrences, and each group holds, in the order of the input,
    exactly the files of that owner directory; no group is empty. *)
Theorem GetFilesSplitByOwners_groups_in_input_order
    (isfile : string -> bool) (fuel : nat) (files : list File)
    (max_depth : Z) (m : Groups) :
  GetFilesSplitByOwners isfile fuel files max_depth = Val m ->
  keys m = first_occurrences (map (owner_key isfile fuel max_depth) files) /\
  forall k vs,
    In (k, vs) m ->
    vs = filter (filed_under isfile fuel max_depth k) files /\ vs <> [].
Proof.
  intros H.
  apply (split_loop_grouped isfile fuel max_depth files [] [] m) in H.
  - destruct H as [_ [Hkeys Hmem]]. simpl in Hkeys, Hmem.
    split; [exact Hkeys|]. intros k vs Hin. split; [now apply Hmem|].
    assert (Hk : In k (keys m)) by (now apply (in_map fst) in Hin).
    rewrite Hkeys in Hk. apply first_occurrences_In, in_map_iff in Hk.
    destruct Hk as [f [Hf Hin']].
    rewrite (Hmem k vs Hin). intros E.
    assert (Hfil : In f (filter (filed_under isfile fuel max_depth k) files)).
    { apply filter_In. split; [assumption|]. unfold filed_under.
      rewrite Hf. apply String.eqb_refl. }
    rewrite E in Hfil. exact Hfil.
  - split; [apply Inv_empty|]. split; [reflexivity | intros k vs []].
Qed.

Lemma GetFilesSplitByOwners_groups_in_input_order_witness :
  GetFilesSplitByOwners scenario_isfile 3 scenario_files 0
    = Val scenario_groups /\
  keys scenario_groups
  = first_occurrences (map (owner_key scenario_isfile 3 0) scenario_files) /\
  forall k vs,
    In (k, vs) scenario_groups ->
    vs = filter (filed_under scenario_isfile 3 0 k) scenario_files /\
    vs <> [].
Proof.
  split; [reflexivity|].
  apply (GetFilesSplitByOwners_groups_in_input_order scenario_isfile 3
           scenario_files 0 scenario_groups).
  reflexivity.
Defined.

(** X3. The key of a file does not depend on the order of the input: when
    the function returns for a list and for a permutation of it, a file is
    filed under the same key in both results. *)
Theorem GetFilesSplitByOwners_order_independent
    (isfile : string -> bool) (fuel fuel' : nat) (files files' : list File)
    (max_depth : Z) (m m' : Groups) :
  Permutation files files' ->
  GetFilesSplitByOwners isfile fuel files max_depth = Val m ->
  GetFilesSplitByOwners isfile fuel' files' max_depth = Val m' ->
  forall k f,
    (exists vs, In (k, vs) m /\ In f vs) <->
    (exists vs', In (k, vs') m' /\ In f vs').
Proof.
  intros Hperm H H'.
  apply split_loop_inv in H; [|apply Inv_empty].
  apply split_loop_inv in H'; [|apply Inv_empty].
  destruct H as [[_ [_ Hmem]] Hp], H' as [[_ [_ Hmem']] Hp'].
  simpl in Hp, Hp'.
  assert (Hmove : forall (m1 m2 : Groups) (l1 l2 : list File),
             Permutation (members m1) l1 -> Permutation (members m2) l2 ->
             Permutation l1 l2 ->
             (forall k vs f, In (k, vs) m1 -> In f vs ->
                             owner_of isfile max_depth (snd f) k) ->
             (forall k vs f, In (k, vs) m2 -> In f vs ->
                             owner_of isfile max_depth (snd f) k) ->
             forall k f, (exists vs, In (k, vs) m1 /\ In f vs) ->
                         exists vs', In (k, vs') m2 /\ In f vs').
  { intros m1 m2 l1 l2 P1 P2 P12 O1 O2 k f [vs [Hin Hf]].
    assert (Hfm : In f (members m2)).
    { eapply Permutation_in; [symmetry; exact P2|].
      eapply Permutation_in; [exact P12|].
      eapply Permutation_in; [exact P1|].
      unfold members. apply in_concat. exists vs.
      split; [|assumption]. now apply (in_map snd) in Hin. }
    apply in_members in Hfm. destruct Hfm as [k2 [vs2 [Hin2 Hf2]]].
    assert (k = k2)
      by (eapply owner_of_unique; [eapply O1 | eapply O2]; eassumption).
    subst k2. now exists vs2. }
  intros k f. split.
  - apply (Hmove m m' files files'); assumption.
  - apply (Hmove m' m files' files); try assumption. now symmetry.
Qed.

Lemma GetFilesSplitByOwners_order_independent_witness :
  Permutation scenario_files (rev scenario_files) /\
  GetFilesSplitByOwners scenario_isfile 3 scenario_files 0
    = Val scenario_groups /\
  GetFilesSplitByOwners scenario_isfile 3 (rev scenario_files) 0
    = Val [("a/b", [("D", "a/b/z.txt"); ("M", "a/b/x.txt")]);
           ("a", [("M", "a/c/y.txt")])] /\
  forall k f,
    (exists vs, In (k, vs) scenario_groups /\ In f vs) <->
    (exists vs',
       In (k, vs') [("a/b", [("D", "a/b/z.txt"); ("M", "a/b/x.txt")]);
                    ("a", [("M", "a/c/y.txt")])] /\ In f vs').
Proof.
  split; [apply Permutation_rev|]. split; [reflexivity|].
  split; [reflexivity|].
  apply (GetFilesSplitByOwners_order_independent scenario_isfile 3 3
           scenario_files (rev scenario_files) 0 scenario_groups
           [("a/b", [("D", "a/b/z.txt"); ("M", "a/b/x.txt")]);
            ("a", [("M", "a/c/y.txt")])]
           (Permutation_rev scenario_files));
    reflexivity.
Defined.

(** X4. When the current directory contains an OWNERS file and the paths
    are relative, the function returns: every walk ends at the latest at
    the empty path. *)
Theorem GetFilesSplitByOwners_returns (isfile : string -> bool)
    (files : list File) (max_depth : Z) :
  isfile "OWNERS" = true ->
  Forall (fun f => relative (snd f)) files ->
  exists fuel m, GetFilesSplitByOwners isfile fuel files max_depth = Val m.
Proof.
  intros Hroot Hrel.
  exists (S (list_max (map (start_length max_depth) files))).
  apply split_loop_total; try assumption.
  apply Forall_forall. intros f Hf.
  pose proof (proj1 (list_max_le (map (start_length max_depth) files)
                       (list_max (map (start_length max_depth) files)))
                (le_n _)) as H.
  rewrite Forall_forall in H.
  specialize (H _ (in_map (start_length max_depth) _ _ Hf)). lia.
Qed.

Lemma GetFilesSplitByOwners_returns_witness :
  (fun p => p =? "OWNERS") "OWNERS" = true /\
  Forall (fun f : File => relative (snd f)) scenario_files /\
  exists fuel m,
    GetFilesSplitByOwners (fun p => p =? "OWNERS") fuel scenario_files 0
    = Val m.
Proof.
  split; [reflexivity|].
  assert (H : Forall (fun f : File => relative (snd f)) scenario_files)
    by (repeat constructor).
  split; [exact H|].
  apply (GetFilesSplitByOwners_returns (fun p => p =? "OWNERS")
           scenario_files 0 eq_refl H).
Defined.

(** *** The ancestors of a normalized relative directory *)

Lemma rfind_last_sep (x l : string) (c : ascii) :
  has_char c l = false ->
  rfind (x +++ String c l) c = Z.of_nat (String.length x).
Proof.
  intros Hl. induction x as [|a x IH].
  - cbn [append rfind String.length].
    assert (E : rfind l c = (-1)%Z).
    { clear -Hl. induction l as [|b l IH]; [reflexivity|].
      simpl in Hl. apply orb_false_iff in Hl. destruct Hl as [Hb Hl].
      cbn [rfind]. rewrite (IH Hl), Hb. reflexivity. }
    rewrite E, Ascii.eqb_refl. reflexivity.
  - cbn [append rfind String.length]. rewrite IH.
    destruct (0 <=? Z.of_nat (String.length x))%Z eqn:E; [lia|].
    apply Z.leb_gt in E. lia.
Qed.

Lemma slice_to_last_sep (x l : string) (c : ascii) :
  slice_to (x +++ String c l) (Z.of_nat (String.length x) + 1)
  = x +++ String c "".
Proof.
  unfold slice_to.
  replace (Z.to_nat (Z.of_nat (String.length x) + 1))
    with (S (String.length x)) by lia.
  induction x as [|a x IH].
  - cbn. now rewrite substring_0_0.
  - cbn [append String.length]. simpl substring. now rewrite IH.
Qed.

Lemma rstrip_last_sep (x : string) (c : ascii) :
  x <> "" -> endswith x c = false -> rstrip (x +++ String c "") c = x.
Proof.
  induction x as [|a x IH]; [congruence|]. intros _ He.
  destruct x as [|b x].
  - simpl in He. cbn. now rewrite Ascii.eqb_refl, He.
  - assert (Hx : rstrip (String b x +++ String c "") c = String b x)
      by (apply IH; [discriminate | exact He]).
    cbn [append rstrip] in *. now rewrite Hx.
Qed.

Lemma join_removelast (cs : list string) (l : string) :
  cs <> [] ->
  Str.join "/" (cs ++ [l]) = Str.join "/" cs +++ "/" +++ l.
Proof.
  induction cs as [|a cs IH]; [congruence|]. intros _.
  destruct cs as [|b cs]; [reflexivity|].
  cbn [app]. rewrite (join_cons "/" a) by discriminate.
  cbn [app] in IH. rewrite IH by discriminate.
  rewrite (join_cons "/" a (b :: cs)) by discriminate.
  now rewrite !append_assoc.
Qed.

Lemma join_ok_endswith (cs : list string) :
  Forall comp_ok cs -> endswith (Str.join "/" cs) sep = false.
Proof.
  induction 1 as [|a cs Ha Hcs IH]; [reflexivity|].
  destruct cs as [|b cs]; [now apply comp_ok_endswith|].
  rewrite join_cons by discriminate.
  assert (Hne : Str.join "/" (b :: cs) <> "").
  { inversion Hcs as [|? ? [Hb _] _]; subst.
    destruct cs; cbn; destruct b; try congruence; discriminate. }
  rewrite endswith_app.
  - change ("/" +++ Str.join "/" (b :: cs))
      with (String sep ("" +++ Str.join "/" (b :: cs))).
    cbn [append]. destruct (Str.join "/" (b :: cs)); [congruence | exact IH].
  - discriminate.
Qed.

Lemma join_ok_nonempty (cs : list string) :
  cs <> [] -> Forall comp_ok cs -> Str.join "/" cs <> "".
Proof.
  intros Hne H. destruct H as [|a cs [Ha _] _]; [congruence|].
  destruct cs; cbn; destruct a; try congruence; discriminate.
Qed.

(** The [dirname] of a join of components drops the last component. *)
Lemma dirname_join (cs : list string) :
  Forall comp_ok cs ->
  dirname (Str.join "/" cs) = Str.join "/" (removelast cs).
Proof.
  intros Hok. induction cs as [|l cs' _] using rev_ind.
  - reflexivity.
  - rewrite removelast_last. apply Forall_app in Hok.
    destruct Hok as [Hcs' Hl]. inversion Hl as [|? ? [Hl1 Hl2] _]; subst.
    destruct cs' as [|a cs'].
    + cbn [app Str.join]. unfold dirname.
      assert (E : rfind l sep = (-1)%Z).
      { clear -Hl2. induction l as [|b l IH]; [reflexivity|].
        simpl in Hl2. apply orb_false_iff in Hl2. destruct Hl2 as [Hb Hl].
        cbn [rfind]. rewrite (IH Hl), Hb. reflexivity. }
      rewrite E. unfold slice_to. simpl Z.to_nat. now rewrite substring_0_0.
    + rewrite join_removelast by discriminate.
      set (x := Str.join "/" (a :: cs')).
      assert (Hx : x <> "") by (apply join_ok_nonempty; [discriminate | assumption]).
      assert (Hrel : relative x) by (now apply join_ok_relative).
      assert (Hend : endswith x sep = false) by (now apply join_ok_endswith).
      change (x +++ "/" +++ l) with (x +++ String sep l).
      unfold dirname. rewrite (rfind_last_sep x l sep Hl2).
      rewrite slice_to_last_sep.
      assert (Hall : all_char sep (x +++ String sep "") = false).
      { destruct x as [|c x]; [congruence|]. unfold relative in Hrel.
        simpl in Hrel. rewrite andb_true_r in Hrel. simpl.
        unfold sep. now rewrite Hrel. }
      rewrite Hall.
      replace (truthy (x +++ String sep "")) with true
        by (destruct x; [congruence | reflexivity]).
      simpl. now apply rstrip_last_sep.
Qed.

Lemma removelast_length {A} (l : list A) :
  length (removelast l) = length l - 1.
Proof.
  induction l as [|a l IH]; [reflexivity|].
  destruct l as [|b l]; [reflexivity|].
  change (removelast (a :: b :: l)) with (a :: removelast (b :: l)).
  cbn [length] in *. lia.
Qed.

Lemma ancestor_join (n : nat) : forall cs,
  Forall comp_ok cs ->
  ancestor n (Str.join "/" cs)
  = Str.join "/" (firstn (length cs - n) cs).
Proof.
  induction n as [|n IH]; intros cs Hok.
  - rewrite Nat.sub_0_r, firstn_all. reflexivity.
  - rewrite ancestor_S, (dirname_join cs Hok).
    rewrite IH by (now apply Forall_removelast).
    rewrite removelast_length.
    rewrite (removelast_firstn_len cs).
    rewrite firstn_firstn. f_equal. f_equal. lia.
Qed.

(** X5. The key of a relative file is an ancestor of the file's directory:
    it is the join of the first [j] components of the normalized directory
    (the empty path when [j = 0]), and with [max_depth >= 1] it has at most
    [max_depth] components. *)
Theorem GetFilesSplitByOwners_key_is_ancestor (isfile : string -> bool)
    (fuel : nat) (files : list File) (max_depth : Z) (m : Groups)
    (k : string) (vs : list File) (f : File) :
  GetFilesSplitByOwners isfile fuel files max_depth = Val m ->
  In (k, vs) m -> In f vs -> relative (snd f) ->
  exists j,
    k = Str.join "/"
          (firstn j (split sep (normpath (dirname (snd f))))) /\
    ((1 <= max_depth)%Z -> j <= Z.to_nat max_depth).
Proof.
  intros H Hin Hf Hrel.
  apply split_loop_inv in H; [|apply Inv_empty].
  destruct H as [[_ [_ Hmem]] _].
  destruct (Hmem k vs f Hin Hf) as [d0 [n [Hstart [-> _]]]].
  destruct (Z_lt_le_dec max_depth 1) as [Hmd|Hmd].
  - rewrite (start_dir_unlimited _ _ Hmd) in Hstart.
    inversion Hstart; subst d0.
    destruct (normpath_relative _ (dirname_relative _ Hrel))
      as [cs [Hne [Hok Hd]]].
    assert (Hsplit : split sep (normpath (dirname (snd f))) = cs).
    { rewrite Hd. apply (split_join sep cs Hne).
      now apply Forall_comp_ok_no_sep. }
    rewrite Hsplit, Hd, (ancestor_join n cs Hok).
    exists (length cs - n). split; [reflexivity | lia].
  - destruct (start_dir_limited _ _ Hrel Hmd)
      as [cs [Hne [Hok [Hd [Hsplit Hs]]]]].
    rewrite Hs in Hstart. inversion Hstart; subst d0.
    rewrite Hsplit, ancestor_join by (now apply Forall_firstn).
    rewrite firstn_firstn.
    eexists. split; [reflexivity|]. intros _. lia.
Qed.

Lemma GetFilesSplitByOwners_key_is_ancestor_witness :
  GetFilesSplitByOwners scenario_isfile 3 scenario_files 0
    = Val scenario_groups /\
  In ("a", [("M", "a/c/y.txt")]) scenario_groups /\
  In ("M", "a/c/y.txt") [("M", "a/c/y.txt")] /\
  relative (snd ("M", "a/c/y.txt")) /\
  exists j,
    "a" = Str.join "/"
            (firstn j
               (split sep (normpath (dirname (snd ("M", "a/c/y.txt")))))) /\
    ((1 <= 0)%Z -> j <= Z.to_nat 0).
Proof.
  assert (H1 : In ("a", [("M", "a/c/y.txt")]) scenario_groups)
    by (right; left; reflexivity).
  assert (H2 : In ("M", "a/c/y.txt") [("M", "a/c/y.txt")])
    by (left; reflexivity).
  split; [reflexivity|]. split; [exact H1|]. split; [exact H2|].
  split; [reflexivity|].
  apply (GetFilesSplitByOwners_key_is_ancestor scenario_isfile 3
           scenario_files 0 scenario_groups "a" [("M", "a/c/y.txt")]
           ("M", "a/c/y.txt") eq_refl H1 H2 eq_refl).
Defined.

End OwnersExtra.


(** ** The depth limit of the search *)

Module OwnersDepth.
Import Str StrFacts Path PathFacts Owners OwnersFacts Scenario OwnersExtra.

(** A join of fewer components is another path. *)
Lemma join_firstn_neq (j : nat) (cs : list string) :
  Forall comp_ok cs -> j < length cs ->
  Str.join "/" (firstn j cs) <> Str.join "/" cs.
Proof.
  intros Hok Hj E.
  assert (Hne : cs <> []) by (destruct cs; [simpl in Hj; lia | discriminate]).
  destruct j as [|j].
  - cbn [firstn Str.join] in E. symmetry in E.
    now apply (join_ok_nonempty cs Hne Hok).
  - assert (H1 : split sep (Str.join "/" cs) = cs)
      by (apply (split_join sep cs Hne); now apply Forall_comp_ok_no_sep).
    assert (H2 : split sep (Str.join "/" (firstn (S j) cs))
                 = firstn (S j) cs).
    { apply (split_join sep).
      - destruct cs; [congruence | discriminate].
      - apply Forall_comp_ok_no_sep. now apply Forall_firstn. }
    rewrite E, H1 in H2. apply (f_equal (@length string)) in H2.
    rewrite length_firstn in H2. lia.
Qed.

(** C4, as the code has it. For a file with a repository-relative path
    that [GetFilesSplitByOwners] files under the key [k], the search went
    up from the directory [s] to [k], the first directory on the way
    with an OWNERS file.  With [max_depth >= 1], [s] is made of the first
    [max_depth] components of the file's normalized directory: it has at
    most [max_depth] components, it is a string prefix of the directory,
    and it is another path than the directory exactly when the directory
    has more than [max_depth] components, in which case the key is not
    the directory either, whatever OWNERS files there are below [s].
    With [max_depth < 1], [s] is the directory itself. *)
Theorem GetFilesSplitByOwners_search_start (isfile : string -> bool)
    (fuel : nat) (files : list File) (max_depth : Z) (m : Groups)
    (k : string) (vs : list File) (f : File) :
  GetFilesSplitByOwners isfile fuel files max_depth = Val m ->
  In (k, vs) m -> In f vs -> relative (snd f) ->
  exists s n,
    start_dir (snd f) max_depth = Val s /\
    k = ancestor n s /\
    has_owners isfile k = true /\
    (forall j, j < n -> has_owners isfile (ancestor j s) = false) /\
    ((max_depth < 1)%Z -> s = normpath (dirname (snd f))) /\
    ((1 <= max_depth)%Z ->
     split sep s
     = firstn (Z.to_nat max_depth)
         (split sep (normpath (dirname (snd f)))) /\
     length (split sep s) <= Z.to_nat max_depth /\
     startswith (normpath (dirname (snd f))) s = true /\
     (s <> normpath (dirname (snd f)) <->
      Z.to_nat max_depth
      < length (split sep (normpath (dirname (snd f))))) /\
     (Z.to_nat max_depth < length (split sep (normpath (dirname (snd f))))
      -> k <> normpath (dirname (snd f)))).
Proof.
  intros H Hin Hf Hrel.
  apply split_loop_inv in H; [|apply Inv_empty].
  destruct H as [[_ [_ Hmem]] _].
  destruct (Hmem k vs f Hin Hf) as [s [n [Hstart [Hk [Hown Hlow]]]]].
  exists s, n. split; [exact Hstart|]. split; [exact Hk|].
  split; [exact Hown|]. split; [exact Hlow|].
  destruct (start_dir_max_depth (snd f) max_depth Hrel) as [Hun Hlim].
  split.
  - intros Hmd. rewrite (Hun Hmd) in Hstart. now inversion Hstart.
  - intros Hmd. destruct (Hlim Hmd) as [s' [Hs' [H1 [H2 [H3 H4]]]]].
    rewrite Hs' in Hstart. inversion Hstart; subst s'.
    split; [exact H1|]. split; [exact H2|]. split; [exact H3|].
    split; [exact H4|].
    intros Hlt.
    destruct (start_dir_limited (snd f) max_depth Hrel Hmd)
      as [cs [Hne [Hok [Hd [Hsplit Hs]]]]].
    rewrite Hs' in Hs. inversion Hs as [Es].
    rewrite Hsplit in Hlt. rewrite Hk, Es, Hd.
    rewrite ancestor_join by (now apply Forall_firstn).
    rewrite firstn_firstn.
    apply join_firstn_neq; [exact Hok|].
    rewrite length_firstn. lia.
Qed.

Lemma GetFilesSplitByOwners_search_start_witness :
  GetFilesSplitByOwners deep_isfile 3 [("M", "a/b/c/d/e/f.txt")] 2
  = Val [("a", [("M", "a/b/c/d/e/f.txt")])] /\
  In ("a", [("M", "a/b/c/d/e/f.txt")])
     [("a", [("M", "a/b/c/d/e/f.txt")])] /\
  In ("M", "a/b/c/d/e/f.txt") [("M", "a/b/c/d/e/f.txt")] /\
  relative (snd ("M", "a/b/c/d/e/f.txt")) /\
  exists s n,
    start_dir (snd ("M", "a/b/c/d/e/f.txt")) 2 = Val s /\
    "a" = ancestor n s /\
    has_owners deep_isfile "a" = true /\
    (forall j, j < n -> has_owners deep_isfile (ancestor j s) = false) /\
    ((2 < 1)%Z -> s = normpath (dirname (snd ("M", "a/b/c/d/e/f.txt")))) /\
    ((1 <= 2)%Z ->
     split sep s
     = firstn (Z.to_nat 2)
         (split sep (normpath (dirname (snd ("M", "a/b/c/d/e/f.txt"))))) /\
     length (split sep s) <= Z.to_nat 2 /\
     startswith (normpath (dirname (snd ("M", "a/b/c/d/e/f.txt")))) s
     = true /\
     (s <> normpath (dirname (snd ("M", "a/b/c/d/e/f.txt"))) <->
      Z.to_nat 2
      < length
          (split sep
             (normpath (dirname (snd ("M", "a/b/c/d/e/f.txt")))))) /\
     (Z.to_nat 2
      < length
          (split sep (normpath (dirname (snd ("M", "a/b/c/d/e/f.txt")))))
      -> "a" <> normpath (dirname (snd ("M", "a/b/c/d/e/f.txt"))))).
Proof.
  assert (H1 : In ("a", [("M", "a/b/c/d/e/f.txt")])
                  [("a", [("M", "a/b/c/d/e/f.txt")])])
    by (left; reflexivity).
  assert (H2 : In ("M", "a/b/c/d/e/f.txt") [("M", "a/b/c/d/e/f.txt")])
    by (left; reflexivity).
  split; [reflexivity|]. split; [exact H1|]. split; [exact H2|].
  split; [reflexivity|].
  apply (GetFilesSplitByOwners_search_start deep_isfile 3
           [("M", "a/b/c/d/e/f.txt")] 2
           [("a", [("M", "a/b/c/d/e/f.txt")])] "a"
           [("M", "a/b/c/d/e/f.txt")] ("M", "a/b/c/d/e/f.txt")
           eq_refl H1 H2 eq_refl).
Defined.

(** A directory of exactly [max_depth] components has at least
    [max_depth] of them, and the search for its files starts from the full
    directory: [a/b/x.txt] with [max_depth = 2] starts from [a/b] and is
    filed there.  An absolute path loses its root: the search for
    [/a/b/c/x.txt] starts from the relative path [a], which is no prefix
    of the directory. *)
Lemma GetFilesSplitByOwners_starts_at_full_directory :
  normpath (dirname "a/b/x.txt") = "a/b" /\
  2 <= length (split sep (normpath (dirname "a/b/x.txt"))) /\
  start_dir "a/b/x.txt" 2 = Val (normpath (dirname "a/b/x.txt")) /\
  GetFilesSplitByOwners scenario_isfile 3 [("M", "a/b/x.txt")] 2
  = Val [("a/b", [("M", "a/b/x.txt")])] /\
  start_dir "/a/b/c/x.txt" 2 = Val "a" /\
  startswith (normpath (dirname "/a/b/c/x.txt")) "a" = false.
Proof. vm_compute. repeat split. lia. Qed.

End OwnersDepth.


(** ** Descriptions and comments *)

Module DescriptionExtra.
Import Str StrFacts Description DescriptionFacts.

(** [sub in s] *)
Definition occurs (sub s : string) : Prop :=
  exists before after, s = before +++ sub +++ after.

Lemma occurs_skip (c0 : ascii) (sub' x u : string) :
  has_char c0 x = false ->
  occurs (String c0 sub') (x +++ u) -> occurs (String c0 sub') u.
Proof.
  induction x as [|a x IH]; intros Hx H; [exact H|].
  simpl in Hx. apply orb_false_iff in Hx. destruct Hx as [Ha Hx].
  destruct H as [before [after E]]. destruct before as [|b before].
  - cbn [append] in E. inversion E; subst.
    rewrite Ascii.eqb_refl in Ha. discriminate.
  - cbn [append] in E. inversion E; subst. apply IH; [assumption|].
    now exists before, after.
Qed.

Lemma occurs_startswith (sub s : string) :
  startswith s sub = true -> occurs sub s.
Proof.
  intros H. destruct (startswith_split _ _ H) as [t ->]. now exists "", t.
Qed.

Section Replace.

Variables (c0 r0 : ascii) (old' new' : string).
Hypothesis new_without_c0 : has_char c0 (String r0 new') = false.
Hypothesis old_without_r0 : has_char r0 old' = false.

(** After the replacement no occurrence of the pattern is left. *)
Lemma replace_leaves_none (n : nat) : forall t,
  String.length t <= n ->
  ~ occurs (String c0 old') (replace t (String c0 old') (String r0 new')).
Proof.
  induction n as [|n IH]; intros t Hlen.
  - destruct t; [|simpl in Hlen; lia].
    intros [before [after E]]. destruct before; discriminate.
  - destruct t as [|c s].
    + intros [before [after E]]. destruct before; discriminate.
    + destruct (startswith (String c s) (String c0 old')) eqn:E.
      * destruct (startswith_split _ _ E) as [t' Ht].
        rewrite Ht, replace_match. intros H.
        apply (occurs_skip _ _ _ _ new_without_c0) in H.
        revert H. apply IH.
        rewrite Ht, append_length in Hlen. simpl in Hlen. lia.
      * rewrite (replace_nomatch _ _ _ _ _ E).
        intros [before [after Eq]]. destruct before as [|b before].
        -- cbn [append] in Eq. inversion Eq; subst.
           assert (F : startswith
                         (replace s (String c0 old') (String r0 new'))
                         old' = true).
           { match goal with H : replace _ _ _ = _ |- _ => rewrite H end.
             apply startswith_append. }
           apply (startswith_replace c0 old' (String r0 new') r0 new'
                    eq_refl old' s old_without_r0) in F.
           cbn [startswith] in E. now rewrite Ascii.eqb_refl, F in E.
        -- cbn [append] in Eq. inversion Eq; subst.
           apply (IH s); [simpl in Hlen; lia|]. now exists before, after.
Qed.

End Replace.

(** X6. Text before the first placeholder that has no [$] is copied and
    the placeholder is replaced by [/] and the directory, the rest being
    substituted in turn; a text without [$] is returned as it is. *)
Theorem FormatDescriptionOrComment_substitutes (a b directory : string) :
  has_char "$" a = false ->
  FormatDescriptionOrComment (a +++ "$directory" +++ b) directory
  = a +++ ("/" +++ directory) +++ FormatDescriptionOrComment b directory /\
  FormatDescriptionOrComment a directory = a.
Proof.
  intros Ha. unfold FormatDescriptionOrComment. split.
  - rewrite (replace_copy "$"%char "directory" _ a _ Ha).
    now rewrite (replace_match "$"%char "directory").
  - rewrite <- (append_empty_r a) at 1.
    rewrite (replace_copy "$"%char "directory" _ a "" Ha).
    cbn. apply append_empty_r.
Qed.

Lemma FormatDescriptionOrComment_substitutes_witness :
  has_char "$" "Clean up " = false /\
  FormatDescriptionOrComment ("Clean up " +++ "$directory" +++ ".") "ui/base"
  = "Clean up " +++ ("/" +++ "ui/base")
    +++ FormatDescriptionOrComment "." "ui/base" /\
  FormatDescriptionOrComment "Clean up " "ui/base" = "Clean up ".
Proof.
  split; [reflexivity|].
  apply (FormatDescriptionOrComment_substitutes "Clean up " "." "ui/base").
  reflexivity.
Defined.

(** X7. When the directory has no [$], no placeholder is left in the
    result, whatever the text. *)
Theorem FormatDescriptionOrComment_leaves_no_placeholder
    (txt directory : string) :
  has_char "$" directory = false ->
  ~ occurs "$directory" (FormatDescriptionOrComment txt directory).
Proof.
  intros H. unfold FormatDescriptionOrComment.
  apply (replace_leaves_none "$"%char "/"%char "directory" directory H
           eq_refl (String.length txt) txt (le_n _)).
Qed.

Lemma FormatDescriptionOrComment_leaves_no_placeholder_witness :
  has_char "$" "ui/base" = false /\
  ~ occurs "$directory"
      (FormatDescriptionOrComment "$$directory in $directory" "ui/base").
Proof.
  split; [reflexivity|].
  apply (FormatDescriptionOrComment_leaves_no_placeholder
           "$$directory in $directory" "ui/base").
  reflexivity.
Defined.

(** X8. [AddUploadedByGitClSplitToDescription] raises [IndexError] exactly
    when the description has no line outside its footers, and returns a
    text exactly when it has one. *)
Theorem AddUploadedByGitClSplitToDescription_IndexError
    (split_footers : string -> list string * list string)
    (description : string) :
  (AddUploadedByGitClSplitToDescription split_footers description
   = Raise IndexError <-> fst (split_footers description) = []) /\
  ((exists text,
      AddUploadedByGitClSplitToDescription split_footers description
      = Val text) <-> fst (split_footers description) <> []).
Proof.
  unfold AddUploadedByGitClSplitToDescription.
  destruct (split_footers description) as [body footers]. cbn [fst snd].
  destruct body as [|l body]; cbn [last_item].
  - split; [tauto|]. split; [intros [text H]; discriminate | congruence].
  - split; [split; discriminate|].
    split; [discriminate | intros _; eexists; reflexivity].
Qed.

(** X9. The added line always directly follows a blank line, and the
    rewrite adds no second one: the lines before the added line are the
    lines of the description that are not footers when the last of them
    is blank, and these lines with one empty line otherwise. *)
Theorem AddUploadedByGitClSplitToDescription_after_blank
    (split_footers : string -> list string * list string)
    (description : string) :
  fst (split_footers description) <> [] ->
  exists pre,
    AddUploadedByGitClSplitToDescription split_footers description
    = Val (Str.join nl
             (pre ++ [uploaded_by_line]
                  ++ footer_block (snd (split_footers description)))) /\
    (pre = fst (split_footers description) <->
     blank (last (fst (split_footers description)) "")) /\
    (pre = fst (split_footers description) ++ [""] <->
     ~ blank (last (fst (split_footers description)) "")) /\
    pre <> [] /\ blank (last pre "x").
Proof.
  intros Hne. unfold AddUploadedByGitClSplitToDescription.
  destruct (split_footers description) as [body footers]. cbn [fst snd] in *.
  destruct body as [|l body]; [congruence|]. cbn [last_item].
  set (lines := l :: body) in *.
  assert (Hlast : last lines "x" = last lines "").
  { clear. subst lines. revert l. induction body as [|b body IH]; intros l;
      [reflexivity|]. apply (IH b). }
  destruct (truthy (last lines "") && negb (isspace (last lines "")))
    eqn:B.
  - assert (Hnb : ~ blank (last lines ""))
      by (intros Hb; apply blank_dec in Hb; congruence).
    exists (lines ++ [""]). split.
    + f_equal. destruct footers; [reflexivity|]. now rewrite <- !app_assoc.
    + split; [split; [intros E; now apply app_one_neq in E | tauto]|].
      split; [tauto|].
      split; [now destruct lines|]. left. apply last_last.
  - assert (Hb : blank (last lines "")) by now apply blank_dec.
    exists lines. split.
    + f_equal. destruct footers; [reflexivity|]. now rewrite <- !app_assoc.
    + split; [tauto|].
      split; [split; [intros E; symmetry in E; now apply app_one_neq in E
                     | tauto]|].
      split; [discriminate|]. now rewrite Hlast.
Qed.

Lemma AddUploadedByGitClSplitToDescription_after_blank_witness :
  fst (["Fix crash"; "  "], ["Bug: 123"]) <> [] /\
  exists pre,
    AddUploadedByGitClSplitToDescription
      (fun _ => (["Fix crash"; "  "], ["Bug: 123"]))
      ("Fix crash" +++ nl +++ "  " +++ nl +++ "Bug: 123")
    = Val (Str.join nl
             (pre ++ [uploaded_by_line] ++ footer_block ["Bug: 123"])) /\
    (pre = ["Fix crash"; "  "] <-> blank (last ["Fix crash"; "  "] "")) /\
    (pre = ["Fix crash"; "  "] ++ [""]
     <-> ~ blank (last ["Fix crash"; "  "] "")) /\
    pre <> [] /\ blank (last pre "x").
Proof.
  split; [discriminate|].
  apply (AddUploadedByGitClSplitToDescription_after_blank
           (fun _ => (["Fix crash"; "  "], ["Bug: 123"]))
           ("Fix crash" +++ nl +++ "  " +++ nl +++ "Bug: 123")).
  discriminate.
Defined.

End DescriptionExtra.


(** ** The workflow *)

Module WorkflowExtra.
Import Str StrFacts Owners OwnersFacts Description Workflow Scenario.
Import WorkflowFacts.

(** *** Branch names *)

Lemma append_inv_head (p a b : string) : p +++ a = p +++ b -> a = b.
Proof.
  induction p as [|c p IH]; simpl; [auto|]. intros H. inversion H. auto.
Qed.

Lemma append_inv_tail (a b suffix : string) :
  a +++ suffix = b +++ suffix -> a = b.
Proof.
  revert b. induction a as [|x a IH]; intros b H.
  - destruct b as [|y b]; [reflexivity|].
    apply (f_equal String.length) in H. simpl in H.
    rewrite DescriptionFacts.append_length in H. lia.
  - destruct b as [|y b].
    + apply (f_equal String.length) in H. simpl in H.
      rewrite DescriptionFacts.append_length in H. lia.
    + simpl in H. inversion H. f_equal. now apply IH.
Qed.

Lemma branch_name_inj (prefix d1 d2 : string) :
  branch_name prefix d1 = branch_name prefix d2 -> d1 = d2.
Proof.
  unfold branch_name. intros H.
  apply append_inv_head, append_inv_head in H.
  now apply append_inv_tail in H.
Qed.

(** X10. The groups of one run have pairwise distinct branch names. *)
Theorem branch_names_distinct (isfile : string -> bool) (fuel : nat)
    (files : list File) (max_depth : Z) (m : Groups) (prefix : string) :
  GetFilesSplitByOwners isfile fuel files max_depth = Val m ->
  NoDup (map (fun k => branch_name prefix
                         (Str.replace k (String Path.sep "") "/"))
           (keys m)).
Proof.
  intros H. apply split_loop_inv in H; [|apply Inv_empty].
  destruct H as [[Hnd _] _]. induction Hnd as [|k ks Hk Hks IH].
  - constructor.
  - cbn [map]. constructor; [|exact IH].
    intros Hin. apply in_map_iff in Hin. destruct Hin as [k' [E Hk']].
    rewrite !replace_sep_id in E. apply branch_name_inj in E.
    now subst k'.
Qed.

Lemma branch_names_distinct_witness :
  GetFilesSplitByOwners scenario_isfile 3 scenario_files 0
    = Val scenario_groups /\
  NoDup (map (fun k => branch_name "feature"
                         (Str.replace k (String Path.sep "") "/"))
           (keys scenario_groups)).
Proof.
  split; [reflexivity|].
  apply (branch_names_distinct scenario_isfile 3 scenario_files 0
           scenario_groups "feature").
  reflexivity.
Defined.

(** *** [CreateBranchForDirectory] *)

(** X11. [CreateBranchForDirectory] returns [False] and does nothing when
    the branch exists; otherwise it runs [git checkout -t upstream -b] once
    and either returns [True], the branch being added and made current, or
    raises [CalledProcessError], the branches being left as they were. *)
Theorem CreateBranchForDirectory_outcomes (env : Env)
    (prefix directory upstream : string) (w : World) :
  let name := branch_name prefix directory in
  let r := CreateBranchForDirectory env prefix directory upstream w in
  (In name (branches w) /\ r = (Val false, w)) \/
  (~ In name (branches w) /\
   trace (snd r) = EGit (CheckoutNewBranch upstream name) :: trace w /\
   ((fst r = Val true /\ branches (snd r) = branches w ++ [name] /\
     current (snd r) = Some name) \/
    (fst r = Raise (CalledProcessError
                      (git_stderr env (CheckoutNewBranch upstream name) w)) /\
     branches (snd r) = branches w /\ current (snd r) = current w))).
Proof.
  intros name r. subst r.
  destruct (mem name (branches w)) eqn:E.
  - left. split; [now apply mem_In|].
    now apply CreateBranchForDirectory_existing.
  - right. split; [intros H; apply mem_In in H; congruence|].
    unfold CreateBranchForDirectory, bind, git_branches, get, git_run.
    fold (branch_name prefix directory). fold name. rewrite E.
    destruct (git_ok env (CheckoutNewBranch upstream name) w);
      cbn; auto.
Qed.

(** *** The files of a group *)

Lemma filter_partition_perm {A} (f : A -> bool) (l : list A) :
  Permutation (filter f l ++ filter (fun x => negb (f x)) l) l.
Proof.
  induction l as [|a l IH]; [constructor|]. cbn [filter].
  destruct (f a); cbn [negb app].
  - now constructor.
  - symmetry. apply Permutation_cons_app. now symmetry.
Qed.

(** X12. The paths given to [git rm] and to [git checkout] are together
    the paths of the members of the group, each taken once: no member is
    left out and no file of another group is touched. *)
Theorem sort_by_action_partition (env : Env) (repository_root : string)
    (files : list File) :
  Permutation
    (fst (sort_by_action env repository_root files)
       ++ snd (sort_by_action env repository_root files))
    (map (member_path env repository_root) files).
Proof.
  rewrite sort_by_action_spec. cbn [fst snd]. rewrite <- map_app.
  apply Permutation_map, filter_partition_perm.
Qed.

(** *** Committing *)

(** X13. The temporary file of the commit message is removed whether
    [git commit] succeeds or raises: the removal is the last event of the
    block in both cases. *)
Theorem commit_changes_removes_file (env : Env)
    (description directory : string) (w : World) :
  let r := commit_changes env description directory w in
  trace (snd r)
  = [ERemoveFile (tmp_file env); EGit (Commit (tmp_file env));
     EFileWrite (tmp_file env)
       (FormatDescriptionOrComment description directory);
     ETempFile (tmp_file env)] ++ trace w /\
  branches (snd r) = branches w /\
  fst r = if git_ok env (Commit (tmp_file env))
               (log (EFileWrite (tmp_file env)
                       (FormatDescriptionOrComment description directory))
                  (log (ETempFile (tmp_file env)) w))
          then Val tt
          else Raise (CalledProcessError
                        (git_stderr env (Commit (tmp_file env))
                           (log (EFileWrite (tmp_file env)
                                   (FormatDescriptionOrComment description
                                      directory))
                              (log (ETempFile (tmp_file env)) w)))).
Proof.
  destruct w as [bs cur tr].
  unfold commit_changes, temporary_file, bind, FileWrite, emit, git_run.
  cbn [log branches current trace].
  destruct (git_ok env (Commit (tmp_file env)) _); cbn; auto.
Qed.

(** *** A commit that fails *)

Ltac steps_with tac :=
  repeat first
    [ apply steps_ret | apply steps_lift | apply steps_get
    | apply steps_emit; tac | apply steps_git_run; tac
    | apply steps_cmd_upload; tac | apply steps_AskForData; tac
    | apply steps_when
    | apply steps_temporary_file; [tac | tac | intros ?]
    | apply steps_bind; [|intros ?]
    | match goal with
      | |- steps _ (if ?b then _ else _) => destruct b
      | |- steps _ (match ?x with _ => _ end) => destruct x
      end ].

(** When [m] never completes normally, what follows it does not run. *)
Lemma steps_bind_stop {A B} (P : Event -> Prop) (m : M A) (k : A -> M B) :
  (forall w a w', m w <> (Val a, w')) ->
  steps P m -> steps P (bind m k).
Proof.
  intros Hstop Hm w o w' H. unfold bind in H.
  destruct (m w) as [[a|z|e|] w1] eqn:E;
    [now apply Hstop in E| | |];
    destruct (Hm _ _ _ E) as [Hi [evs [Ht Hf]]];
    inversion H; subst; split; try assumption; now exists evs.
Qed.

(** Neither an upload nor a comment. *)
Definition local_event (e : Event) : Prop :=
  match e with
  | EUpload _ | EAddComment _ => False
  | _ => True
  end.

(** X14. When [git commit] fails, [UploadCl] uploads nothing and posts no
    comment, and it ends with [CalledProcessError] unless the group was
    skipped because its branch exists. *)
Theorem UploadCl_failed_commit (env : Env)
    (refactor_branch refactor_branch_upstream directory : string)
    (files : list File) (description : string) (comment : option string)
    (reviewers : list string) (cq_dry_run enable_auto_submit : bool)
    (topic : option string) (repository_root : string) (w : World) :
  (forall w0, git_ok env (Commit (tmp_file env)) w0 = false) ->
  (exists evs,
     trace (snd (UploadCl env refactor_branch refactor_branch_upstream
                   directory files description comment reviewers
                   cq_dry_run enable_auto_submit topic repository_root w))
     = evs ++ trace w /\ Forall local_event evs) /\
  (In (branch_name refactor_branch directory) (branches w) \/
   exists stderr,
     fst (UploadCl env refactor_branch refactor_branch_upstream directory
            files description comment reviewers cq_dry_run
            enable_auto_submit topic repository_root w)
     = Raise (CalledProcessError stderr)).
Proof.
  intros Hcommit. split.
  - assert (Hs : steps local_event
                   (UploadCl env refactor_branch refactor_branch_upstream
                      directory files description comment reviewers
                      cq_dry_run enable_auto_submit topic repository_root)).
    { unfold UploadCl. apply steps_bind.
      - unfold CreateBranchForDirectory, git_branches.
        steps_with ltac:(exact I).
      - intros created. destruct (negb created);
          [apply steps_emit; exact I|].
        apply steps_bind;
          [unfold checkout_changes; steps_with ltac:(exact I)|].
        intros _. apply steps_bind_stop.
        + intros w0 a w0'. unfold commit_changes, temporary_file, bind,
            FileWrite, emit, git_run. rewrite Hcommit. discriminate.
        + unfold commit_changes, FileWrite. steps_with ltac:(exact I). }
    destruct (UploadCl env refactor_branch refactor_branch_upstream
                directory files description comment reviewers cq_dry_run
                enable_auto_submit topic repository_root w)
      as [o w'] eqn:E.
    destruct (Hs _ _ _ E) as [_ H]. exact H.
  - destruct (mem (branch_name refactor_branch directory) (branches w))
      eqn:E; [left; now apply mem_In|]. right.
    unfold UploadCl, CreateBranchForDirectory, checkout_changes,
      commit_changes, temporary_file, when, bind, git_branches, get,
      git_run, FileWrite, emit, ret.
    fold (branch_name refactor_branch directory). rewrite E.
    destruct (sort_by_action env repository_root files)
      as [deleted modified].
    destruct (git_ok env (CheckoutNewBranch _ _) w); [|cbn; eauto].
    cbn [negb].
    destruct deleted as [|d ds], modified as [|f fs]; cbn [nonempty];
      repeat match goal with
        | |- context [git_ok env (Commit ?t) ?w0] => rewrite Hcommit
        | |- context [git_ok env ?c ?w0] => destruct (git_ok env c w0)
        end; cbn; eauto.
Qed.

Lemma UploadCl_failed_commit_witness :
  (forall w0,
     git_ok commit_fails_env (Commit (tmp_file commit_fails_env)) w0
     = false) /\
  (exists evs,
     trace (snd (UploadCl commit_fails_env "feature" "origin/main" "a/b"
                   [("M", "a/b/x.txt")] "Fix crash" (Some "FYI")
                   ["owner@example.org"] false false None "/repo"
                   scenario_world))
     = evs ++ trace scenario_world /\ Forall local_event evs) /\
  (In (branch_name "feature" "a/b") (branches scenario_world) \/
   exists stderr,
     fst (UploadCl commit_fails_env "feature" "origin/main" "a/b"
            [("M", "a/b/x.txt")] "Fix crash" (Some "FYI")
            ["owner@example.org"] false false None "/repo" scenario_world)
     = Raise (CalledProcessError stderr)).
Proof.
  split; [intros w0; reflexivity|].
  apply (UploadCl_failed_commit commit_fails_env "feature" "origin/main"
           "a/b" [("M", "a/b/x.txt")] "Fix crash" (Some "FYI")
           ["owner@example.org"] false false None "/repo" scenario_world).
  intros w0. reflexivity.
Defined.

(** *** The comment *)

(** X15. With git commands that succeed and a configured comment, the
    comment is posted, with the directory substituted, as the last action
    on a new group, whatever status the upload returned. *)
Theorem UploadCl_comments_after_upload (env : Env)
    (refactor_branch refactor_branch_upstream directory : string)
    (files : list File) (description c : string)
    (reviewers : list string) (cq_dry_run enable_auto_submit : bool)
    (topic : option string) (repository_root : string) (w : World) :
  (forall cmd w0, git_ok env cmd w0 = true) ->
  ~ In (branch_name refactor_branch directory) (branches w) ->
  c <> "" ->
  exists w',
    UploadCl env refactor_branch refactor_branch_upstream directory files
      description (Some c) reviewers cq_dry_run enable_auto_submit topic
      repository_root w = (Val tt, w') /\
    hd_error (trace w')
    = Some (EAddComment (FormatDescriptionOrComment c directory)) /\
    In (EUpload (upload_arguments (Some c) reviewers cq_dry_run
                   enable_auto_submit topic)) (trace w').
Proof.
  intros Hgit Hnew Hc.
  assert (E : mem (branch_name refactor_branch directory) (branches w)
              = false).
  { destruct (mem _ (branches w)) eqn:E; [|reflexivity].
    now apply mem_In in E. }
  assert (Ht : truthy c = true) by (destruct c; [congruence | reflexivity]).
  unfold UploadCl.
  rewrite (bind_val _ _ _ _ _
             (CreateBranchForDirectory_new env _ _ _ _ E (Hgit _ _))).
  cbn [negb]. set (w1 := mkWorld _ _ _).
  rewrite (bind_val _ _ _ _ _ (checkout_changes_events env Hgit _ _ _ w1)).
  rewrite (bind_val _ _ _ _ _ (commit_changes_events env Hgit _ _ _)).
  rewrite (upload_and_comment_events env _ _ _ _ _ _
             (extend (commit_events env description directory)
                (extend (checkout_events env refactor_branch
                           repository_root files) w1))
             (branch_name refactor_branch directory) eq_refl).
  eexists. split; [reflexivity|].
  unfold upload_events. rewrite Ht. split; [reflexivity|].
  unfold extend. cbn [trace]. rewrite !in_app_iff. left. right. right.
  now left.
Qed.

Lemma UploadCl_comments_after_upload_witness :
  (forall cmd w0, git_ok (scenario_env 1 "y") cmd w0 = true) /\
  ~ In (branch_name "feature" "a/b") (branches scenario_world) /\
  "Please review $directory" <> "" /\
  exists w',
    UploadCl (scenario_env 1 "y") "feature" "origin/main" "a/b"
      [("M", "a/b/x.txt")] "Fix crash" (Some "Please review $directory")
      ["owner@example.org"] false false None "/repo" scenario_world
    = (Val tt, w') /\
    hd_error (trace w')
    = Some (EAddComment
              (FormatDescriptionOrComment "Please review $directory" "a/b")) /\
    In (EUpload (upload_arguments (Some "Please review $directory")
                   ["owner@example.org"] false false None)) (trace w').
Proof.
  assert (H : ~ In (branch_name "feature" "a/b") (branches scenario_world)).
  { intros [H|[H|[]]]; discriminate. }
  split; [intros cmd w0; reflexivity|]. split; [exact H|].
  split; [discriminate|].
  apply (UploadCl_comments_after_upload (scenario_env 1 "y") "feature"
           "origin/main" "a/b" [("M", "a/b/x.txt")] "Fix crash"
           "Please review $directory" ["owner@example.org"] false false None
           "/repo" scenario_world (fun cmd w0 => eq_refl) H).
  discriminate.
Defined.

(** *** The preconditions of [SplitCl] *)

(** Collaborators for a run that stops in its setup: [repo] tells whether
    [git rev-parse] succeeds, [status] is the status diff, [upstream] the
    upstream of the current branch, [body] the lines of the description
    outside its footers. *)
Definition setup_env (repo : bool) (status : list (string * string))
    (upstream : option string) (body : list string) : Env :=
  mkEnv
    (fun c _ => match c with RevParse => repo | _ => true end)
    (fun _ _ => "")
    (fun _ _ => "fatal: not a git repository")
    (fun _ _ => upstream)
    (fun _ _ => 0%Z)
    (fun _ _ => "y")
    (fun _ => "Fix crash")
    scenario_isfile
    "/repo"
    "/tmp/description"
    (fun _ => (body, []))
    (fun _ _ => status)
    "origin/main"
    (fun _ _ => [])
    "*"
    3.

(** X16. An empty description, one without any line outside its footers,
    makes [SplitCl] raise [IndexError] before it does anything. *)
Theorem SplitCl_empty_description (env : Env) (a : Args) (w : World) :
  fst (split_footers env (FileRead env (description_file a))) = [] ->
  SplitCl env a w = (Raise IndexError, w).
Proof.
  intros H. unfold SplitCl, function_body, bind, lift,
    AddUploadedByGitClSplitToDescription.
  now rewrite H.
Qed.

Lemma SplitCl_empty_description_witness :
  fst (split_footers (setup_env true [] None [])
         (FileRead (setup_env true [] None [])
            (description_file (scenario_args false)))) = [] /\
  SplitCl (setup_env true [] None []) (scenario_args false) scenario_world
  = (Raise IndexError, scenario_world).
Proof.
  split; [reflexivity|].
  apply (SplitCl_empty_description (setup_env true [] None [])
           (scenario_args false) scenario_world).
  reflexivity.
Defined.

(** X17. Outside a git repository, where [git rev-parse] fails, [SplitCl]
    writes the error of git to the standard error and returns 1; it runs
    no other command. *)
Theorem SplitCl_not_in_repository (env : Env) (a : Args) (w : World)
    (description : string) :
  AddUploadedByGitClSplitToDescription (split_footers env)
    (FileRead env (description_file a)) = Val description ->
  git_ok env RevParse w = false ->
  SplitCl env a w
  = (Val 1%Z,
     extend [EStderr (git_stderr env RevParse w); EGit RevParse] w).
Proof.
  intros Hd Hgit. rewrite (SplitCl_finish env a w description Hd).
  unfold SplitCl_try, SplitCl_setup, EnsureInGitRepository, bind, git_run.
  rewrite Hgit. reflexivity.
Qed.

Lemma SplitCl_not_in_repository_witness :
  AddUploadedByGitClSplitToDescription
    (split_footers (setup_env false [] None ["Fix crash"]))
    (FileRead (setup_env false [] None ["Fix crash"])
       (description_file (scenario_args false)))
  = Val scenario_description /\
  git_ok (setup_env false [] None ["Fix crash"]) RevParse scenario_world
  = false /\
  SplitCl (setup_env false [] None ["Fix crash"]) (scenario_args false)
    scenario_world
  = (Val 1%Z,
     extend
       [EStderr (git_stderr (setup_env false [] None ["Fix crash"])
                   RevParse scenario_world);
        EGit RevParse] scenario_world).
Proof.
  split; [reflexivity|]. split; [reflexivity|].
  apply (SplitCl_not_in_repository (setup_env false [] None ["Fix crash"])
           (scenario_args false) scenario_world scenario_description);
    reflexivity.
Defined.

(** X18. With no changed file [SplitCl] prints [Cannot split an empty CL.]
    and returns 1, without asking for the author or the branch. *)
Theorem SplitCl_empty_change (env : Env) (a : Args) (w : World)
    (description : string) :
  AddUploadedByGitClSplitToDescription (split_footers env)
    (FileRead env (description_file a)) = Val description ->
  git_ok env RevParse w = true ->
  CaptureStatus env (repository_root a) (GetCommonAncestorWithUpstream env)
  = [] ->
  SplitCl env a w
  = (Val 1%Z, extend [EPrint "Cannot split an empty CL."; EGit RevParse] w).
Proof.
  intros Hd Hgit Hst. rewrite (SplitCl_finish env a w description Hd).
  unfold SplitCl_try, SplitCl_setup, EnsureInGitRepository, bind, git_run.
  rewrite Hgit, Hst. reflexivity.
Qed.

Lemma SplitCl_empty_change_witness :
  AddUploadedByGitClSplitToDescription
    (split_footers (setup_env true [] None ["Fix crash"]))
    (FileRead (setup_env true [] None ["Fix crash"])
       (description_file (scenario_args false)))
  = Val scenario_description /\
  git_ok (setup_env true [] None ["Fix crash"]) RevParse scenario_world
  = true /\
  CaptureStatus (setup_env true [] None ["Fix crash"])
    (repository_root (scenario_args false))
    (GetCommonAncestorWithUpstream (setup_env true [] None ["Fix crash"]))
  = [] /\
  SplitCl (setup_env true [] None ["Fix crash"]) (scenario_args false)
    scenario_world
  = (Val 1%Z,
     extend [EPrint "Cannot split an empty CL."; EGit RevParse]
       scenario_world).
Proof.
  split; [reflexivity|]. split; [reflexivity|]. split; [reflexivity|].
  apply (SplitCl_empty_change (setup_env true [] None ["Fix crash"])
           (scenario_args false) scenario_world scenario_description);
    reflexivity.
Defined.

(** The world of [SplitCl] when it looks at the current branch. *)
Definition asked_email (w : World) : World :=
  extend [EGit (ConfigGet "user.email"); EGit RevParse] w.

Lemma SplitCl_setup_to_branch (env : Env) (a : Args) (w : World) :
  git_ok env RevParse w = true ->
  git_ok env (ConfigGet "user.email") (log (EGit RevParse) w) = true ->
  CaptureStatus env (repository_root a) (GetCommonAncestorWithUpstream env)
  <> [] ->
  SplitCl_setup env a w
  = (refactor_branch <-
       assert_truthy (current w) "Can't run from detached branch." ;;
     upstream_branch <- git_upstream env refactor_branch ;;
     refactor_branch_upstream <-
       assert_truthy upstream_branch
         ("Branch " +++ refactor_branch +++ " must have an upstream.") ;;
     files_split_by_owners <-
       lift (GetFilesSplitByOwners (isfile env) (fuel env)
               (map (fun af : string * string =>
                       (Str.strip (fst af), snd af))
                  (CaptureStatus env (repository_root a)
                     (GetCommonAncestorWithUpstream env)))
               (max_depth a)) ;;
     print ("Will split current branch (" +++ refactor_branch +++ ") into "
            +++ Str.of_nat (length files_split_by_owners) +++ " CLs."
            +++ Str.nl) ;;
     ret (mkSetup
            (if Str.truthy
                  (Str.strip (git_stdout env (ConfigGet "user.email")
                                (log (EGit RevParse) w)))
             then Some (Str.strip (git_stdout env (ConfigGet "user.email")
                                     (log (EGit RevParse) w)))
             else None)
            refactor_branch refactor_branch_upstream files_split_by_owners))
      (asked_email w).
Proof.
  intros H1 H2 Hst. destruct w as [bs cur tr].
  unfold SplitCl_setup, EnsureInGitRepository.
  unfold bind at 1 2. unfold git_run at 1. rewrite H1. cbn [ret].
  destruct (CaptureStatus env (repository_root a)
              (GetCommonAncestorWithUpstream env)) as [|s ss] eqn:E;
    [congruence|].
  cbn [map nonempty negb].
  unfold bind at 1. unfold git_run at 1.
  cbn [git_effect] in *. rewrite H2. cbn [git_effect].
  unfold bind at 1. unfold git_current_branch, get. reflexivity.
Qed.

(** X19. On a detached head, where git reports no current branch, the
    assertion of [SplitCl] fails: the [AssertionError] is not caught by the
    handler of [SplitCl] and leaves the function. *)
Theorem SplitCl_detached_head (env : Env) (a : Args) (w : World)
    (description : string) :
  AddUploadedByGitClSplitToDescription (split_footers env)
    (FileRead env (description_file a)) = Val description ->
  git_ok env RevParse w = true ->
  git_ok env (ConfigGet "user.email") (log (EGit RevParse) w) = true ->
  CaptureStatus env (repository_root a) (GetCommonAncestorWithUpstream env)
  <> [] ->
  current w = None ->
  SplitCl env a w
  = (Raise (AssertionError "Can't run from detached branch."),
     asked_email w).
Proof.
  intros Hd H1 H2 Hst Hcur. rewrite (SplitCl_finish env a w description Hd).
  unfold SplitCl_try. unfold bind at 1.
  rewrite (SplitCl_setup_to_branch env a w H1 H2 Hst), Hcur.
  reflexivity.
Qed.

Lemma SplitCl_detached_head_witness :
  AddUploadedByGitClSplitToDescription
    (split_footers (setup_env true [("M", "a/x")] None ["Fix crash"]))
    (FileRead (setup_env true [("M", "a/x")] None ["Fix crash"])
       (description_file (scenario_args false)))
  = Val scenario_description /\
  git_ok (setup_env true [("M", "a/x")] None ["Fix crash"]) RevParse
    (mkWorld ["main"] None []) = true /\
  git_ok (setup_env true [("M", "a/x")] None ["Fix crash"])
    (ConfigGet "user.email") (log (EGit RevParse) (mkWorld ["main"] None []))
  = true /\
  CaptureStatus (setup_env true [("M", "a/x")] None ["Fix crash"])
    (repository_root (scenario_args false))
    (GetCommonAncestorWithUpstream
       (setup_env true [("M", "a/x")] None ["Fix crash"]))
  <> [] /\
  current (mkWorld ["main"] None []) = None /\
  SplitCl (setup_env true [("M", "a/x")] None ["Fix crash"])
    (scenario_args false) (mkWorld ["main"] None [])
  = (Raise (AssertionError "Can't run from detached branch."),
     asked_email (mkWorld ["main"] None [])).
Proof.
  split; [reflexivity|]. split; [reflexivity|]. split; [reflexivity|].
  split; [discriminate|]. split; [reflexivity|].
  apply (SplitCl_detached_head
           (setup_env true [("M", "a/x")] None ["Fix crash"])
           (scenario_args false) (mkWorld ["main"] None [])
           scenario_description);
    try reflexivity.
  discriminate.
Defined.

(** X20. When the current branch has no upstream the second assertion
    fails, with the name of the branch in its message, before any file is
    grouped. *)
Theorem SplitCl_without_upstream (env : Env) (a : Args) (w : World)
    (description branch : string) :
  AddUploadedByGitClSplitToDescription (split_footers env)
    (FileRead env (description_file a)) = Val description ->
  git_ok env RevParse w = true ->
  git_ok env (ConfigGet "user.email") (log (EGit RevParse) w) = true ->
  CaptureStatus env (repository_root a) (GetCommonAncestorWithUpstream env)
  <> [] ->
  current w = Some branch -> branch <> "" ->
  upstream_of env branch (asked_email w) = None ->
  SplitCl env a w
  = (Raise (AssertionError
              ("Branch " +++ branch +++ " must have an upstream.")),
     asked_email w).
Proof.
  intros Hd H1 H2 Hst Hcur Hne Hup.
  rewrite (SplitCl_finish env a w description Hd).
  unfold SplitCl_try. unfold bind at 1.
  rewrite (SplitCl_setup_to_branch env a w H1 H2 Hst), Hcur.
  unfold assert_truthy at 1.
  replace (truthy branch) with true
    by (destruct branch; [congruence | reflexivity]).
  unfold bind, ret, git_upstream, get. rewrite Hup. reflexivity.
Qed.

Lemma SplitCl_without_upstream_witness :
  AddUploadedByGitClSplitToDescription
    (split_footers (setup_env true [("M", "a/x")] None ["Fix crash"]))
    (FileRead (setup_env true [("M", "a/x")] None ["Fix crash"])
       (description_file (scenario_args false)))
  = Val scenario_description /\
  git_ok (setup_env true [("M", "a/x")] None ["Fix crash"]) RevParse
    scenario_world = true /\
  git_ok (setup_env true [("M", "a/x")] None ["Fix crash"])
    (ConfigGet "user.email") (log (EGit RevParse) scenario_world) = true /\
  CaptureStatus (setup_env true [("M", "a/x")] None ["Fix crash"])
    (repository_root (scenario_args false))
    (GetCommonAncestorWithUpstream
       (setup_env true [("M", "a/x")] None ["Fix crash"]))
  <> [] /\
  current scenario_world = Some "feature" /\
  "feature" <> "" /\
  upstream_of (setup_env true [("M", "a/x")] None ["Fix crash"]) "feature"
    (asked_email scenario_world) = None /\
  SplitCl (setup_env true [("M", "a/x")] None ["Fix crash"])
    (scenario_args false) scenario_world
  = (Raise (AssertionError
              ("Branch " +++ "feature" +++ " must have an upstream.")),
     asked_email scenario_world).
Proof.
  split; [reflexivity|]. split; [reflexivity|]. split; [reflexivity|].
  split; [discriminate|]. split; [reflexivity|]. split; [discriminate|].
  split; [reflexivity|].
  apply (SplitCl_without_upstream
           (setup_env true [("M", "a/x")] None ["Fix crash"])
           (scenario_args false) scenario_world scenario_description
           "feature");
    try reflexivity; discriminate.
Defined.

(** *** The exit status *)

(** Every [return] statement that [m] executes returns a status in [Q]. *)
Definition returns_in {A} (Q : Z -> Prop) (m : M A) : Prop :=
  forall w status w', m w = (Return status, w') -> Q status.

Lemma returns_ret {A} (Q : Z -> Prop) (a : A) : returns_in Q (ret a).
Proof. intros w z w' H. discriminate. Qed.

Lemma returns_get {A} (Q : Z -> Prop) (f : World -> A) :
  returns_in Q (get f).
Proof. intros w z w' H. discriminate. Qed.

Lemma returns_emit (Q : Z -> Prop) (e : Event) : returns_in Q (emit e).
Proof. intros w z w' H. discriminate. Qed.

Lemma returns_raise {A} (Q : Z -> Prop) (e : Exn) :
  returns_in Q (@raise A e).
Proof. intros w z w' H. discriminate. Qed.

Lemma returns_return {A} (Q : Z -> Prop) (status : Z) :
  Q status -> returns_in Q (@return_ A status).
Proof. intros HQ w z w' H. inversion H; subst. exact HQ. Qed.

Lemma returns_lift {A} (Q : Z -> Prop) (o : Outcome A) :
  (forall status, o <> Return status) -> returns_in Q (lift o).
Proof.
  intros Ho w z w' H. unfold lift in H.
  apply (f_equal fst) in H. cbn in H. now apply Ho in H.
Qed.

Lemma returns_git_run (env : Env) (Q : Z -> Prop) (c : GitCmd) :
  returns_in Q (git_run env c).
Proof.
  intros w z w' H. unfold git_run in H.
  destruct (git_ok env c w); discriminate.
Qed.

Lemma returns_cmd_upload (env : Env) (Q : Z -> Prop) (args : list string) :
  returns_in Q (cmd_upload env args).
Proof. intros w z w' H. discriminate. Qed.

Lemma returns_AskForData (env : Env) (Q : Z -> Prop) (prompt : string) :
  returns_in Q (AskForData env prompt).
Proof. intros w z w' H. discriminate. Qed.

Lemma returns_bind {A B} (Q : Z -> Prop) (m : M A) (k : A -> M B) :
  returns_in Q m -> (forall a, returns_in Q (k a)) ->
  returns_in Q (bind m k).
Proof.
  intros Hm Hk w z w' H. unfold bind in H.
  destruct (m w) as [[a|z1|e|] w1] eqn:E; try discriminate.
  - eapply Hk; eassumption.
  - inversion H; subst. eapply Hm; eassumption.
Qed.

Lemma returns_when (Q : Z -> Prop) (b : bool) (m : M unit) :
  returns_in Q m -> returns_in Q (when b m).
Proof. destruct b; [auto | intros _; apply returns_ret]. Qed.

Lemma returns_temporary_file {A} (env : Env) (Q : Z -> Prop)
    (body : string -> M A) :
  (forall name, returns_in Q (body name)) ->
  returns_in Q (temporary_file env body).
Proof.
  intros Hb w z w' H. unfold temporary_file in H.
  destruct (body (tmp_file env) (log (ETempFile (tmp_file env)) w))
    as [o w1] eqn:E.
  inversion H; subst. eapply Hb; eassumption.
Qed.

Lemma returns_try_except {A} (Q : Z -> Prop) (body : M A)
    (handler : string -> M A) :
  returns_in Q body -> (forall s, returns_in Q (handler s)) ->
  returns_in Q (try_except body handler).
Proof.
  intros Hb Hh w z w' H. unfold try_except in H.
  destruct (body w) as [[a|z1|e|] w1] eqn:E; try discriminate.
  - inversion H; subst. eapply Hb; eassumption.
  - destruct e; try discriminate. eapply Hh; eassumption.
Qed.

Ltac returns_auto tac :=
  repeat first
    [ apply returns_ret | apply returns_get | apply returns_emit
    | apply returns_raise | apply returns_git_run
    | apply returns_cmd_upload | apply returns_AskForData
    | apply returns_return; tac
    | apply returns_when
    | apply returns_temporary_file; intros ?
    | apply returns_bind; [|intros ?]
    | match goal with
      | |- returns_in _ (if ?b then _ else _) => destruct b
      | |- returns_in _ (match ?x with _ => _ end) => destruct x
      end ].

Lemma split_loop_no_return (isfile : string -> bool) (fuel : nat)
    (files : list File) (max_depth : Z) :
  forall m status,
    split_loop isfile fuel files max_depth m <> Return status.
Proof.
  induction files as [|[action path] files IH]; intros m status; simpl;
    [discriminate|].
  unfold start_dir.
  destruct (max_depth >=? 1)%Z.
  - destruct (take max_depth _) as [|x xs]; cbn [Path.join_star];
      [discriminate|].
    destruct (find_owners isfile fuel m _); [apply IH | discriminate].
  - destruct (find_owners isfile fuel m _); [apply IH | discriminate].
Qed.

Definition zero_or_one (status : Z) : Prop := status = 0%Z \/ status = 1%Z.

Lemma returns_UploadCl (env : Env) (Q : Z -> Prop)
    (refactor_branch refactor_branch_upstream directory : string)
    (files : list File) (description : string) (comment : option string)
    (reviewers : list string) (cq_dry_run enable_auto_submit : bool)
    (topic : option string) (repository_root : string) :
  returns_in Q (UploadCl env refactor_branch refactor_branch_upstream
                  directory files description comment reviewers cq_dry_run
                  enable_auto_submit topic repository_root).
Proof.
  unfold UploadCl, CreateBranchForDirectory, checkout_changes,
    commit_changes, upload_and_comment, git_branches, git_current_branch,
    print, FileWrite, AddComment.
  returns_auto idtac.
Qed.

Lemma returns_upload_loop (env : Env) (Q : Z -> Prop) (a : Args)
    (st : Setup) (num_cls : nat) (description : string)
    (comment : option string) (groups : Groups) :
  forall cl_index,
    returns_in Q (upload_loop env a st num_cls description comment cl_index
                    groups).
Proof.
  induction groups as [|[directory files] groups IH]; intros cl_index;
    cbn [upload_loop].
  - apply returns_ret.
  - apply returns_bind; [|intros _; apply IH].
    destruct (dry_run a); [|apply returns_UploadCl].
    unfold PrintClInfo, print. returns_auto idtac.
Qed.

Lemma returns_SplitCl_try (env : Env) (a : Args) (description : string)
    (comment : option string) :
  returns_in zero_or_one (SplitCl_try env a description comment).
Proof.
  unfold SplitCl_try. apply returns_bind.
  - unfold SplitCl_setup, EnsureInGitRepository, git_current_branch,
      git_upstream, assert_truthy, print.
    returns_auto ltac:(now right).
    apply returns_lift. apply split_loop_no_return.
  - intros st. apply returns_bind; [|intros _; apply returns_bind].
    + unfold fan_out_gate, print. returns_auto ltac:(now left).
    + unfold bug_link_gate. returns_auto ltac:(now left).
    + intros _. unfold upload_groups.
      apply returns_bind; [apply returns_upload_loop|].
      intros _. returns_auto idtac.
Qed.

(** X21. When [SplitCl] returns, its exit status is 0 or 1. *)
Theorem SplitCl_exit_status (env : Env) (a : Args) (w : World) :
  match fst (SplitCl env a w) with
  | Val status => status = 0%Z \/ status = 1%Z
  | Return _ => False
  | Raise _ | Diverges => True
  end.
Proof.
  unfold SplitCl, function_body. unfold bind at 1. unfold lift at 1.
  destruct (AddUploadedByGitClSplitToDescription (split_footers env)
              (FileRead env (description_file a))) as [d|z|e|] eqn:D;
    cbn; try exact I.
  - set (comment := if truthy_opt (comment_file a)
                    then option_map (FileRead env) (comment_file a)
                    else None).
    assert (H : returns_in zero_or_one
                  (try_except (SplitCl_try env a d comment)
                     (fun stderr => emit (EStderr stderr) ;; return_ 1))).
    { apply returns_try_except; [apply returns_SplitCl_try|].
      intros s. returns_auto ltac:(now right). }
    unfold bind at 1.
    destruct (try_except (SplitCl_try env a d comment) _ w)
      as [[u|z|e|] w1] eqn:E; cbn; try exact I.
    + now left.
    + exact (H _ _ _ E).
  - revert D. unfold AddUploadedByGitClSplitToDescription, last_item.
    destruct (fst (split_footers env (FileRead env (description_file a))));
      discriminate.
Qed.

(** *** A dry run *)

Definition is_print (e : Event) : Prop :=
  match e with EPrint _ => True | _ => False end.

Lemma PrintClInfo_prints (cl_index num_cls : nat) (directory : string)
    (file_paths : list string) (description : string)
    (reviewers : list string) (enable_auto_submit : bool)
    (topic : option string) (w : World) :
  exists evs,
    PrintClInfo cl_index num_cls directory file_paths description reviewers
      enable_auto_submit topic w = (Val tt, extend evs w) /\
    Forall is_print evs /\ length evs = 8.
Proof.
  destruct w as [bs cur tr].
  eexists (EPrint _ :: EPrint _ :: EPrint _ :: EPrint _ :: EPrint _
             :: EPrint _ :: EPrint _ :: [EPrint _]).
  split; [reflexivity|]. split; [repeat constructor | reflexivity].
Qed.

Lemma upload_loop_dry_run (env : Env) (a : Args) (st : Setup)
    (num_cls : nat) (description : string) (comment : option string)
    (groups : Groups) :
  dry_run a = true ->
  forall cl_index w,
  exists evs,
    upload_loop env a st num_cls description comment cl_index groups w
    = (Val tt, extend evs w) /\
    Forall is_print evs /\ length evs = 8 * length groups.
Proof.
  intros Hdry. induction groups as [|[directory files] groups IH];
    intros cl_index w; cbn [upload_loop].
  - exists []. rewrite extend_nil. repeat split. constructor.
  - rewrite Hdry.
    destruct (PrintClInfo_prints cl_index num_cls
                (Str.replace directory (String Path.sep "") "/")
                (map snd files) description
                (SuggestOwners env (map snd files)
                   [author st; Some (EVERYONE env)])
                (enable_auto_submit a) (topic a) w) as [e1 [H1 [F1 L1]]].
    rewrite (bind_val _ _ _ _ _ H1).
    destruct (IH (S cl_index) (extend e1 w)) as [e2 [H2 [F2 L2]]].
    exists (e2 ++ e1). rewrite H2, extend_extend.
    split; [reflexivity|]. split; [now apply Forall_app|].
    rewrite length_app. cbn [length]. lia.
Qed.

(** X22. In a dry run nothing is done to the repository for the groups:
    eight lines are printed for each group, the only git command is the
    final checkout of the original branch, and the branches are the same
    afterwards, whether that checkout succeeds or not. *)
Theorem upload_groups_dry_run (env : Env) (a : Args) (st : Setup)
    (description : string) (comment : option string) (w : World) :
  dry_run a = true ->
  exists evs,
    trace (snd (upload_groups env a st description comment w))
    = EGit (Checkout (refactor_branch st)) :: evs ++ trace w /\
    Forall is_print evs /\
    length evs = 8 * length (files_split_by_owners st) /\
    branches (snd (upload_groups env a st description comment w))
    = branches w.
Proof.
  intros Hdry. unfold upload_groups.
  destruct (upload_loop_dry_run env a st
              (length (files_split_by_owners st)) description comment
              (files_split_by_owners st) Hdry 1 w) as [evs [H [F L]]].
  rewrite (bind_val _ _ _ _ _ H).
  exists evs. unfold bind, git_run.
  destruct (git_ok env (Checkout (refactor_branch st)) (extend evs w));
    cbn; auto.
Qed.

Lemma upload_groups_dry_run_witness :
  dry_run (mkArgs "description.txt" None true false false 0 None "/repo")
  = true /\
  exists evs,
    trace (snd (upload_groups (scenario_env 0 "y")
                  (mkArgs "description.txt" None true false false 0 None
                     "/repo")
                  scenario_setup scenario_description None scenario_world))
    = EGit (Checkout (refactor_branch scenario_setup))
        :: evs ++ trace scenario_world /\
    Forall is_print evs /\
    length evs = 8 * length (files_split_by_owners scenario_setup) /\
    branches (snd (upload_groups (scenario_env 0 "y")
                     (mkArgs "description.txt" None true false false 0 None
                        "/repo")
                     scenario_setup scenario_description None
                     scenario_world))
    = branches scenario_world.
Proof.
  split; [reflexivity|].
  apply (upload_groups_dry_run (scenario_env 0 "y")
           (mkArgs "description.txt" None true false false 0 None "/repo")
           scenario_setup scenario_description None scenario_world).
  reflexivity.
Defined.

(** *** What a run never does *)

(** The only questions of the program. *)
Definition allowed (e : Event) : Prop :=
  match e with
  | EAsk prompt => prompt = fan_out_prompt \/ prompt = bug_link_prompt
  | _ => True
  end.

Lemma quiet_allowed (e : Event) : quiet e -> allowed e.
Proof. destruct e; simpl; tauto. Qed.

Lemma steps_SplitCl_try (env : Env) (a : Args) (description : string)
    (comment : option string) :
  steps allowed (SplitCl_try env a description comment).
Proof.
  unfold SplitCl_try. apply steps_bind.
  - unfold SplitCl_setup, EnsureInGitRepository, git_current_branch,
      git_upstream, assert_truthy, print, raise, return_.
    steps_with ltac:(exact I).
  - intros st. apply steps_bind; [|intros _; apply steps_bind].
    + unfold fan_out_gate, print, return_.
      steps_with ltac:(first [exact I | now left]).
    + apply steps_bug_link_gate. now right.
    + intros _. eapply steps_weaken; [|apply steps_upload_groups].
      apply quiet_allowed.
Qed.

(** X23. Whatever its outcome, a run of [SplitCl] deletes no branch, and
    the only questions it asks are the two confirmations. *)
Theorem SplitCl_keeps_branches (env : Env) (a : Args) (w : World) :
  incl (branches w) (branches (snd (SplitCl env a w))) /\
  exists evs,
    trace (snd (SplitCl env a w)) = evs ++ trace w /\
    forall prompt, In (EAsk prompt) evs ->
                   prompt = fan_out_prompt \/ prompt = bug_link_prompt.
Proof.
  assert (Hs : steps allowed (SplitCl env a)).
  { unfold SplitCl. apply steps_function_body.
    apply steps_bind; [apply steps_lift | intros d].
    apply steps_bind; [|intros _; apply steps_lift].
    apply steps_try_except; [apply steps_SplitCl_try|].
    intros s. apply steps_bind; [now apply steps_emit | intros _].
    apply steps_lift. }
  destruct (SplitCl env a w) as [o w'] eqn:E.
  destruct (Hs _ _ _ E) as [Hi [evs [Ht Hf]]]. cbn [snd].
  split; [exact Hi|]. exists evs. split; [exact Ht|].
  intros prompt Hin. rewrite Forall_forall in Hf. exact (Hf _ Hin).
Qed.

(** *** The answers *)

Lemma lower_char_y (c : ascii) :
  lower_char c = "y"%char <-> c = "y"%char \/ c = "Y"%char.
Proof.
  destruct c as [[] [] [] [] [] [] [] []]; vm_compute;
    split; intros H; try discriminate; auto;
    destruct H as [H|H]; discriminate.
Qed.

Lemma lower_y (s : string) : lower s = "y" <-> s = "y" \/ s = "Y".
Proof.
  destruct s as [|c s]; [split; [discriminate | intros [H|H]; discriminate]|].
  destruct s as [|c' s].
  - cbn [lower]. split.
    + intros H. inversion H as [Hc]. apply lower_char_y in Hc.
      destruct Hc as [->| ->]; auto.
    + intros [H|H]; inversion H; reflexivity.
  - cbn [lower]. split; [discriminate | intros [H|H]; discriminate].
Qed.

(** X24. Both confirmations go on exactly for the answers [y] and [Y]:
    the bug-link check lets the run continue when a bug link is found or
    the answer is one of the two, the fan-out check when it does not apply
    or the answer is one of the two; any other answer is a [return 0]. *)
Theorem gates_accept_y (env : Env) (description : string) (cq : bool)
    (n : nat) (w : World) :
  (fst (bug_link_gate env description w) = Val tt <->
   has_bug_link description = true \/
   AskForData_answer env bug_link_prompt w = "y" \/
   AskForData_answer env bug_link_prompt w = "Y") /\
  (fst (bug_link_gate env description w) = Val tt \/
   fst (bug_link_gate env description w) = Return 0%Z) /\
  (fst (fan_out_gate env cq n w) = Val tt <->
   cq && (10 <? n)%nat = false \/
   AskForData_answer env fan_out_prompt
     (log (EPrint (fan_out_warning n)) w) = "y" \/
   AskForData_answer env fan_out_prompt
     (log (EPrint (fan_out_warning n)) w) = "Y") /\
  (fst (fan_out_gate env cq n w) = Val tt \/
   fst (fan_out_gate env cq n w) = Return 0%Z).
Proof.
  rewrite bug_link_gate_eq, fan_out_gate_eq.
  assert (Hans : forall s, negb (lower s =? "y") = false <->
                           s = "y" \/ s = "Y").
  { intros s. rewrite negb_false_iff, String.eqb_eq. apply lower_y. }
  repeat split.
  - destruct (has_bug_link description); [now left|]. cbn [fst].
    destruct (negb (lower _ =? "y")) eqn:E; [discriminate|].
    intros _. right. now apply Hans.
  - destruct (has_bug_link description); [reflexivity|]. cbn [fst].
    intros [H|H]; [discriminate|]. apply Hans in H. now rewrite H.
  - destruct (has_bug_link description); [now left|]. cbn [fst].
    destruct (negb (lower _ =? "y")); auto.
  - destruct (cq && (10 <? n)%nat); [|now left]. cbn [fst].
    destruct (negb (lower _ =? "y")) eqn:E; [discriminate|].
    intros _. right. now apply Hans.
  - destruct (cq && (10 <? n)%nat); [|reflexivity]. cbn [fst].
    intros [H|H]; [discriminate|]. apply Hans in H. now rewrite H.
  - destruct (cq && (10 <? n)%nat); [|now left]. cbn [fst].
    destruct (negb (lower _ =? "y")); auto.
Qed.

(** *** The bug link in a longer description *)

(** X25. A bug link that the check finds is still found after text is
    appended to the description and after lines are put before it. *)
Theorem has_bug_link_extend (description before after : string) :
  has_bug_link description = true ->
  has_bug_link (description +++ after) = true /\
  has_bug_link (before +++ nl +++ description) = true.
Proof.
  intros H. apply has_bug_link_iff in H.
  destruct H as [pre [ws [pfx [ds [post [-> [Hb [Hws [Hp [Hd1 Hd2]]]]]]]]]].
  split; apply has_bug_link_iff.
  - exists pre, ws, pfx, ds, (post +++ after).
    repeat split; try assumption. now rewrite !append_assoc.
  - exists (before +++ nl +++ pre), ws, pfx, ds, post.
    repeat split; try assumption; [now rewrite !append_assoc|].
    right. destruct Hb as [->|[b ->]].
    + exists before. now rewrite ?append_assoc, append_empty_r.
    + exists (before +++ nl +++ b). now rewrite ?append_assoc.
Qed.

Lemma has_bug_link_extend_witness :
  has_bug_link "Bug: 123" = true /\
  has_bug_link ("Bug: 123" +++ (nl +++ "Change-Id: I0")) = true /\
  has_bug_link ("Fix crash" +++ nl +++ "Bug: 123") = true.
Proof.
  split; [reflexivity|].
  apply (has_bug_link_extend "Bug: 123" "Fix crash" (nl +++ "Change-Id: I0")).
  reflexivity.
Defined.

(** *** A run that succeeds *)

(** X26. When the setup succeeds, the git commands succeed and every
    question is answered [y] or [Y], [SplitCl] returns 0 with the original
    branch checked out by its last command, whatever the uploads
    returned. *)
Theorem SplitCl_succeeds (env : Env) (a : Args) (w : World)
    (description : string) (st : Setup) (w1 : World) :
  AddUploadedByGitClSplitToDescription (split_footers env)
    (FileRead env (description_file a)) = Val description ->
  SplitCl_setup env a w = (Val st, w1) ->
  (forall c w0, git_ok env c w0 = true) ->
  (forall prompt w0, lower (AskForData_answer env prompt w0) = "y") ->
  exists w',
    SplitCl env a w = (Val 0%Z, w') /\
    current w' = Some (refactor_branch st) /\
    hd_error (trace w') = Some (EGit (Checkout (refactor_branch st))).
Proof.
  intros Hdesc Hsetup Hgit Hyes.
  rewrite (SplitCl_finish env a w description Hdesc).
  unfold SplitCl_try. rewrite (bind_val _ _ _ _ _ Hsetup).
  assert (Hfan : exists w2,
             fan_out_gate env (cq_dry_run a)
               (length (files_split_by_owners st)) w1 = (Val tt, w2)).
  { rewrite fan_out_gate_eq.
    destruct (cq_dry_run a && _); [|now exists w1].
    rewrite Hyes. cbn. eexists. reflexivity. }
  destruct Hfan as [w2 Hfan]. rewrite (bind_val _ _ _ _ _ Hfan).
  assert (Hbug : exists w3,
             bug_link_gate env description w2 = (Val tt, w3)).
  { rewrite bug_link_gate_eq.
    destruct (has_bug_link description); [now exists w2|].
    rewrite Hyes. cbn. eexists. reflexivity. }
  destruct Hbug as [w3 Hbug]. rewrite (bind_val _ _ _ _ _ Hbug).
  unfold upload_groups.
  destruct (upload_loop_completes env Hgit a st
              (length (files_split_by_owners st)) description
              (comment_of env a) (files_split_by_owners st) 1 w3)
    as [w4 [evs [H4 _]]].
  rewrite (bind_val _ _ _ _ _ H4).
  unfold bind, git_run. rewrite Hgit. cbn.
  eexists. split; [reflexivity|]. split; reflexivity.
Qed.

Lemma SplitCl_succeeds_witness :
  AddUploadedByGitClSplitToDescription (split_footers (scenario_env 1 "Y"))
    (FileRead (scenario_env 1 "Y") (description_file (scenario_args false)))
  = Val scenario_description /\
  SplitCl_setup (scenario_env 1 "Y") (scenario_args false) scenario_world
  = (Val scenario_setup, scenario_after_setup) /\
  (forall c w0, git_ok (scenario_env 1 "Y") c w0 = true) /\
  (forall prompt w0,
     lower (AskForData_answer (scenario_env 1 "Y") prompt w0) = "y") /\
  exists w',
    SplitCl (scenario_env 1 "Y") (scenario_args false) scenario_world
    = (Val 0%Z, w') /\
    current w' = Some (refactor_branch scenario_setup) /\
    hd_error (trace w')
    = Some (EGit (Checkout (refactor_branch scenario_setup))).
Proof.
  split; [reflexivity|]. split; [vm_compute; reflexivity|].
  split; [intros c w0; reflexivity|].
  split; [intros prompt w0; reflexivity|].
  apply (SplitCl_succeeds (scenario_env 1 "Y") (scenario_args false)
           scenario_world scenario_description scenario_setup
           scenario_after_setup).
  - reflexivity.
  - vm_compute. reflexivity.
  - intros c w0. reflexivity.
  - intros prompt w0. reflexivity.
Defined.

(** *** The options of the upload *)

Lemma has_char_append (c : ascii) (a b : string) :
  has_char c (a +++ b) = has_char c a || has_char c b.
Proof.
  induction a as [|x a IH]; [reflexivity|].
  cbn [append has_char]. now rewrite IH, orb_assoc.
Qed.

Lemma has_char_join (c : ascii) (sep : string) (l : list string) :
  l <> [] -> Forall (fun r => has_char c r = true) l ->
  has_char c (Str.join sep l) = true.
Proof.
  intros Hne H. destruct H as [|r rs Hr Hrs]; [contradiction|].
  destruct rs as [|r' rs]; [exact Hr|].
  change (Str.join sep (r :: r' :: rs))
    with (r +++ sep +++ Str.join sep (r' :: rs)).
  now rewrite has_char_append, Hr.
Qed.

Ltac refute_option :=
  match goal with
  | H : _ \/ _ |- _ => destruct H as [H|H]
  | H : False |- _ => destruct H
  | Hj : has_char _ ?j = true, H : ?j = _ |- _ =>
      rewrite H in Hj; discriminate Hj
  | H : _ = _ |- _ => discriminate H
  end.

(** X27. When the reviewers are e-mail addresses, the options of the upload
    say what was asked for: the first is [-f]; [-r] is given exactly when
    there is a reviewer, [--cq-dry-run] and [--enable-auto-submit] exactly
    when they are set, and [--send-mail] exactly when no comment is
    configured, which is when [UploadCl] posts none. *)
Theorem upload_arguments_options (comment : option string)
    (reviewers : list string) (cq_dry_run enable_auto_submit : bool)
    (topic : option string) :
  Forall (fun r => has_char "@" r = true) reviewers ->
  let upload_args :=
    upload_arguments comment reviewers cq_dry_run enable_auto_submit
      topic in
  hd_error upload_args = Some "-f" /\
  (In "-r" upload_args <-> reviewers <> []) /\
  (In "--cq-dry-run" upload_args <-> cq_dry_run = true) /\
  (In "--send-mail" upload_args <-> truthy_opt comment = false) /\
  (In "--enable-auto-submit" upload_args <-> enable_auto_submit = true).
Proof.
  intros Hrev upload_args. subst upload_args. unfold upload_arguments.
  destruct reviewers as [|r rs].
  - destruct cq_dry_run, enable_auto_submit, comment as [[|c0 c]|],
      topic as [[|t0 t]|]; cbn;
      repeat split; intros H; try reflexivity; try congruence; auto 10;
      repeat refute_option.
  - assert (Hj : has_char "@" (Str.join "," (r :: rs)) = true)
      by (apply has_char_join; [discriminate | exact Hrev]).
    cbn [nonempty]. revert Hj. generalize (Str.join "," (r :: rs)).
    intros j Hj.
    destruct cq_dry_run, enable_auto_submit, comment as [[|c0 c]|],
      topic as [[|t0 t]|]; cbn;
      repeat split; intros H; try reflexivity; try congruence; auto 10;
      repeat refute_option.
Qed.

Lemma upload_arguments_options_witness :
  Forall (fun r => has_char "@" r = true) ["a@chromium.org"] /\
  hd_error (upload_arguments None ["a@chromium.org"] true false
              (Some "split"))
  = Some "-f" /\
  (In "-r" (upload_arguments None ["a@chromium.org"] true false
              (Some "split"))
   <-> ["a@chromium.org"] <> []) /\
  (In "--cq-dry-run" (upload_arguments None ["a@chromium.org"] true false
                        (Some "split"))
   <-> true = true) /\
  (In "--send-mail" (upload_arguments None ["a@chromium.org"] true false
                       (Some "split"))
   <-> truthy_opt None = false) /\
  (In "--enable-auto-submit"
      (upload_arguments None ["a@chromium.org"] true false (Some "split"))
   <-> false = true).
Proof.
  split; [repeat constructor|].
  apply (upload_arguments_options None ["a@chromium.org"] true false
           (Some "split")).
  repeat constructor.
Defined.

End WorkflowExtra.
